(** * AdvancedConfigParser: the lazy evaluator, its cache, reference
      resolution and the expression serializer

    A shallow embedding of [AdvancedConfigParser.py] and [ast_to_src.py].

    - Python's [ast] nodes are the inductive type [ast.node]: the node kinds
      the evaluator or the serializer has a branch for.  The parser can hand
      over more (subscripts, sets, lambdas, comprehensions, formatted and
      byte strings, starred and double-starred arguments); these, like
      floating point constants, are outside the model.
    - Section and Option objects live in a store indexed by object identity;
      [_acp_parent] is a reference into that store.
    - [LazyEval.cache] is one dictionary shared by every Option (the
      descriptor is a class attribute), keyed by the Option instance.
    - Python exceptions are the constructors of [exn]; a computation either
      returns or raises.  Recursion through references is bounded by fuel.
    - Host-language operations that are not code of this repository
      (arithmetic operators, comparisons, the built-in functions, attribute
      lookup on plain values) are the methods of the class [Host].
    - Floating point and complex numbers are left out: numbers are integers. *)

From stdpp Require Import base option list strings gmap.
From Stdlib Require Import ZArith Lia Ascii DecimalString.

Set Default Proof Using "Type".
Set Warnings "-register-all,-at-level-200-changed".

(** ** Exceptions and results *)

Inductive exn :=
| SyntaxError
| ValueError
| TypeError
| RuntimeError
| AttributeError
| KeyError
| AssertionError
| ZeroDivisionError
| OtherError (name : string).

Inductive result (A : Type) :=
| Ret (a : A)
| Raise (e : exn).
Arguments Ret {A} a.
Arguments Raise {A} e.

Definition rbind {A B} (m : result A) (k : A -> result B) : result B :=
  match m with
  | Ret a => k a
  | Raise e => Raise e
  end.

Notation "'let+' x := m 'in' k" := (rbind m (fun x => k))
  (at level 10, x pattern, m at level 100, k at level 200).

Definition mapR {A B} (f : A -> result B) : list A -> result (list B) :=
  fix go l :=
    match l with
    | [] => Ret []
    | x :: r => let+ y := f x in let+ ys := go r in Ret (y :: ys)
    end.

(** ** Values *)

Definition sec_id := nat.
Definition opt_id := nat.

(** [VSection] is a reference to a Section object; [VObject] is any other
    host object (a bound method, a type, a range, a set, ...), known by its
    [repr] and its truth value. *)
Inductive value :=
| VNone
| VBool (b : bool)
| VInt (n : Z)
| VStr (s : string)
| VList (l : list value)
| VTuple (l : list value)
| VDict (items : list (value * value))
| VSection (s : sec_id)
| VObject (repr : string) (truth : bool).

(** [bool(v)]: the truth value Python's [if v] tests.  Section objects define
    neither [__bool__] nor [__len__], so they are true. *)
Definition truthy (v : value) : bool :=
  match v with
  | VNone => false
  | VBool b => b
  | VInt n => negb (n =? 0)%Z
  | VStr s => negb (String.eqb s "")
  | VList l | VTuple l => negb (bool_decide (l = []))
  | VDict items => negb (bool_decide (items = []))
  | VSection _ => true
  | VObject _ truth => truth
  end.

(** whether [hash(v)] succeeds, for the values a literal can denote *)
Fixpoint hashable (v : value) : bool :=
  match v with
  | VList _ | VDict _ => false
  | VTuple l => forallb hashable l
  | _ => true
  end.

(** [a == b] on hashable values, as a dictionary compares its keys
    ([True == 1] and [False == 0]). *)
Fixpoint key_eqb (a b : value) {struct a} : bool :=
  match a, b with
  | VNone, VNone => true
  | VBool x, VBool y => Bool.eqb x y
  | VBool x, VInt n | VInt n, VBool x => (Z.b2z x =? n)%Z
  | VInt m, VInt n => (m =? n)%Z
  | VStr s, VStr t => String.eqb s t
  | VTuple l, VTuple l' =>
      (fix go (l : list value) (l' : list value) {struct l} : bool :=
         match l, l' with
         | [], [] => true
         | x :: r, y :: r' => key_eqb x y && go r r'
         | _, _ => false
         end) l l'
  | VSection s, VSection t => (s =? t)%nat
  | VObject r _, VObject r' _ => String.eqb r r'
  | _, _ => false
  end.

(** [d[k] = v] on the ordered item list of a dict: an equal key keeps its
    position and takes the new value, a new key is appended. *)
Fixpoint dict_setitem (items : list (value * value)) (k v : value)
  : list (value * value) :=
  match items with
  | [] => [(k, v)]
  | (k', v') :: r =>
      if key_eqb k' k then (k', v) :: r else (k', v') :: dict_setitem r k v
  end.

(** ** The expression nodes of Python's [ast] module *)

Module ast.

Inductive singleton := PyNone | PyTrue | PyFalse.
Inductive unaryop := Invert | Not | UAdd | USub.
Inductive operator :=
| Add | Sub | Mult | MatMult | Div | Mod | Pow
| LShift | RShift | BitOr | BitXor | BitAnd | FloorDiv.
Inductive boolop := And | Or.
Inductive cmpop := Eq | NotEq | Lt | LtE | Gt | GtE | Is | IsNot | In | NotIn.

(** [List], [Tuple], [Name] and [Attribute] carry a [ctx] field in Python;
    on the right-hand side of an assignment it is always [Load()], which
    is why [Load] is a node here: [iter_child_nodes] hands it out. *)
Inductive node :=
| Num (n : Z)
| Str (s : string)
| NameConstant (value : singleton)
| Name (id : string)
| Attribute (value : node) (attr : string)
| UnaryOp (op : unaryop) (operand : node)
| BinOp (left : node) (op : operator) (right : node)
| BoolOp (op : boolop) (values : list node)
| Compare (left : node) (ops : list cmpop) (comparators : list node)
| IfExp (test body orelse : node)
| List (elts : list node)
| Tuple (elts : list node)
| Dict (keys values : list node)
| Call (func : node) (args : list node) (keywords : list (string * node))
| Load.

(** [ast.iter_child_nodes]: the fields that are nodes, in field order. *)
Definition iter_child_nodes (n : node) : list node :=
  match n with
  | Num _ | Str _ | NameConstant _ | Load => []
  | Name _ => [Load]
  | Attribute v _ => [v; Load]
  | UnaryOp _ operand => [operand]
  | BinOp l _ r => [l; r]
  | BoolOp _ values => values
  | Compare l _ comparators => l :: comparators
  | IfExp t b o => [t; b; o]
  | List elts | Tuple elts => elts ++ [Load]
  | Dict keys values => keys ++ values
  | Call func args keywords => func :: args ++ map snd keywords
  end.

Definition singleton_value (c : singleton) : value :=
  match c with
  | PyNone => VNone
  | PyTrue => VBool true
  | PyFalse => VBool false
  end.

(** *** [ast.literal_eval] (the standard library's, CPython 3.8) *)

Definition _convert_num (n : node) : result value :=
  match n with
  | Num z => Ret (VInt z)
  | _ => Raise ValueError
  end.

Definition _convert_signed_num (n : node) : result value :=
  match n with
  | UnaryOp UAdd operand =>
      let+ v := _convert_num operand in Ret v
  | UnaryOp USub operand =>
      let+ v := _convert_num operand in
      match v with
      | VInt z => Ret (VInt (- z))
      | _ => Ret v
      end
  | _ => _convert_num n
  end.

(** [dict(zip(ks, vs))] where [ks] and [vs] are the lazy iterators
    [map(_convert, keys)] and [map(_convert, values)]: an element is the
    outcome of converting one node, looked at only when [zip] asks for it.
    A pair is converted, then inserted (which hashes the key), before the
    next pair is looked at. *)
Fixpoint dict_zip (ks vs : list (result value)) (acc : list (value * value))
  : result value :=
  match ks with
  | [] => Ret (VDict acc)
  | k :: ks' =>
      let+ kv := k in
      match vs with
      | [] => Ret (VDict acc)
      | v :: vs' =>
          let+ vv := v in
          if hashable kv then dict_zip ks' vs' (dict_setitem acc kv vv)
          else Raise TypeError
      end
  end.

Fixpoint _convert (n : node) : result value :=
  match n with
  | Num z => Ret (VInt z)
  | Str s => Ret (VStr s)
  | NameConstant c => Ret (singleton_value c)
  | Tuple elts => let+ vs := mapR _convert elts in Ret (VTuple vs)
  | List elts => let+ vs := mapR _convert elts in Ret (VList vs)
  | Dict keys values =>
      dict_zip (map _convert keys) (map _convert values) []
  | BinOp l (Add | Sub) r =>
      (* numbers are integers here, so the complex-literal case
         [real +/- imag j] never applies *)
      let+ _ := _convert_signed_num l in
      let+ _ := _convert_num r in
      _convert_signed_num n
  | _ => _convert_signed_num n
  end.

Definition literal_eval (n : node) : result value := _convert n.

End ast.

(** ** The serializer, [ast_to_src.py] *)

Definition apostrophe : Ascii.ascii := "'"%char.
Definition double_quote : Ascii.ascii := "034"%char.
Definition backslash : Ascii.ascii := "\"%char.
Definition newline : Ascii.ascii := "010"%char.

(** [re.search(r"(?<!\\)q", s) is not None] for a one-character [q]: some
    occurrence of [q] is not immediately preceded by a backslash. *)
Fixpoint re_search_unescaped (q : Ascii.ascii) (after_backslash : bool)
  (s : string) : bool :=
  match s with
  | EmptyString => false
  | String c rest =>
      if Ascii.eqb c q && negb after_backslash then true
      else re_search_unescaped q (Ascii.eqb c backslash) rest
  end.

(** [c in s] for a one-character [c]. *)
Fixpoint str_contains (c : Ascii.ascii) (s : string) : bool :=
  match s with
  | EmptyString => false
  | String c' rest => Ascii.eqb c' c || str_contains c rest
  end.

(** [quotation * k] *)
Fixpoint str_repeat (s : string) (k : nat) : string :=
  match k with
  | O => EmptyString
  | S k' => s +:+ str_repeat s k'
  end.

Definition quote_str (s : string) : result string :=
  let tick_result := re_search_unescaped apostrophe false s in
  let dbl_tick_result := re_search_unescaped double_quote false s in
  if tick_result && dbl_tick_result then
    (* [raise RuntimeError("... >{s}<".format(s))]: the message is built
       first, and [str.format] is given [s] positionally while the template
       asks for the keyword field [s] *)
    let+ msg := (Raise KeyError : result string) in
    Raise RuntimeError
  else
    let quotation :=
      if negb tick_result then String apostrophe EmptyString
      else String double_quote EmptyString in
    let quotation :=
      if str_contains newline s then str_repeat quotation 3 else quotation in
    Ret (quotation +:+ s +:+ quotation).

(** [str(n)] of an integer *)
Definition str_int (n : Z) : string := NilZero.string_of_int (Z.to_int n).

Definition unaryop_src (op : ast.unaryop) : string :=
  match op with
  | ast.Invert => "~"
  | ast.Not => "!"
  | ast.UAdd => "+"
  | ast.USub => "-"
  end.

(** the [ops] dictionary of the [BinOp] case; [MatMult] is not a key *)
Definition operator_src (op : ast.operator) : result string :=
  match op with
  | ast.Add => Ret "+" | ast.Sub => Ret "-" | ast.Mult => Ret "*"
  | ast.Div => Ret "/" | ast.FloorDiv => Ret "//" | ast.Mod => Ret "%"
  | ast.Pow => Ret "**" | ast.LShift => Ret "<<" | ast.RShift => Ret ">>"
  | ast.BitOr => Ret "|" | ast.BitXor => Ret "^" | ast.BitAnd => Ret "&"
  | ast.MatMult => Raise KeyError
  end.

Definition cmpop_src (op : ast.cmpop) : string :=
  match op with
  | ast.Eq => "==" | ast.NotEq => "!="
  | ast.Lt => "<" | ast.LtE => "<="
  | ast.Gt => ">" | ast.GtE => ">="
  | ast.Is => "is" | ast.IsNot => "is not"
  | ast.In => "in" | ast.NotIn => "not in"
  end.

Definition singleton_src (c : ast.singleton) : string :=
  match c with
  | ast.PyNone => "None"
  | ast.PyTrue => "True"
  | ast.PyFalse => "False"
  end.

(** [s[:-2]] *)
Definition drop_last2 (s : string) : string :=
  String.substring 0 (String.length s - 2) s.

Fixpoint zip_pairs {A B} (l : list A) (l' : list B) : list (A * B) :=
  match l, l' with
  | x :: r, y :: r' => (x, y) :: zip_pairs r r'
  | _, _ => []
  end.

Fixpoint ast_to_src (ast_node : ast.node) : result string :=
  match ast_node with
  | ast.Num n => Ret (str_int n)
  | ast.UnaryOp op operand =>
      let+ s := ast_to_src operand in
      Ret (unaryop_src op +:+ s)
  | ast.BinOp node_left op node_right =>
      let+ lhs := ast_to_src node_left in
      let+ rhs := ast_to_src node_right in
      let+ op := operator_src op in
      Ret ("(" +:+ lhs +:+ " " +:+ op +:+ " " +:+ rhs +:+ ")")
  | ast.Name id => Ret id
  | ast.Attribute value attr =>
      let+ v := ast_to_src value in
      Ret (v +:+ "." +:+ attr)
  | ast.Str s => quote_str s
  | ast.Call func args keywords =>
      let+ args_list := mapR ast_to_src args in
      let+ kwargs_list :=
        mapR (fun kw => let '(arg, value) := kw in
                        let+ v := ast_to_src value in
                        Ret (String.concat "=" [arg; v])) keywords in
      let+ f := ast_to_src func in
      Ret (f +:+ "(" +:+ String.concat ", " (args_list ++ kwargs_list) +:+ ")")
  | ast.List elts =>
      let+ l := mapR ast_to_src elts in
      Ret ("[" +:+ String.concat ", " l +:+ "]")
  | ast.Tuple elts =>
      match elts with
      | [e] => let+ s := ast_to_src e in Ret ("(" +:+ s +:+ ",)")
      | _ =>
          let+ l := mapR ast_to_src elts in
          Ret ("(" +:+ String.concat ", " l +:+ ")")
      end
  | ast.Dict keys values =>
      let+ keys := mapR ast_to_src keys in
      let+ values := mapR ast_to_src values in
      if negb (length keys =? length values)%nat then Raise AssertionError
      else if (length keys =? 0)%nat then Ret "{}"
      else
        let s := fold_left (fun s kv => s +:+ fst kv +:+ ": " +:+ snd kv +:+ ", ")
                           (zip_pairs keys values) "{ " in
        Ret (drop_last2 s +:+ " }")
  | ast.IfExp test body orelse =>
      let+ b := ast_to_src body in
      let+ t := ast_to_src test in
      let+ o := ast_to_src orelse in
      Ret (b +:+ " if " +:+ t +:+ " else " +:+ o)
  | ast.BoolOp op values =>
      let+ l := mapR ast_to_src values in
      match op with
      | ast.And => Ret ("(" +:+ String.concat " and " l +:+ ")")
      | ast.Or => Ret ("(" +:+ String.concat " or " l +:+ ")")
      end
  | ast.Compare node_left ops comparators =>
      let+ s := ast_to_src node_left in
      let+ s :=
        (fix go (pairs : list ast.cmpop) (rights : list ast.node) (s : string)
           {struct rights} : result string :=
           match pairs, rights with
           | ast_op :: pairs', ast_right :: rights' =>
               let+ r := ast_to_src ast_right in
               go pairs' rights' (s +:+ " " +:+ cmpop_src ast_op +:+ " " +:+ r)
           | _, _ => Ret s
           end) ops comparators s in
      Ret ("(" +:+ s +:+ ")")
  | ast.NameConstant value => Ret (singleton_src value)
  | ast.Load => Raise RuntimeError
  end.

(** ** The configuration tree and the cache *)

Inductive child :=
| ChildSection (s : sec_id)
| ChildOption (o : opt_id).

(** A Section object.  [children] holds the entries [_acp_add_child] puts
    into [__dict__]; the four bookkeeping entries are fields of their own. *)
Module Sec.
Record t := {
  _acp_name : string;
  _acp_parent : option sec_id;
  _acp_order : list string;
  _acp_nesting_level : Z;
  children : gmap string child;
}.
End Sec.

Module Opt.
Record t := {
  _acp_name : string;
  _acp_parent : option sec_id;
  _acp_has_refs : bool;
  _acp_nesting_level : Z;
  _acp_ast_node : option ast.node;
}.
End Opt.

Record heap := {
  sections : gmap sec_id Sec.t;
  options : gmap opt_id Opt.t;
}.

(** [LazyEval.cache]: one dictionary for all Options, keyed by instance. *)
Abbreviation cache := (gmap opt_id value).

(** ** Computations: a result or an exception, over the cache *)

Inductive outcome (A : Type) :=
| Done (r : result A)
| OutOfFuel
| Dangling.
Arguments Done {A} r.
Arguments OutOfFuel {A}.
Arguments Dangling {A}.

Definition M (A : Type) : Type := cache -> outcome A * cache.

Definition ret {A} (a : A) : M A := fun c => (Done (Ret a), c).
Definition raise {A} (e : exn) : M A := fun c => (Done (Raise e), c).
Definition out_of_fuel {A} : M A := fun c => (OutOfFuel, c).
Definition dangling {A} : M A := fun c => (Dangling, c).
Definition lift {A} (r : result A) : M A := fun c => (Done r, c).

Definition bind {A B} (m : M A) (k : A -> M B) : M B := fun c =>
  match m c with
  | (Done (Ret a), c') => k a c'
  | (Done (Raise e), c') => (Done (Raise e), c')
  | (OutOfFuel, c') => (OutOfFuel, c')
  | (Dangling, c') => (Dangling, c')
  end.

Notation "'let*' x := m 'in' k" := (bind m (fun x => k))
  (at level 10, x pattern, m at level 100, k at level 200).

(** [try: m  except (E1, E2): handler] *)
Definition try_except {A} (m : M A) (catches : exn -> bool) (handler : M A)
  : M A := fun c =>
  match m c with
  | (Done (Raise e), c') =>
      if catches e then handler c' else (Done (Raise e), c')
  | r => r
  end.

(** [a, b = x]: [None] cannot be unpacked. *)
Definition unpack {A} (x : option A) : M A :=
  match x with
  | Some p => ret p
  | None => raise TypeError
  end.

(** ** The host language *)

Class Host := {
  (** [operator.add], [operator.sub], ... of the [ops] table *)
  host_binop : ast.operator -> value -> value -> result value;
  (** the functions of [astOp2FuncOp], with the truth value of what they
      return *)
  host_compare : ast.cmpop -> value -> value -> result bool;
  (** [builtins.__dict__[name]], absent when the name is no built-in *)
  host_builtin :
    string -> option (list value -> list (string * value) -> result value);
  (** [getattr(v, attr)] for a value that is not a Section *)
  host_getattr : value -> string -> result value;
  (** what a Section finds on its class when [attr] is not in its
      [__dict__] (methods, [__class__], ...) *)
  host_class_attr : string -> option value;
  (** calling a host object [f] with positional and keyword arguments *)
  host_call : value -> list value -> list (string * value) -> result value;
  (** [format(v, '')], the text [str.format] puts in place of a field, for
      a value that is neither a string nor a Section *)
  host_format : value -> result string;
}.

(** [s.split(sep)] for a one-character separator *)
Fixpoint str_split (sep : Ascii.ascii) (s : string) : list string :=
  match s with
  | EmptyString => [EmptyString]
  | String c rest =>
      if Ascii.eqb c sep then EmptyString :: str_split sep rest
      else match str_split sep rest with
           | [] => [String c EmptyString]
           | w :: ws => String c w :: ws
           end
  end.

(** [kwargs[name] = v] *)
Fixpoint kwargs_setitem (kwargs : list (string * value)) (name : string)
  (v : value) : list (string * value) :=
  match kwargs with
  | [] => [(name, v)]
  | (name', v') :: r =>
      if String.eqb name' name then (name', v) :: r
      else (name', v') :: kwargs_setitem r name v
  end.

Definition whitelist : list string :=
  ["abs"; "all"; "any"; "bin"; "bool"; "chr";
   "complex"; "dict"; "divmod"; "enumerate";
   "float"; "hex"; "int"; "len"; "list"; "max";
   "min"; "oct"; "ord"; "pow"; "range"; "reversed";
   "round"; "set"; "sorted"; "str"; "sum"; "tuple";
   "type"; "unichr"; "zip"].

Definition in_whitelist (name : string) : bool :=
  existsb (String.eqb name) whitelist.

(** membership in the [ops] table of the [BinOp] branch *)
Definition in_ops (op : ast.operator) : bool :=
  match op with
  | ast.MatMult => false
  | _ => true
  end.

(** The attributes of a Section that are data descriptors of its class
    ([object.__class__] and the [__dict__] and [__weakref__] slots of the
    class itself): attribute access serves them from the class, whatever the
    instance's [__dict__] holds under these names. *)
Definition data_descriptor (attr : string) : bool :=
  existsb (String.eqb attr) ["__class__"; "__dict__"; "__weakref__"].

Definition key_or_attribute_error (e : exn) : bool :=
  match e with
  | KeyError | AttributeError => true
  | _ => false
  end.

(** ** [LazyEval]: the evaluator, reference resolution and the descriptor *)

Module LazyEval.
Section Evaluator.
Context `{Host} (h : heap).

(** One level of [_acp_eval], [_acp_resolve_reference] and [__get__]:
    [_acp_eval_rec] stands for the recursive calls of [_acp_eval], and
    [walk] bounds the parent walk of the resolver. *)
Section Body.
Variable _acp_eval_rec :
  option sec_id -> ast.node -> M (option (value * bool)).
Variable walk : nat.

(** [val, has_refs = self._acp_eval(parent, node)] *)
Definition eval_unpack (parent : option sec_id) (node : ast.node)
  : M (value * bool) :=
  let* tmp := _acp_eval_rec parent node in unpack tmp.

Definition get_body (instance : opt_id) : M value := fun c =>
  (* see if we already cached the result from a previous evaluation *)
  match c !! instance with
  | Some v => (Done (Ret v), c)
  | None =>
      match options h !! instance with
      | None => (Dangling, c)
      | Some o =>
          (* dynamically evaluate the ast-nodes *)
          (let* (val, has_refs) :=
             match Opt._acp_ast_node o with
             | Some node => eval_unpack (Opt._acp_parent o) node
             | None => raise RuntimeError
             end in
           (* if the ast-nodes have no external references cache the
              result *)
           if negb has_refs
           then fun c' => (Done (Ret val), <[instance := val]> c')
           else ret val) c
      end
  end.

(** [super(Section, self).__getattribute__(attr)], the generic lookup of
    [object]: a data descriptor of the class wins over the instance's
    [__dict__]; then come the entries of [__dict__] (the children and the
    four bookkeeping attributes), then whatever else the class has (the
    methods, which an entry of [__dict__] therefore shadows). *)
Definition object_getattribute (sec : Sec.t) (attr : string)
  : result (child + value) :=
  let on_class := match host_class_attr attr with
                  | Some v => Ret (inr v)
                  | None => Raise AttributeError
                  end in
  if data_descriptor attr then on_class
  else
    match Sec.children sec !! attr with
    | Some ch => Ret (inl ch)
    | None =>
        if String.eqb attr "_acp_name" then
          Ret (inr (VStr (Sec._acp_name sec)))
        else if String.eqb attr "_acp_parent" then
          Ret (inr (match Sec._acp_parent sec with
                    | Some p => VSection p
                    | None => VNone
                    end))
        else if String.eqb attr "_acp_order" then
          Ret (inr (VList (map VStr (Sec._acp_order sec))))
        else if String.eqb attr "_acp_nesting_level" then
          Ret (inr (VInt (Sec._acp_nesting_level sec)))
        else on_class
    end.

(** [Section.__getattribute__(self, attr)] with [raw=False]: an Option is
    replaced by its [_acp_value], which runs [LazyEval.__get__] *)
Definition Section_getattribute (self : sec_id) (attr : string) : M value :=
  match sections h !! self with
  | None => dangling
  | Some sec =>
      match object_getattribute sec attr with
      | Ret (inl (ChildOption o)) => get_body o
      | Ret (inl (ChildSection s)) => ret (VSection s)
      | Ret (inr v) => ret v
      | Raise e => raise e
      end
  end.

Definition getattr (obj : value) (attr : string) : M value :=
  match obj with
  | VSection s => Section_getattribute s attr
  | _ => lift (host_getattr obj attr)
  end.

(** [for attr in attrs: obj = getattr(obj, attr)] *)
Fixpoint getattr_path (obj : value) (attrs : list string) : M value :=
  match attrs with
  | [] => ret obj
  | attr :: rest => let* obj' := getattr obj attr in getattr_path obj' rest
  end.

(** the [while parent is not None] loop of [_acp_resolve_reference] *)
Fixpoint resolve_loop (n : nat) (attrs : list string)
  (parent : option sec_id) : M value :=
  match parent with
  | None => raise AttributeError
  | Some p =>
      match n with
      | O => out_of_fuel
      | S n' =>
          try_except (getattr_path (VSection p) attrs)
            key_or_attribute_error
            (match sections h !! p with
             | None => dangling
             | Some sec => resolve_loop n' attrs (Sec._acp_parent sec)
             end)
      end
  end.

Definition resolve_body (ref : string) (parent : option sec_id) : M value :=
  let attrs := str_split "." ref in
  resolve_loop walk attrs parent.

(** the [while isinstance(node, ast.Attribute)] loop and [node.id] *)
Fixpoint dotted_ref (node : ast.node) (ref : string) : result string :=
  match node with
  | ast.Attribute value attr => dotted_ref value ("." +:+ attr +:+ ref)
  | ast.Name id => Ret (id +:+ ref)
  | _ => Raise AttributeError
  end.

(** [for child_node in ast.iter_child_nodes(node)] *)
Fixpoint eval_children (parent : option sec_id) (children : list ast.node)
  (vals : list value) (has_refs : bool) : M (list value * bool) :=
  match children with
  | [] => ret (vals, has_refs)
  | child_node :: rest =>
      let* tmp := _acp_eval_rec parent child_node in
      match tmp with
      | None => eval_children parent rest vals has_refs
      | Some (v, r) => eval_children parent rest (vals ++ [v]) r
      end
  end.

(** [for arg_node in node.args] *)
Fixpoint eval_args (parent : option sec_id) (arg_nodes : list ast.node)
  (args : list value) (has_refs : bool) : M (list value * bool) :=
  match arg_nodes with
  | [] => ret (args, has_refs)
  | arg_node :: rest =>
      let* (arg, temp_has_refs) := eval_unpack parent arg_node in
      eval_args parent rest (args ++ [arg]) (has_refs || temp_has_refs)
  end.

(** [for keyword_node in node.keywords] *)
Fixpoint eval_keywords (parent : option sec_id)
  (keywords : list (string * ast.node)) (kwargs : list (string * value))
  (has_refs : bool) : M (list (string * value) * bool) :=
  match keywords with
  | [] => ret (kwargs, has_refs)
  | (arg, value_node) :: rest =>
      let* (v, temp_has_refs) := eval_unpack parent value_node in
      eval_keywords parent rest (kwargs_setitem kwargs arg v)
        (has_refs || temp_has_refs)
  end.

(** [for ast_op, ast_right in zip(node.ops, node.comparators)] *)
Fixpoint compare_loop (parent : option sec_id) (ops : list ast.cmpop)
  (comparators : list ast.node) (lhs : value) (has_refs : bool)
  : M (option (value * bool)) :=
  match ops, comparators with
  | ast_op :: ops', ast_right :: comparators' =>
      let* (rhs, right_has_refs) := eval_unpack parent ast_right in
      let has_refs := has_refs || right_has_refs in
      let* holds := lift (host_compare ast_op lhs rhs) in
      if holds then compare_loop parent ops' comparators' rhs has_refs
      else ret (Some (VBool false, has_refs))
  | _, _ => ret (Some (VBool true, has_refs))
  end.

(** [for value in node.values] under [ast.And] *)
Fixpoint and_loop (parent : option sec_id) (values : list ast.node)
  (has_refs : bool) : M (option (value * bool)) :=
  match values with
  | [] => ret (Some (VBool true, has_refs))
  | value :: rest =>
      let* (v, value_has_refs) := eval_unpack parent value in
      let has_refs := has_refs || value_has_refs in
      if negb (truthy v) then ret (Some (VBool false, has_refs))
      else and_loop parent rest has_refs
  end.

(** [for value in node.values] under [ast.Or] *)
Fixpoint or_loop (parent : option sec_id) (values : list ast.node)
  (has_refs : bool) : M (option (value * bool)) :=
  match values with
  | [] => ret (Some (VBool false, has_refs))
  | value :: rest =>
      let* (v, value_has_refs) := eval_unpack parent value in
      let has_refs := has_refs || value_has_refs in
      if truthy v then ret (Some (VBool true, has_refs))
      else or_loop parent rest has_refs
  end.

(** the branches of [_acp_eval] after [ast.literal_eval] has failed *)
Definition eval_branches (parent : option sec_id) (node : ast.node)
  : M (option (value * bool)) :=
  match node with
  (* handle external references *)
  | ast.Name _ | ast.Attribute _ _ =>
      let* ref := lift (dotted_ref node "") in
      let* v := resolve_body ref parent in
      ret (Some (v, true))
  (* handle lists, tuples and dicts *)
  | ast.List _ | ast.Tuple _ | ast.Dict _ _ =>
      let* (vals, has_refs) :=
        eval_children parent (ast.iter_child_nodes node) [] false in
      match node with
      | ast.List _ => ret (Some (VList vals, has_refs))
      | ast.Tuple _ => ret (Some (VTuple vals, has_refs))
      | _ => ret (Some (VList vals, has_refs))
      end
  (* handle the math operators *)
  | ast.BinOp node_left op node_right =>
      let* (lhs, lhs_has_refs) := eval_unpack parent node_left in
      let* (rhs, rhs_has_refs) := eval_unpack parent node_right in
      if in_ops op then
        let* v := lift (host_binop op lhs rhs) in
        ret (Some (v, lhs_has_refs || rhs_has_refs))
      else raise SyntaxError
  (* handle calls to some selected builtin functions *)
  | ast.Call func args keywords =>
      let* id := lift (match func with
                       | ast.Name id => Ret id
                       | _ => Raise AttributeError
                       end) in
      if in_whitelist id then
        let* (args, has_refs) := eval_args parent args [] false in
        let* (kwargs, has_refs) :=
          eval_keywords parent keywords [] has_refs in
        match host_builtin id with
        | None => raise KeyError
        | Some f =>
            let* v := lift (f args kwargs) in
            ret (Some (v, has_refs))
        end
      else ret None
  (* handle ternary if operator *)
  | ast.IfExp test body orelse =>
      let* (test, test_has_refs) := eval_unpack parent test in
      let* (result, has_refs) :=
        if truthy test then eval_unpack parent body
        else eval_unpack parent orelse in
      ret (Some (result, has_refs || test_has_refs))
  (* handle compares *)
  | ast.Compare node_left ops comparators =>
      let* (lhs, left_has_refs) := eval_unpack parent node_left in
      compare_loop parent ops comparators lhs left_has_refs
  (* handle boolean operators *)
  | ast.BoolOp ast.And values => and_loop parent values false
  | ast.BoolOp ast.Or values => or_loop parent values false
  (* not sure what this is about... *)
  | ast.Load => ret None
  | _ => raise RuntimeError
  end.

Definition eval_body (parent : option sec_id) (node : ast.node)
  : M (option (value * bool)) :=
  (* first try simple conversion of literals *)
  match ast.literal_eval node with
  | Ret v => ret (Some (v, false))
  | Raise SyntaxError | Raise ValueError => eval_branches parent node
  | Raise e => raise e
  end.

End Body.

Fixpoint _acp_eval (fuel : nat) (parent : option sec_id) (node : ast.node)
  : M (option (value * bool)) :=
  match fuel with
  | O => out_of_fuel
  | S fuel' => eval_body (_acp_eval fuel') fuel' parent node
  end.

Definition _acp_resolve_reference (fuel : nat) (ref : string)
  (parent : option sec_id) : M value :=
  resolve_body (_acp_eval fuel) fuel ref parent.

Definition __get__ (fuel : nat) (instance : opt_id) : M value :=
  get_body (_acp_eval fuel) instance.

End Evaluator.

(** What [__set__] is given: an [ast.AST] instance or any other value. *)
Inductive assigned :=
| AstNode (node : ast.node)
| Static (v : value).

Definition set_ast_node (node : ast.node) (o : Opt.t) : Opt.t :=
  {| Opt._acp_name := Opt._acp_name o;
     Opt._acp_parent := Opt._acp_parent o;
     Opt._acp_has_refs := Opt._acp_has_refs o;
     Opt._acp_nesting_level := Opt._acp_nesting_level o;
     Opt._acp_ast_node := Some node |}.

Definition __set__ (h : heap) (c : cache) (instance : opt_id) (v : assigned)
  : heap * cache :=
  match v with
  (* if value is a ast-node invalidate the cache *)
  | AstNode node =>
      ({| sections := sections h;
          options := alter (set_ast_node node) instance (options h) |},
       delete instance c)
  (* else it is a static value which can be put directly into the cache *)
  | Static v => (h, <[instance := v]> c)
  end.

End LazyEval.

(** [Option._acp_get_raw_value] *)
Definition _acp_get_raw_value (self : Opt.t) : result string :=
  match Opt._acp_ast_node self with
  | Some node => ast_to_src node
  | None => Raise RuntimeError
  end.

(** Calling a value: of the values of the model only an object of the host
    can be callable; a Section, a number, a string, a container or [None]
    is not. *)
Definition call_value `{Host} (f : value) (args : list value)
  (kwargs : list (string * value)) : M value :=
  match f with
  | VObject _ _ => lift (host_call f args kwargs)
  | _ => raise TypeError
  end.

(** [self.name] for a method [name] of the class [Section], as in
    [self.pretty_print(...)]: the attribute is looked up through
    [Section.__getattribute__], and a method is no data descriptor, so a
    child of that name in the instance's [__dict__] is found first and is
    what gets called.  [None]: the lookup reaches the method. *)
Definition Section_method `{Host} (h : heap)
  (ev : option sec_id -> ast.node -> M (option (value * bool)))
  (self : sec_id) (name : string) : M (option value) :=
  match sections h !! self with
  | None => dangling
  | Some sec =>
      match Sec.children sec !! name with
      | Some _ =>
          let* v := LazyEval.Section_getattribute h ev self name in
          ret (Some v)
      | None => ret None
      end
  end.

(** [Section._acp_get_raw_option]:
    [self.__getattribute__(option_name, True)._acp_raw_value].  With
    [raw=True] the lookup hands out the object itself; an Option has the
    property [_acp_raw_value], on anything else it is an ordinary attribute
    lookup. *)
Definition _acp_get_raw_option `{Host} (h : heap) (self : sec_id)
  (option_name : string)
  (ev : option sec_id -> ast.node -> M (option (value * bool))) : M value :=
  let* shadow := Section_method h ev self "__getattribute__" in
  match shadow with
  | Some f =>
      let* obj := call_value f [VStr option_name; VBool true] [] in
      LazyEval.getattr h ev obj "_acp_raw_value"
  | None =>
      match sections h !! self with
      | None => dangling
      | Some sec =>
          match LazyEval.object_getattribute sec option_name with
          | Ret (inl (ChildOption o)) =>
              match options h !! o with
              | Some opt =>
                  lift (let+ src := _acp_get_raw_value opt in Ret (VStr src))
              | None => dangling
              end
          | Ret (inl (ChildSection s)) =>
              LazyEval.getattr h ev (VSection s) "_acp_raw_value"
          | Ret (inr v) => LazyEval.getattr h ev v "_acp_raw_value"
          | Raise e => raise e
          end
      end
  end.

(** ** A small host, enough to run the scenarios below

    Integer arithmetic, concatenation, comparisons of integers and a few
    built-ins.  Everything proved for all hosts holds for it; the scenarios
    only use the operations listed here. *)

Module SmallHost.

Definition binop (op : ast.operator) (a b : value) : result value :=
  match op, a, b with
  | ast.Add, VInt x, VInt y => Ret (VInt (x + y))
  | ast.Sub, VInt x, VInt y => Ret (VInt (x - y))
  | ast.Mult, VInt x, VInt y => Ret (VInt (x * y))
  | ast.FloorDiv, VInt x, VInt y =>
      if (y =? 0)%Z then Raise ZeroDivisionError else Ret (VInt (x `div` y))
  | ast.Mod, VInt x, VInt y =>
      if (y =? 0)%Z then Raise ZeroDivisionError else Ret (VInt (x `mod` y))
  | ast.Add, VStr x, VStr y => Ret (VStr (x +:+ y))
  | ast.Add, VList x, VList y => Ret (VList (x ++ y))
  | ast.Add, VTuple x, VTuple y => Ret (VTuple (x ++ y))
  | _, _, _ => Raise TypeError
  end.

Definition compare (op : ast.cmpop) (a b : value) : result bool :=
  match op, a, b with
  | ast.Eq, _, _ => Ret (key_eqb a b)
  | ast.NotEq, _, _ => Ret (negb (key_eqb a b))
  | ast.Lt, VInt x, VInt y => Ret (x <? y)%Z
  | ast.LtE, VInt x, VInt y => Ret (x <=? y)%Z
  | ast.Gt, VInt x, VInt y => Ret (y <? x)%Z
  | ast.GtE, VInt x, VInt y => Ret (y <=? x)%Z
  | ast.In, _, VList l | ast.In, _, VTuple l => Ret (existsb (key_eqb a) l)
  | ast.NotIn, _, VList l | ast.NotIn, _, VTuple l =>
      Ret (negb (existsb (key_eqb a) l))
  | _, _, _ => Raise TypeError
  end.

(** [chr(x)]: strings hold the code points below 256; a character above
    them is an object of the host, known by its [repr] only *)
Definition chr (x : Z) : result value :=
  if ((x <? -2147483648) || (2147483647 <? x))%Z then
    Raise (OtherError "OverflowError")
  else if ((x <? 0) || (1114111 <? x))%Z then Raise ValueError
  else if (x <? 256)%Z then
    Ret (VStr (String (Ascii.ascii_of_nat (Z.to_nat x)) EmptyString))
  else Ret (VObject ("chr(" +:+ str_int x +:+ ")") true).

Definition builtin (name : string)
  : option (list value -> list (string * value) -> result value) :=
  if String.eqb name "abs" then
    Some (fun args kwargs =>
            match args, kwargs with
            | [VInt x], [] => Ret (VInt (Z.abs x))
            | [VBool b], [] => Ret (VInt (Z.b2z b))
            | _, _ => Raise TypeError
            end)
  else if String.eqb name "chr" then
    Some (fun args kwargs =>
            match args, kwargs with
            | [VInt x], [] => chr x
            | [VBool b], [] => chr (Z.b2z b)
            | _, _ => Raise TypeError
            end)
  else if String.eqb name "bool" then
    Some (fun args kwargs =>
            match args, kwargs with
            | [], [] => Ret (VBool false)
            | [v], [] => Ret (VBool (truthy v))
            | _, _ => Raise TypeError
            end)
  else if String.eqb name "len" then
    Some (fun args kwargs =>
            match args, kwargs with
            | [VList l], [] | [VTuple l], [] => Ret (VInt (Z.of_nat (length l)))
            | [VStr s], [] => Ret (VInt (Z.of_nat (String.length s)))
            | _, _ => Raise TypeError
            end)
  else None.

Definition getattr (v : value) (attr : string) : result value :=
  match v with
  | VInt n =>
      if String.eqb attr "real" then Ret (VInt n)
      else if String.eqb attr "imag" then Ret (VInt 0)
      else Raise AttributeError
  | _ => Raise AttributeError
  end.

(** the class of a Section, its weak-reference slot and its module; the
    bound methods and [__dict__] are not among the objects of this host *)
Definition class_attr (attr : string) : option value :=
  if String.eqb attr "__class__" then
    Some (VObject "<class 'AdvancedConfigParser.Section'>" true)
  else if String.eqb attr "__weakref__" then Some VNone
  else if String.eqb attr "__module__" then Some (VStr "AdvancedConfigParser")
  else None.

(** The objects of this host are the class [Section] and characters.  The
    class takes no argument; called without one it makes a new Section,
    which belongs to no tree and is known by its [repr] here.  A character
    cannot be called. *)
Definition call (f : value) (args : list value)
  (kwargs : list (string * value)) : result value :=
  match f, args, kwargs with
  | VObject repr _, [], [] =>
      if String.eqb repr "<class 'AdvancedConfigParser.Section'>" then
        Ret (VObject ("<Section " +:+ String double_quote
                        (String double_quote ">")) true)
      else Raise TypeError
  | _, _, _ => Raise TypeError
  end.

Definition format (v : value) : result string :=
  match v with
  | VNone => Ret "None"
  | VBool true => Ret "True"
  | VBool false => Ret "False"
  | VInt n => Ret (str_int n)
  | VStr s => Ret s
  | VObject repr _ => Ret repr
  | _ => Raise (OtherError "NotImplementedError")
  end.

#[export] Instance host : Host := {|
  host_binop := binop;
  host_compare := compare;
  host_builtin := builtin;
  host_getattr := getattr;
  host_class_attr := class_attr;
  host_call := call;
  host_format := format;
|}.

End SmallHost.

(** Building the objects the parser would build. *)
Definition new_section (name : string) (parent : option sec_id) (level : Z)
  (order : list string) (children : list (string * child)) : Sec.t :=
  {| Sec._acp_name := name;
     Sec._acp_parent := parent;
     Sec._acp_order := order;
     Sec._acp_nesting_level := level;
     Sec.children := list_to_map children |}.

Definition new_option (name : string) (parent : sec_id) (level : Z)
  (node : ast.node) : Opt.t :=
  {| Opt._acp_name := name;
     Opt._acp_parent := Some parent;
     Opt._acp_has_refs := true;
     Opt._acp_nesting_level := level;
     Opt._acp_ast_node := Some node |}.

(** A configuration for the scenarios:
<<
    pi = 3
    [S]
    x = 1
    [In]
    y = S.x
    tau = 2 * pi
    foo = [pi, 1]
    d = {1: pi}
    lazy = 1 if True else nowhere
    bad = eval('1')
    [[S]]
>>
    Sections: 0 is the root, 1 is [S], 2 is [In], 3 is [In.S].
    Options: 0 [pi], 1 [S.x], 2 [In.y], 3 [In.tau], 4 [In.foo], 5 [In.d],
    6 [In.lazy], 7 [In.bad]. *)
Definition demo : heap := {|
  sections := list_to_map [
    (0, new_section "<global>" None 0 ["pi"; "S"; "In"]
          [("pi", ChildOption 0); ("S", ChildSection 1);
           ("In", ChildSection 2)]);
    (1, new_section "S" (Some 0) 1 ["x"] [("x", ChildOption 1)]);
    (2, new_section "In" (Some 0) 1
          ["y"; "tau"; "foo"; "d"; "lazy"; "bad"; "S"]
          [("y", ChildOption 2); ("tau", ChildOption 3);
           ("foo", ChildOption 4); ("d", ChildOption 5);
           ("lazy", ChildOption 6); ("bad", ChildOption 7);
           ("S", ChildSection 3)]);
    (3, new_section "S" (Some 2) 2 [] [])];
  options := list_to_map [
    (0, new_option "pi" 0 1 (ast.Num 3));
    (1, new_option "x" 1 2 (ast.Num 1));
    (2, new_option "y" 2 2 (ast.Attribute (ast.Name "S") "x"));
    (3, new_option "tau" 2 2 (ast.BinOp (ast.Num 2) ast.Mult (ast.Name "pi")));
    (4, new_option "foo" 2 2 (ast.List [ast.Name "pi"; ast.Num 1]));
    (5, new_option "d" 2 2 (ast.Dict [ast.Num 1] [ast.Name "pi"]));
    (6, new_option "lazy" 2 2
          (ast.IfExp (ast.NameConstant ast.PyTrue) (ast.Num 1)
                     (ast.Name "nowhere")));
    (7, new_option "bad" 2 2 (ast.Call (ast.Name "eval") [ast.Str "1"] []))]
|}.

(** the expression contains a [Reference]: a [Name] or [Attribute] node in
    a value position (the callee of a [Call] is a function name, not a
    reference) *)
Fixpoint has_reference (n : ast.node) : bool :=
  match n with
  | ast.Name _ | ast.Attribute _ _ => true
  | ast.UnaryOp _ operand => has_reference operand
  | ast.BinOp l _ r => has_reference l || has_reference r
  | ast.BoolOp _ values => existsb has_reference values
  | ast.Compare l _ comparators =>
      has_reference l || existsb has_reference comparators
  | ast.IfExp t b o => has_reference t || has_reference b || has_reference o
  | ast.List elts | ast.Tuple elts => existsb has_reference elts
  | ast.Dict keys values =>
      existsb has_reference keys || existsb has_reference values
  | ast.Call _ args keywords =>
      existsb has_reference args
      || existsb (fun kw => let '(_, v) := kw in has_reference v) keywords
  | _ => false
  end.

(** Running the evaluator over a sequence of nodes, in order, the cache
    threaded through: what a loop over sub-expressions does when no
    iteration raises. *)
Fixpoint eval_seq (ev : ast.node -> M (option (value * bool)))
  (nodes : list ast.node) : M (list (option (value * bool))) :=
  match nodes with
  | [] => ret []
  | n :: rest =>
      let* r := ev n in
      let* rs := eval_seq ev rest in
      ret (r :: rs)
  end.

(** the values a container collects: the results that are not [None] *)
Definition collected (rs : list (option (value * bool))) : list value :=
  omap (fun r => fst <$> r) rs.

(** the flag of the last result that is not [None], [init] when all are *)
Definition last_flag (rs : list (option (value * bool))) (init : bool) : bool :=
  fold_left (fun acc r => match r with
                          | Some (_, f) => f
                          | None => acc
                          end) rs init.

(** the OR of all flags *)
Definition any_flag (vfs : list (value * bool)) : bool := existsb snd vfs.

Definition all_truthy (vfs : list (value * bool)) : bool :=
  forallb (fun vf => truthy (fst vf)) vfs.

Definition none_truthy (vfs : list (value * bool)) : bool :=
  forallb (fun vf => negb (truthy (fst vf))) vfs.

(** ** Vocabulary of the properties *)

(** [q] occurs in [s] at a position that no backslash precedes: what the
    look-behind pattern [(?<!\\)q] finds. *)
Definition occurs_unescaped (q : Ascii.ascii) (s : string) : Prop :=
  ∃ i, String.get i s = Some q ∧
       match i with
       | O => True
       | S j => String.get j s ≠ Some backslash
       end.

Definition occurs (c : Ascii.ascii) (s : string) : Prop :=
  ∃ i, String.get i s = Some c.

(** the delimiter [quote_str] puts around [s] once the quote character is
    chosen *)
Definition delimiter (q : Ascii.ascii) (s : string) : string :=
  if str_contains newline s then String q (String q (String q EmptyString))
  else String q EmptyString.

(** a string with an apostrophe at index 1 and a double quote at index 3 *)
Definition both_quotes : string :=
  String "a" (String apostrophe (String "b" (String double_quote "c"))).

Definition is_reference (node : ast.node) : bool :=
  match node with
  | ast.Name _ | ast.Attribute _ _ => true
  | _ => false
  end.

Definition is_container (node : ast.node) : bool :=
  match node with
  | ast.List _ | ast.Tuple _ | ast.Dict _ _ => true
  | _ => false
  end.

(** what the container branch returns for the collected values *)
Definition container_value (node : ast.node) (vals : list value) : value :=
  match node with
  | ast.Tuple _ => VTuple vals
  | _ => VList vals
  end.


(** [misses h ev attrs k parent c q c']: starting at scope [parent] with
    cache [c], the complete path [attrs] fails with a [KeyError] or an
    [AttributeError] in each of [k] successive scopes, innermost first,
    which leaves the walk at scope [q] (the parent of the last one tried)
    with cache [c']. *)
Inductive misses `{Host} (h : heap)
  (ev : option sec_id → ast.node → M (option (value * bool)))
  (attrs : list string)
  : nat → option sec_id → cache → option sec_id → cache → Prop :=
| misses_done q c : misses h ev attrs 0 q c q c
| misses_step k p sec e c c1 q c2 :
    sections h !! p = Some sec →
    LazyEval.getattr_path h ev (VSection p) attrs c = (Done (Raise e), c1) →
    key_or_attribute_error e = true →
    misses h ev attrs k (Sec._acp_parent sec) c1 q c2 →
    misses h ev attrs (S k) (Some p) c q c2.

(** an evaluator that, on expressions without a reference, leaves the
    cache alone and reports no external reference *)
Definition pure_ev
  (ev : option sec_id → ast.node → M (option (value * bool))) : Prop :=
  ∀ parent node c r c',
    has_reference node = false →
    ev parent node c = (Done (Ret r), c') →
    c' = c ∧ ∀ v f, r = Some (v, f) → f = false.

(** ** The Reference nodes an evaluation evaluates *)

(** [after m k c]: [k] on what [m] returns from the cache [c], at the
    cache [m] leaves; false when [m] does not return *)
Definition after {A} (m : M A) (k : A → cache → bool) (c : cache) : bool :=
  match m c with
  | (Done (Ret a), c') => k a c'
  | _ => false
  end.

(** Whether the evaluation of a node, started at a given cache, evaluates a
    Reference node: the walk of [_acp_eval] over the sub-expressions it
    really evaluates (the selected branch of a conditional, the operands up
    to a short-circuit), without the flags.  [ev] gives the values and
    caches on the way, [refs_rec] is the answer for the sub-expressions.
    With [displays = false] the References inside a list, tuple or dict
    display are not counted. *)
Section ReferencesEvaluated.
Context `{Host}.
Variable displays : bool.
Variable ev : option sec_id → ast.node → M (option (value * bool)).
Variable refs_rec : option sec_id → ast.node → cache → bool.
Variable parent : option sec_id.

(** a sub-expression whose value is needed, and what follows it *)
Definition refs_unpack (node : ast.node) (k : value → cache → bool)
  (c : cache) : bool :=
  refs_rec parent node c
  || after (LazyEval.eval_unpack ev parent node) (λ vf, k vf.1) c.

(** the arguments of a call, one after the other *)
Fixpoint refs_all (nodes : list ast.node) (k : cache → bool) (c : cache)
  : bool :=
  match nodes with
  | [] => k c
  | n :: rest => refs_unpack n (λ _, refs_all rest k) c
  end.

(** the children of a display; a child without a result is passed over *)
Fixpoint refs_children (nodes : list ast.node) (c : cache) : bool :=
  match nodes with
  | [] => false
  | n :: rest =>
      refs_rec parent n c || after (ev parent n) (λ _, refs_children rest) c
  end.

(** the comparators, up to the first comparison that does not hold *)
Fixpoint refs_compare (ops : list ast.cmpop) (comparators : list ast.node)
  (lhs : value) (c : cache) : bool :=
  match ops, comparators with
  | op :: ops', n :: rest =>
      refs_unpack n
        (λ rhs c', match host_compare op lhs rhs with
                   | Ret true => refs_compare ops' rest rhs c'
                   | _ => false
                   end) c
  | _, _ => false
  end.

(** the operands of [and] and [or], up to the one that decides *)
Fixpoint refs_bool (decides : value → bool) (values : list ast.node)
  (c : cache) : bool :=
  match values with
  | [] => false
  | n :: rest =>
      refs_unpack n
        (λ v c', if decides v then false else refs_bool decides rest c') c
  end.

Definition refs_branches (node : ast.node) (c : cache) : bool :=
  match node with
  | ast.Name _ | ast.Attribute _ _ => true
  | ast.List _ | ast.Tuple _ | ast.Dict _ _ =>
      displays && refs_children (ast.iter_child_nodes node) c
  | ast.BinOp node_left _ node_right =>
      refs_unpack node_left (λ _, refs_unpack node_right (λ _ _, false)) c
  | ast.Call (ast.Name id) args keywords =>
      in_whitelist id
      && refs_all args (refs_all (keywords.*2) (λ _, false)) c
  | ast.IfExp test body orelse =>
      refs_unpack test
        (λ tv, refs_rec parent (if truthy tv then body else orelse)) c
  | ast.Compare node_left ops comparators =>
      refs_unpack node_left (refs_compare ops comparators) c
  | ast.BoolOp ast.And values => refs_bool (λ v, negb (truthy v)) values c
  | ast.BoolOp ast.Or values => refs_bool truthy values c
  | _ => false
  end.

Definition refs_body (node : ast.node) (c : cache) : bool :=
  match ast.literal_eval node with
  | Raise SyntaxError | Raise ValueError => refs_branches node c
  | _ => false
  end.

End ReferencesEvaluated.

Fixpoint evaluates_reference `{Host} (h : heap) (displays : bool) (fuel : nat)
  (parent : option sec_id) (node : ast.node) (c : cache) : bool :=
  match fuel with
  | O => false
  | S fuel' =>
      refs_body displays (LazyEval._acp_eval h fuel')
        (evaluates_reference h displays fuel') parent node c
  end.

(** the flag an evaluator reports lies between the two counts: it is set
    when a Reference outside the displays is evaluated, and only when some
    Reference is evaluated *)
Definition flags_references
  (ev : option sec_id → ast.node → M (option (value * bool)))
  (outside anywhere : option sec_id → ast.node → cache → bool) : Prop :=
  ∀ parent node c v f c',
    ev parent node c = (Done (Ret (Some (v, f))), c') →
    (outside parent node c = true → f = true)
    ∧ (f = true → anywhere parent node c = true).

(** a count that finds nothing in an expression without a Reference node *)
Definition reference_free
  (rr : option sec_id → ast.node → cache → bool) : Prop :=
  ∀ parent node c, has_reference node = false → rr parent node c = false.

(** ** [Section]: building the tree *)

(** the keys [Section.__init__] puts into [__dict__] *)
Definition bookkeeping : list string :=
  ["_acp_name"; "_acp_parent"; "_acp_order"; "_acp_nesting_level"].

(** [name in self.__dict__] *)
Definition in_dict (sec : Sec.t) (name : string) : bool :=
  existsb (String.eqb name) bookkeeping
  || match Sec.children sec !! name with
     | Some _ => true
     | None => false
     end.

(** [child._acp_nesting_level = level] and
    [if child._acp_parent is None: child._acp_parent = self] *)
Definition sec_relabel (level : Z) (self : sec_id) (s : Sec.t) : Sec.t :=
  {| Sec._acp_name := Sec._acp_name s;
     Sec._acp_parent := match Sec._acp_parent s with
                        | None => Some self
                        | Some p => Some p
                        end;
     Sec._acp_order := Sec._acp_order s;
     Sec._acp_nesting_level := level;
     Sec.children := Sec.children s |}.

Definition opt_relabel (level : Z) (self : sec_id) (o : Opt.t) : Opt.t :=
  {| Opt._acp_name := Opt._acp_name o;
     Opt._acp_parent := match Opt._acp_parent o with
                        | None => Some self
                        | Some p => Some p
                        end;
     Opt._acp_has_refs := Opt._acp_has_refs o;
     Opt._acp_nesting_level := level;
     Opt._acp_ast_node := Opt._acp_ast_node o |}.

Definition relabel_child (h : heap) (self : sec_id) (level : Z) (ch : child)
  : heap :=
  match ch with
  | ChildSection s =>
      {| sections := alter (sec_relabel level self) s (sections h);
         options := options h |}
  | ChildOption o =>
      {| sections := sections h;
         options := alter (opt_relabel level self) o (options h) |}
  end.

(** [child._acp_name] *)
Definition child_name (h : heap) (ch : child) : option string :=
  match ch with
  | ChildSection s => Sec._acp_name <$> sections h !! s
  | ChildOption o => Opt._acp_name <$> options h !! o
  end.

(** [self.__dict__[name] = child] and [self.__dict__["_acp_order"].append] *)
Definition sec_insert_child (name : string) (ch : child) (s : Sec.t) : Sec.t :=
  {| Sec._acp_name := Sec._acp_name s;
     Sec._acp_parent := Sec._acp_parent s;
     Sec._acp_order := Sec._acp_order s ++ [name];
     Sec._acp_nesting_level := Sec._acp_nesting_level s;
     Sec.children := <[name := ch]> (Sec.children s) |}.

(** [Section._acp_add_child].  The child is relabelled before the duplicate
    check, so the heap comes back changed also when [SyntaxError] is raised.
    [None]: [self] or [child] is no object of the heap. *)
Definition _acp_add_child (h : heap) (self : sec_id) (ch : child)
  : option (result unit * heap) :=
  sec ← sections h !! self;
  _ ← child_name h ch;
  let h1 := relabel_child h self (Sec._acp_nesting_level sec + 1) ch in
  name ← child_name h1 ch;
  sec1 ← sections h1 !! self;
  if in_dict sec1 name then Some (Raise SyntaxError, h1)
  else Some (Ret tt,
             {| sections := <[self := sec_insert_child name ch sec1]>
                              (sections h1);
                options := options h1 |}).

(** ** [Section]: printing *)

(** ASCII characters [str.strip] removes (other Unicode white space is not
    modelled) *)
Definition is_space (c : Ascii.ascii) : bool :=
  let n := Ascii.nat_of_ascii c in
  ((9 <=? n) && (n <=? 13) || (28 <=? n) && (n <=? 32))%nat.

Fixpoint str_lstrip (s : string) : string :=
  match s with
  | EmptyString => EmptyString
  | String c rest => if is_space c then str_lstrip rest else s
  end.

Fixpoint str_rstrip (s : string) : string :=
  match s with
  | EmptyString => EmptyString
  | String c rest =>
      match str_rstrip rest with
      | EmptyString => if is_space c then EmptyString else String c EmptyString
      | rest' => String c rest'
      end
  end.

Definition str_strip (s : string) : string := str_rstrip (str_lstrip s).

(** [c * n] for an integer [n]: empty when [n] is not positive *)
Definition str_times (s : string) (n : Z) : string := str_repeat s (Z.to_nat n).

Definition newline_str : string := String newline EmptyString.

Section PrettyPrint.
Context `{Host} (h : heap).

(** [s += r] for a string [s]: [str] concatenates with a string only (a
    host object that adds itself to a string standing on its left is not
    among the objects modelled) *)
Definition str_iadd (s : string) (r : value) : M string :=
  match r with
  | VStr t => ret (s +:+ t)
  | _ => raise TypeError
  end.

(** [Section.__str__] *)
Definition Section_str (sec : Sec.t) : string :=
  "<Section " +:+ String double_quote (Sec._acp_name sec)
  +:+ String double_quote ">".

(** what [str.format] puts in place of a field *)
Definition format_value (v : value) : M string :=
  match v with
  | VStr s => ret s
  | VSection t =>
      match sections h !! t with
      | Some sec => ret (Section_str sec)
      | None => dangling
      end
  | _ => lift (host_format v)
  end.

Section Entries.
Variable ev : option sec_id -> ast.node -> M (option (value * bool)).
Variable pretty_print_rec : sec_id -> Z -> M string.
Variable self : sec_id.
Variable indent : Z.

(** [child.pretty_print(indent)] *)
Definition print_child (t : sec_id) : M value :=
  let* shadow := Section_method h ev t "pretty_print" in
  match shadow with
  | None => let* txt := pretty_print_rec t indent in ret (VStr txt)
  | Some f => call_value f [VInt indent] []
  end.

(** [self._acp_get_raw_option(child_name)] *)
Definition raw_option (child_name : string) : M value :=
  let* shadow := Section_method h ev self "_acp_get_raw_option" in
  match shadow with
  | None => _acp_get_raw_option h self child_name ev
  | Some f => call_value f [VStr child_name] []
  end.

(** [for child_name in self._acp_order], [s] being the text so far *)
Fixpoint pretty_print_entries (order : list string) (s : string) : M string :=
  match order with
  | [] => ret s
  | child_name :: rest =>
      if String.eqb child_name newline_str then
        pretty_print_entries rest (s +:+ newline_str)
      else if String.prefix "#" (str_strip child_name) then
        pretty_print_entries rest
          (s +:+ str_times " " indent +:+ child_name +:+ newline_str)
      else
        let* child := LazyEval.Section_getattribute h ev self child_name in
        match child with
        | VSection t =>
            let* txt := print_child t in
            let* s' := str_iadd s txt in
            pretty_print_entries rest s'
        | _ =>
            let* child_raw := raw_option child_name in
            let* option_raw := format_value child_raw in
            pretty_print_entries rest
              (s +:+ str_times " " indent +:+ child_name +:+ " = "
                 +:+ option_raw +:+ newline_str)
        end
  end.

End Entries.

(** the section header line of [pretty_print] *)
Definition header (sec : Sec.t) (indent : Z) : string :=
  str_times " " indent
  +:+ str_times "[" (Sec._acp_nesting_level sec)
  +:+ Sec._acp_name sec
  +:+ str_times "]" (Sec._acp_nesting_level sec)
  +:+ newline_str.

(** The body of [Section.pretty_print]. *)
Fixpoint pretty_print (fuel : nat) (self : sec_id) (indent : Z)
  (do_indent : bool) : M string :=
  match fuel with
  | O => out_of_fuel
  | S fuel' =>
      match sections h !! self with
      | None => dangling
      | Some sec =>
          let named := negb (String.eqb (Sec._acp_name sec) "<global>") in
          let s := if named then header sec indent else EmptyString in
          let indent := if named && do_indent then (indent + 1)%Z else indent in
          pretty_print_entries (LazyEval._acp_eval h fuel')
            (fun t i => pretty_print fuel' t i true) self indent
            (Sec._acp_order sec) s
      end
  end.

(** The body of [Section.dump]: [return self.pretty_print(do_indent=False)] *)
Definition dump (fuel : nat) (self : sec_id) : M value :=
  let* shadow :=
    Section_method h (LazyEval._acp_eval h fuel) self "pretty_print" in
  match shadow with
  | None => let* txt := pretty_print fuel self 0 false in ret (VStr txt)
  | Some f => call_value f [] [("do_indent", VBool false)]
  end.

(** [self.dump()] and [self.pretty_print()] as a caller writes them: the
    method is looked up on the section like any other attribute *)
Definition call_dump (fuel : nat) (self : sec_id) : M value :=
  let* shadow := Section_method h (LazyEval._acp_eval h fuel) self "dump" in
  match shadow with
  | None => dump fuel self
  | Some f => call_value f [] []
  end.

Definition call_pretty_print (fuel : nat) (self : sec_id) : M value :=
  let* shadow :=
    Section_method h (LazyEval._acp_eval h fuel) self "pretty_print" in
  match shadow with
  | None => let* txt := pretty_print fuel self 0 true in ret (VStr txt)
  | Some f => call_value f [] []
  end.

End PrettyPrint.

(** ** More vocabulary *)

(** a computation that keeps every cache entry it finds *)
Definition keeps_cache {A} (m : M A) : Prop :=
  ∀ c o c', m c = (o, c') → c ⊆ c'.

Definition ev_keeps_cache
  (ev : option sec_id → ast.node → M (option (value * bool))) : Prop :=
  ∀ parent node, keeps_cache (ev parent node).

Definition is_ret {A} (r : result A) : bool :=
  match r with
  | Ret _ => true
  | Raise _ => false
  end.

(** Among the nodes of [ast.node], those [ast_to_src] has text for (a
    node kind that is not in [ast.node] has no branch in [ast_to_src] and
    reaches its final [raise]). *)
Fixpoint renderable (n : ast.node) : bool :=
  match n with
  | ast.Num _ | ast.Name _ | ast.NameConstant _ => true
  | ast.Str s =>
      negb (re_search_unescaped apostrophe false s
            && re_search_unescaped double_quote false s)
  | ast.UnaryOp _ operand => renderable operand
  | ast.BinOp l op r => renderable l && renderable r && in_ops op
  | ast.Attribute v _ => renderable v
  | ast.Call func args keywords =>
      forallb renderable args
      && forallb (fun kw => let '(_, v) := kw in renderable v) keywords
      && renderable func
  | ast.List elts | ast.Tuple elts => forallb renderable elts
  | ast.Dict keys values =>
      forallb renderable keys && forallb renderable values
      && (length keys =? length values)%nat
  | ast.IfExp t b o => renderable b && renderable t && renderable o
  | ast.BoolOp _ values => forallb renderable values
  | ast.Compare l ops comparators =>
      renderable l
      && (fix go (ops : list ast.cmpop) (rights : list ast.node)
            {struct rights} : bool :=
            match ops, rights with
            | _ :: ops', r :: rights' => renderable r && go ops' rights'
            | _, _ => true
            end) ops comparators
  | ast.Load => false
  end.

(** The expressions the interpreter's own limits leave alone: nested less
    than [depth] deep (the recursion limit), with integer literals of at
    most 4300 digits (beyond which [str] of an integer is a [ValueError]
    since Python 3.11). *)
Fixpoint within_limits (depth : nat) (n : ast.node) : bool :=
  match depth with
  | O => false
  | S d =>
      match n with
      | ast.Num z => (Z.abs z <? 10 ^ 4300)%Z
      | ast.Str _ | ast.Name _ | ast.NameConstant _ | ast.Load => true
      | ast.UnaryOp _ operand => within_limits d operand
      | ast.BinOp l _ r => within_limits d l && within_limits d r
      | ast.Attribute v _ => within_limits d v
      | ast.Call func args keywords =>
          within_limits d func && forallb (within_limits d) args
          && forallb (within_limits d) (keywords.*2)
      | ast.List elts | ast.Tuple elts => forallb (within_limits d) elts
      | ast.Dict keys values =>
          forallb (within_limits d) keys && forallb (within_limits d) values
      | ast.IfExp t b o =>
          within_limits d t && within_limits d b && within_limits d o
      | ast.BoolOp _ values => forallb (within_limits d) values
      | ast.Compare l _ comparators =>
          within_limits d l && forallb (within_limits d) comparators
      end
  end.

(** the node of the dotted name [id.a1.a2...] *)
Definition attribute_chain (id : string) (attrs : list string) : ast.node :=
  fold_left ast.Attribute attrs (ast.Name id).

Definition no_dot (s : string) : bool := negb (str_contains "." s).

(** a chained comparison on values: every step holds *)
Fixpoint chain_passes `{Host} (ops : list ast.cmpop) (lhs : value)
  (rights : list value) : bool :=
  match ops, rights with
  | op :: ops', r :: rights' =>
      match host_compare op lhs r with
      | Ret true => chain_passes ops' r rights'
      | _ => false
      end
  | _, _ => true
  end.

(** an entry of [_acp_order] that is neither a blank line nor a comment *)
Definition is_child_entry (name : string) : bool :=
  negb (String.eqb name newline_str)
  && negb (String.prefix "#" (str_strip name)).

Definition is_named (sec : Sec.t) : bool :=
  negb (String.eqb (Sec._acp_name sec) "<global>").

(** the text [pretty_print] starts from and the indentation of its entries *)
Definition start_text (sec : Sec.t) (indent : Z) : string :=
  if is_named sec then header sec indent else EmptyString.

Definition body_indent (sec : Sec.t) (indent : Z) (do_indent : bool) : Z :=
  if is_named sec && do_indent then (indent + 1)%Z else indent.

Definition is_section_value (v : value) : bool :=
  match v with
  | VSection _ => true
  | _ => false
  end.

(** The configuration of the tests [test_empty_line] and [test_comment],
    in one:
<<
    # leading comment
    a = 3

    b = 5
>>
    and a configuration in which an option names a section:
<<
    [A]
    x = 1
    [B]
    alias = A
>> *)
Definition lines_demo : heap := {|
  sections := list_to_map [
    (0, new_section "<global>" None 0
          ["# leading comment"; "a"; newline_str; "b"]
          [("a", ChildOption 0); ("b", ChildOption 1)])];
  options := list_to_map [
    (0, new_option "a" 0 1 (ast.Num 3));
    (1, new_option "b" 0 1 (ast.Num 5))]
|}.

Definition alias_demo : heap := {|
  sections := list_to_map [
    (0, new_section "<global>" None 0 ["A"; "B"]
          [("A", ChildSection 1); ("B", ChildSection 2)]);
    (1, new_section "A" (Some 0) 1 ["x"] [("x", ChildOption 0)]);
    (2, new_section "B" (Some 0) 1 ["alias"] [("alias", ChildOption 1)])];
  options := list_to_map [
    (0, new_option "x" 1 2 (ast.Num 1));
    (1, new_option "alias" 2 2 (ast.Name "A"))]
|}.

(** [demo] with three objects that are in no section yet: a section [T]
    (4), an Option [pi] without a parent (8) and an Option [z] that names
    section [S] as its parent (9). *)
Definition orphans_demo : heap := {|
  sections :=
    <[4 := new_section "T" None 0 [] []]> (sections demo);
  options :=
    <[8 := {| Opt._acp_name := "pi"; Opt._acp_parent := None;
              Opt._acp_has_refs := true; Opt._acp_nesting_level := 0;
              Opt._acp_ast_node := Some (ast.Num 9) |}]>
      (<[9 := new_option "z" 1 0 (ast.Name "x")]> (options demo))
|}.

(** A configuration in which a reference meets an Option that fails:
<<
    x = 1
    [A]
    x = nowhere
    y = x
>> *)
Definition masked_demo : heap := {|
  sections := list_to_map [
    (0, new_section "<global>" None 0 ["x"; "A"]
          [("x", ChildOption 0); ("A", ChildSection 1)]);
    (1, new_section "A" (Some 0) 1 ["x"; "y"]
          [("x", ChildOption 1); ("y", ChildOption 2)])];
  options := list_to_map [
    (0, new_option "x" 0 1 (ast.Num 1));
    (1, new_option "x" 1 2 (ast.Name "nowhere"));
    (2, new_option "y" 1 2 (ast.Name "x"))]
|}.

(** A configuration with names that attribute access treats specially:
<<
    [pretty_print]
    x = 1
    [A]
    __class__ = 1 // 0
    y = __class__
>>
    The root has a sub-section under the name of a method, and section [A]
    an option under the name of a data descriptor of the class. *)
Definition shadow_demo : heap := {|
  sections := list_to_map [
    (0, new_section "<global>" None 0 ["pretty_print"; "A"]
          [("pretty_print", ChildSection 1); ("A", ChildSection 2)]);
    (1, new_section "pretty_print" (Some 0) 1 ["x"] [("x", ChildOption 0)]);
    (2, new_section "A" (Some 0) 1 ["__class__"; "y"]
          [("__class__", ChildOption 1); ("y", ChildOption 2)])];
  options := list_to_map [
    (0, new_option "x" 1 2 (ast.Num 1));
    (1, new_option "__class__" 2 2
          (ast.BinOp (ast.Num 1) ast.FloorDiv (ast.Num 0)));
    (2, new_option "y" 2 2 (ast.Name "__class__"))]
|}.

(** [orphans_demo] with one more object that is in no section yet: a
    section named [__class__] (5) *)
Definition dunder_demo : heap := {|
  sections := <[5 := new_section "__class__" None 0 [] []]>
                (sections orphans_demo);
  options := options orphans_demo
|}.

(** one turn of the loop of [pretty_print]: what the entry [child_name]
    adds to the text [s] *)
Definition print_entry `{Host} (h : heap)
  (ev : option sec_id → ast.node → M (option (value * bool)))
  (pretty_print_rec : sec_id → Z → M string) (self : sec_id) (indent : Z)
  (child_name : string) (s : string) : M string :=
  pretty_print_entries h ev pretty_print_rec self indent [child_name] s.

(** * Properties *)

(** ** The serializer's string quoting *)

Lemma re_search_unescaped_iff q b s :
  re_search_unescaped q b s = true ↔
  ∃ i, String.get i s = Some q ∧
       match i with
       | O => b = false
       | S j => String.get j s ≠ Some backslash
       end.
Proof.
  revert b. induction s as [|c rest IH]; intros b; simpl.
  - split; [discriminate | intros (i & Hi & _); destruct i; discriminate].
  - destruct (Ascii.eqb_spec c q) as [->|Hcq].
    + destruct b; simpl.
      * rewrite IH. split.
        -- intros (i & Hi & Hp). exists (S i). split; [done|].
           destruct i as [|j]; simpl.
           ++ intros [= ->]. by rewrite Ascii.eqb_refl in Hp.
           ++ done.
        -- intros ([|i] & Hi & Hp); [done|]. exists i. split; [done|].
           destruct i as [|j]; simpl in *.
           ++ destruct (Ascii.eqb_spec q backslash) as [->|]; [|done].
              by destruct Hp.
           ++ done.
      * split; [|done]. intros _. by exists 0.
    + simpl. rewrite IH. split.
      * intros (i & Hi & Hp). exists (S i). split; [done|].
        destruct i as [|j]; simpl.
        -- intros [= ->]. by rewrite Ascii.eqb_refl in Hp.
        -- done.
      * intros ([|i] & Hi & Hp); simpl in *; [congruence|].
        exists i. split; [done|].
        destruct i as [|j]; simpl in *.
        -- destruct (Ascii.eqb_spec c backslash) as [->|]; [|done].
           by destruct Hp.
        -- done.
Qed.

Lemma re_search_unescaped_occurs q s :
  re_search_unescaped q false s = true ↔ occurs_unescaped q s.
Proof.
  rewrite re_search_unescaped_iff. unfold occurs_unescaped.
  split; intros (i & Hi & Hp); exists i; (split; [done|]); by destruct i.
Qed.

Lemma str_contains_occurs c s : str_contains c s = true ↔ occurs c s.
Proof.
  unfold occurs. induction s as [|c' rest IH]; simpl.
  - split; [discriminate | intros ([|i] & Hi); discriminate].
  - rewrite orb_true_iff, IH. split.
    + intros [Hc | (i & Hi)].
      * apply Ascii.eqb_eq in Hc as ->. by exists 0.
      * by exists (S i).
    + intros ([|i] & Hi); simpl in Hi.
      * left. injection Hi as ->. apply Ascii.eqb_refl.
      * right. by exists i.
Qed.

Lemma delimiter_tripled_iff q s :
  (occurs newline s → delimiter q s = String q (String q (String q "")))
  ∧ (¬ occurs newline s → delimiter q s = String q "").
Proof.
  unfold delimiter. rewrite <- str_contains_occurs.
  destruct (str_contains newline s); split; intros; congruence.
Qed.

(** C9 (as the code behaves): single quotes when no apostrophe is unescaped,
    double quotes when an apostrophe is unescaped and no double quote is,
    the delimiter tripled exactly when the string holds a newline, and a
    failure if and only if both kinds of quote occur unescaped.  The failure
    is the [KeyError] of the message's [str.format] call, not the
    [RuntimeError] the [raise] statement names. *)
Theorem quote_str_spec (s : string) :
  (¬ occurs_unescaped apostrophe s →
     quote_str s
     = Ret (delimiter apostrophe s +:+ s +:+ delimiter apostrophe s))
  ∧ (occurs_unescaped apostrophe s → ¬ occurs_unescaped double_quote s →
     quote_str s
     = Ret (delimiter double_quote s +:+ s +:+ delimiter double_quote s))
  ∧ ((∃ e, quote_str s = Raise e) ↔
     occurs_unescaped apostrophe s ∧ occurs_unescaped double_quote s)
  ∧ (occurs_unescaped apostrophe s → occurs_unescaped double_quote s →
     quote_str s = Raise KeyError).
Proof.
  rewrite <- !re_search_unescaped_occurs. unfold quote_str, delimiter.
  destruct (re_search_unescaped apostrophe false s),
    (re_search_unescaped double_quote false s),
    (str_contains newline s); simpl;
    (split; [|split; [|split; [split|]]]);
    try congruence; try (intros [e He]; congruence);
    try (intros [? ?]; congruence); eauto.
Qed.

Lemma quote_str_spec_witness : quote_str both_quotes = Raise KeyError.
Proof.
  apply (quote_str_spec both_quotes).
  - exists 1. split; [reflexivity | discriminate].
  - exists 3. split; [reflexivity | discriminate].
Defined.

Example quote_str_apostrophe :
  quote_str "a'b" = Ret (String double_quote "a'b" +:+ String double_quote "").
Proof. reflexivity. Qed.

Example quote_str_newline :
  quote_str (String "a" (String newline "b"))
  = Ret ("'''" +:+ String "a" (String newline "b") +:+ "'''").
Proof. reflexivity. Qed.

Example ast_to_src_binop :
  ast_to_src (ast.BinOp (ast.Num 2) ast.Mult (ast.Name "pi")) = Ret "(2 * pi)".
Proof. reflexivity. Qed.

Example ast_to_src_dict :
  ast_to_src (ast.Dict [ast.Num 1; ast.Num 3] [ast.Num 2; ast.Str "a"])
  = Ret "{ 1: 2, 3: 'a' }".
Proof. reflexivity. Qed.

Example ast_to_src_tuple1 :
  ast_to_src (ast.Tuple [ast.Str "a"]) = Ret "('a',)".
Proof. reflexivity. Qed.

(** ** The evaluator, node kind by node kind *)

Section EvaluatorFacts.
Context `{Host} (h : heap).

Implicit Types (parent : option sec_id) (c : cache) (fuel : nat).

Lemma _acp_eval_S fuel parent node :
  LazyEval._acp_eval h (S fuel) parent node
  = LazyEval.eval_body h (LazyEval._acp_eval h fuel) fuel parent node.
Proof. reflexivity. Qed.

Lemma bind_ret {A B} (m : M A) (k : A -> M B) c a c' :
  m c = (Done (Ret a), c') → bind m k c = k a c'.
Proof. unfold bind. by intros ->. Qed.

Lemma bind_raise {A B} (m : M A) (k : A -> M B) c e c' :
  m c = (Done (Raise e), c') → bind m k c = (Done (Raise e), c').
Proof. unfold bind. by intros ->. Qed.

Lemma eval_unpack_some ev parent node c v f c' :
  ev parent node c = (Done (Ret (Some (v, f))), c') →
  LazyEval.eval_unpack ev parent node c = (Done (Ret (v, f)), c').
Proof.
  intros Hev. unfold LazyEval.eval_unpack. by rewrite (bind_ret _ _ _ _ _ Hev).
Qed.

(** C8 (amended): a unary plus or minus applied to a number literal is
    folded by [ast.literal_eval], with no external reference; every other
    unary operation (bitwise inversion, logical negation, or an operand
    that is not a number literal, a reference included) is an unhandled
    node. *)
Theorem unaryop_eval fuel parent op operand c :
  LazyEval._acp_eval h (S fuel) parent (ast.UnaryOp op operand) c =
  match op, operand with
  | ast.UAdd, ast.Num z => (Done (Ret (Some (VInt z, false))), c)
  | ast.USub, ast.Num z => (Done (Ret (Some (VInt (- z), false))), c)
  | _, _ => (Done (Raise RuntimeError), c)
  end.
Proof. destruct op, operand; reflexivity. Qed.

(** C6: a conditional evaluates its condition and then the selected branch
    only; the other branch takes no part in the value, the flag, the cache
    or the outcome. *)
Theorem ifexp_selected_branch_only fuel parent test body orelse
    c tv tf c1 v bf c2 :
  LazyEval._acp_eval h fuel parent test c = (Done (Ret (Some (tv, tf))), c1) →
  LazyEval._acp_eval h fuel parent (if truthy tv then body else orelse) c1
  = (Done (Ret (Some (v, bf))), c2) →
  LazyEval._acp_eval h (S fuel) parent (ast.IfExp test body orelse) c
  = (Done (Ret (Some (v, bf || tf))), c2).
Proof.
  intros Htest Hbranch. rewrite _acp_eval_S.
  unfold LazyEval.eval_body. simpl.
  rewrite (bind_ret _ _ _ _ _ (eval_unpack_some _ _ _ _ _ _ _ Htest)).
  destruct (truthy tv);
    by rewrite (bind_ret _ _ _ _ _ (eval_unpack_some _ _ _ _ _ _ _ Hbranch)).
Qed.

(** C7 (what the code does with a name outside the whitelist): the [if]
    has no [else], so [_acp_eval] falls off its end and returns [None]; no
    exception is raised and no argument is evaluated. *)
Theorem call_outside_whitelist_returns_None fuel parent id args keywords c :
  in_whitelist id = false →
  LazyEval._acp_eval h (S fuel) parent (ast.Call (ast.Name id) args keywords) c
  = (Done (Ret None), c).
Proof.
  intros Hid. rewrite _acp_eval_S. unfold LazyEval.eval_body. simpl.
  unfold bind, lift. by rewrite Hid.
Qed.

(** C10: a static value written to an Option goes into the cache and is
    what every later read returns, while the Option object, its expression
    node and hence its raw value (the text [dump] and [pretty_print]
    write) stay as they were. *)
Theorem static_write_keeps_expression c instance v :
  let h' := (LazyEval.__set__ h c instance (LazyEval.Static v)).1 in
  let c' := (LazyEval.__set__ h c instance (LazyEval.Static v)).2 in
  (∀ fuel, LazyEval.__get__ h' fuel instance c' = (Done (Ret v), c'))
  ∧ options h' !! instance = options h !! instance
  ∧ Opt._acp_ast_node <$> options h' !! instance
    = Opt._acp_ast_node <$> options h !! instance
  ∧ _acp_get_raw_value <$> options h' !! instance
    = _acp_get_raw_value <$> options h !! instance
  ∧ (∀ self name,
       _acp_get_raw_option h' self name = _acp_get_raw_option h self name).
Proof.
  simpl. repeat split.
  intros fuel. unfold LazyEval.__get__, LazyEval.get_body.
  by rewrite lookup_insert_eq.
Qed.

End EvaluatorFacts.

(** ** Loops over sub-expressions *)

Section Loops.
Context `{Host} (h : heap).

Implicit Types (parent : option sec_id) (c : cache) (fuel : nat).
Implicit Types (ev : option sec_id → ast.node → M (option (value * bool))).

Lemma bind_inv {A B} (m : M A) (k : A -> M B) c b c' :
  bind m k c = (Done (Ret b), c') →
  ∃ a c1, m c = (Done (Ret a), c1) ∧ k a c1 = (Done (Ret b), c').
Proof.
  unfold bind. destruct (m c) as [[[a|e]| |] c1]; try discriminate.
  intros Hk. by exists a, c1.
Qed.

Lemma eval_seq_cons_inv (f : ast.node → M (option (value * bool)))
    n rest c rs c' :
  eval_seq f (n :: rest) c = (Done (Ret rs), c') →
  ∃ r rs' c1, rs = r :: rs' ∧ f n c = (Done (Ret r), c1)
              ∧ eval_seq f rest c1 = (Done (Ret rs'), c').
Proof.
  simpl. intros (r & c1 & Hr & Hk)%bind_inv.
  apply bind_inv in Hk as (rs' & c2 & Hrs & Hret).
  injection Hret as <- <-. by exists r, rs', c1.
Qed.

Lemma eval_seq_app_inv (f : ast.node → M (option (value * bool)))
    l1 l2 c rs c' :
  eval_seq f (l1 ++ l2) c = (Done (Ret rs), c') →
  ∃ rs1 rs2 c1, rs = rs1 ++ rs2
                ∧ eval_seq f l1 c = (Done (Ret rs1), c1)
                ∧ eval_seq f l2 c1 = (Done (Ret rs2), c').
Proof.
  revert c rs. induction l1 as [|n l1 IH]; intros c rs; simpl.
  - intros Hl2. by exists [], rs, c.
  - intros (r & rs' & c1 & -> & Hr & Hrest)%eval_seq_cons_inv.
    apply IH in Hrest as (rs1 & rs2 & c2 & -> & H1 & H2).
    exists (r :: rs1), rs2, c2. split; [done|]. split; [|done].
    rewrite (bind_ret _ _ _ _ _ Hr), (bind_ret _ _ _ _ _ H1). done.
Qed.

Lemma collected_app rs1 rs2 :
  collected (rs1 ++ rs2) = collected rs1 ++ collected rs2.
Proof. unfold collected. apply omap_app. Qed.

Lemma last_flag_app rs1 rs2 init :
  last_flag (rs1 ++ rs2) init = last_flag rs2 (last_flag rs1 init).
Proof. unfold last_flag. apply fold_left_app. Qed.

Lemma eval_children_seq ev parent children vals has_refs c rs c' :
  eval_seq (ev parent) children c = (Done (Ret rs), c') →
  LazyEval.eval_children ev parent children vals has_refs c
  = (Done (Ret (vals ++ collected rs, last_flag rs has_refs)), c').
Proof.
  revert vals has_refs c rs.
  induction children as [|n rest IH]; intros vals has_refs c rs.
  - simpl. intros [= <- <-]. simpl. by rewrite app_nil_r.
  - intros (r & rs' & c1 & -> & Hr & Hrest)%eval_seq_cons_inv.
    simpl. rewrite (bind_ret _ _ _ _ _ Hr).
    destruct r as [[v f]|]; rewrite (IH _ _ _ _ Hrest); simpl.
    + by rewrite <- app_assoc.
    + done.
Qed.

Lemma container_eval fuel parent node c rs c' :
  is_container node = true →
  ast.literal_eval node = Raise ValueError →
  eval_seq (LazyEval._acp_eval h fuel parent) (ast.iter_child_nodes node) c
  = (Done (Ret rs), c') →
  LazyEval._acp_eval h (S fuel) parent node c
  = (Done (Ret (Some (container_value node (collected rs),
                      last_flag rs false))), c').
Proof.
  intros Hcont Hlit Hseq. rewrite _acp_eval_S. unfold LazyEval.eval_body.
  rewrite Hlit.
  destruct node; try discriminate; unfold LazyEval.eval_branches;
    rewrite (bind_ret _ _ _ _ _
               (eval_children_seq _ _ _ [] false _ _ _ Hseq)); done.
Qed.

(** C2 (what the code does): the flag a list, tuple or dict literal
    reports is the flag of the last sub-evaluation that returned a result
    ([has_refs = tmp[1]] overwrites, it does not accumulate), so an
    external reference in an earlier element is forgotten. *)
Theorem container_flag_is_last_child_flag fuel parent node c rs c' :
  is_container node = true →
  ast.literal_eval node = Raise ValueError →
  eval_seq (LazyEval._acp_eval h fuel parent) (ast.iter_child_nodes node) c
  = (Done (Ret rs), c') →
  ∃ v, LazyEval._acp_eval h (S fuel) parent node c
       = (Done (Ret (Some (v, last_flag rs false))), c').
Proof. intros. eexists. by apply container_eval. Qed.

(** C3 (what the code does): a dict literal that [ast.literal_eval] cannot
    fold is evaluated keys first, then values, and the result is the flat
    Python list of all of them, not a dictionary. *)
Theorem dict_evaluates_to_flat_list fuel parent keys values c krs vrs c1 c2 :
  ast.literal_eval (ast.Dict keys values) = Raise ValueError →
  eval_seq (LazyEval._acp_eval h fuel parent) keys c = (Done (Ret krs), c1) →
  eval_seq (LazyEval._acp_eval h fuel parent) values c1
  = (Done (Ret vrs), c2) →
  LazyEval._acp_eval h (S fuel) parent (ast.Dict keys values) c
  = (Done (Ret (Some (VList (collected krs ++ collected vrs),
                      last_flag (krs ++ vrs) false))), c2).
Proof.
  intros Hlit Hk Hv.
  rewrite (container_eval fuel parent _ c (krs ++ vrs) c2); [|done|done|].
  - simpl. by rewrite collected_app.
  - simpl. clear Hlit. revert c krs Hk.
    induction keys as [|k keys IH]; intros c krs Hk.
    + simpl in Hk. injection Hk as <- <-. done.
    + apply eval_seq_cons_inv in Hk as (r & rs' & c0 & -> & Hr & Hrest).
      simpl. rewrite (bind_ret _ _ _ _ _ Hr).
      rewrite (bind_ret _ _ _ _ _ (IH _ _ Hrest)). done.
Qed.

End Loops.

(** ** Boolean operators and calls *)

Section BoolOpAndCall.
Context `{Host} (h : heap).

Implicit Types (parent : option sec_id) (c : cache) (fuel : nat).
Implicit Types (ev : option sec_id → ast.node → M (option (value * bool))).
Implicit Types (vfs : list (value * bool)).

Lemma eval_seq_some_cons_inv (f : ast.node → M (option (value * bool)))
    n rest c vfs c' :
  eval_seq f (n :: rest) c = (Done (Ret (Some <$> vfs)), c') →
  ∃ v r vfs' c1, vfs = (v, r) :: vfs'
                 ∧ f n c = (Done (Ret (Some (v, r))), c1)
                 ∧ eval_seq f rest c1 = (Done (Ret (Some <$> vfs')), c').
Proof.
  intros (r & rs' & c1 & Heq & Hr & Hrest)%eval_seq_cons_inv.
  destruct vfs as [|[v f'] vfs']; [discriminate|].
  injection Heq as <- <-. by exists v, f', vfs', c1.
Qed.

Lemma and_loop_all_truthy ev parent values has_refs c vfs c' :
  eval_seq (ev parent) values c = (Done (Ret (Some <$> vfs)), c') →
  all_truthy vfs = true →
  LazyEval.and_loop ev parent values has_refs c
  = (Done (Ret (Some (VBool true, has_refs || any_flag vfs))), c').
Proof.
  revert has_refs c vfs.
  induction values as [|n rest IH]; intros has_refs c vfs.
  - simpl. intros [= Hvfs <-] _. destruct vfs; [|discriminate].
    simpl. by rewrite orb_false_r.
  - intros (v & r & vfs' & c1 & -> & Hn & Hrest)%eval_seq_some_cons_inv.
    simpl. intros [Hv Hall]%andb_true_iff.
    rewrite (bind_ret _ _ _ _ _ (eval_unpack_some _ _ _ _ _ _ _ Hn)).
    rewrite Hv. simpl. rewrite (IH _ _ _ Hrest Hall). by rewrite orb_assoc.
Qed.

Lemma and_loop_first_falsy ev parent pre n post has_refs c vfs c1 v r c2 :
  eval_seq (ev parent) pre c = (Done (Ret (Some <$> vfs)), c1) →
  all_truthy vfs = true →
  ev parent n c1 = (Done (Ret (Some (v, r))), c2) →
  truthy v = false →
  LazyEval.and_loop ev parent (pre ++ n :: post) has_refs c
  = (Done (Ret (Some (VBool false, has_refs || any_flag vfs || r))), c2).
Proof.
  revert has_refs c vfs.
  induction pre as [|m pre IH]; intros has_refs c vfs.
  - simpl. intros [= Hvfs <-] _ Hn Hv. destruct vfs; [|discriminate].
    rewrite (bind_ret _ _ _ _ _ (eval_unpack_some _ _ _ _ _ _ _ Hn)).
    rewrite Hv. simpl. by rewrite orb_false_r.
  - intros (w & f & vfs' & c0 & -> & Hm & Hrest)%eval_seq_some_cons_inv.
    simpl. intros [Hw Hall]%andb_true_iff Hn Hv.
    rewrite (bind_ret _ _ _ _ _ (eval_unpack_some _ _ _ _ _ _ _ Hm)).
    rewrite Hw. simpl. rewrite (IH _ _ _ Hrest Hall Hn Hv).
    by rewrite !orb_assoc.
Qed.

Lemma or_loop_none_truthy ev parent values has_refs c vfs c' :
  eval_seq (ev parent) values c = (Done (Ret (Some <$> vfs)), c') →
  none_truthy vfs = true →
  LazyEval.or_loop ev parent values has_refs c
  = (Done (Ret (Some (VBool false, has_refs || any_flag vfs))), c').
Proof.
  revert has_refs c vfs.
  induction values as [|n rest IH]; intros has_refs c vfs.
  - simpl. intros [= Hvfs <-] _. destruct vfs; [|discriminate].
    simpl. by rewrite orb_false_r.
  - intros (v & r & vfs' & c1 & -> & Hn & Hrest)%eval_seq_some_cons_inv.
    simpl. intros [Hv Hall]%andb_true_iff.
    rewrite (bind_ret _ _ _ _ _ (eval_unpack_some _ _ _ _ _ _ _ Hn)).
    apply negb_true_iff in Hv. rewrite Hv.
    rewrite (IH _ _ _ Hrest Hall). by rewrite orb_assoc.
Qed.

Lemma or_loop_first_truthy ev parent pre n post has_refs c vfs c1 v r c2 :
  eval_seq (ev parent) pre c = (Done (Ret (Some <$> vfs)), c1) →
  none_truthy vfs = true →
  ev parent n c1 = (Done (Ret (Some (v, r))), c2) →
  truthy v = true →
  LazyEval.or_loop ev parent (pre ++ n :: post) has_refs c
  = (Done (Ret (Some (VBool true, has_refs || any_flag vfs || r))), c2).
Proof.
  revert has_refs c vfs.
  induction pre as [|m pre IH]; intros has_refs c vfs.
  - simpl. intros [= Hvfs <-] _ Hn Hv. destruct vfs; [|discriminate].
    rewrite (bind_ret _ _ _ _ _ (eval_unpack_some _ _ _ _ _ _ _ Hn)).
    rewrite Hv. simpl. by rewrite orb_false_r.
  - intros (w & f & vfs' & c0 & -> & Hm & Hrest)%eval_seq_some_cons_inv.
    simpl. intros [Hw Hall]%andb_true_iff Hn Hv.
    rewrite (bind_ret _ _ _ _ _ (eval_unpack_some _ _ _ _ _ _ _ Hm)).
    apply negb_true_iff in Hw. rewrite Hw.
    rewrite (IH _ _ _ Hrest Hall Hn Hv). by rewrite !orb_assoc.
Qed.

Lemma boolop_eval_S fuel parent op values c :
  LazyEval._acp_eval h (S fuel) parent (ast.BoolOp op values) c
  = match op with
    | ast.And =>
        LazyEval.and_loop (LazyEval._acp_eval h fuel) parent values false c
    | ast.Or =>
        LazyEval.or_loop (LazyEval._acp_eval h fuel) parent values false c
    end.
Proof. by destruct op. Qed.

(** C4 (amended): a boolean operation returns a Python [bool], never an
    operand.  Under [and] it is [True] when every operand is truthy and
    [False] at the first falsy operand; under [or] it is [True] at the
    first truthy operand and [False] when none is.  The operands after
    the deciding one are not evaluated, and the flag is the OR of the
    flags of the operands that were. *)
Theorem boolop_returns_bool fuel parent :
  (∀ values c vfs c',
     eval_seq (LazyEval._acp_eval h fuel parent) values c
     = (Done (Ret (Some <$> vfs)), c') →
     all_truthy vfs = true →
     LazyEval._acp_eval h (S fuel) parent (ast.BoolOp ast.And values) c
     = (Done (Ret (Some (VBool true, any_flag vfs))), c'))
  ∧ (∀ pre n post c vfs c1 v r c2,
     eval_seq (LazyEval._acp_eval h fuel parent) pre c
     = (Done (Ret (Some <$> vfs)), c1) →
     all_truthy vfs = true →
     LazyEval._acp_eval h fuel parent n c1 = (Done (Ret (Some (v, r))), c2) →
     truthy v = false →
     LazyEval._acp_eval h (S fuel) parent
       (ast.BoolOp ast.And (pre ++ n :: post)) c
     = (Done (Ret (Some (VBool false, any_flag vfs || r))), c2))
  ∧ (∀ pre n post c vfs c1 v r c2,
     eval_seq (LazyEval._acp_eval h fuel parent) pre c
     = (Done (Ret (Some <$> vfs)), c1) →
     none_truthy vfs = true →
     LazyEval._acp_eval h fuel parent n c1 = (Done (Ret (Some (v, r))), c2) →
     truthy v = true →
     LazyEval._acp_eval h (S fuel) parent
       (ast.BoolOp ast.Or (pre ++ n :: post)) c
     = (Done (Ret (Some (VBool true, any_flag vfs || r))), c2))
  ∧ (∀ values c vfs c',
     eval_seq (LazyEval._acp_eval h fuel parent) values c
     = (Done (Ret (Some <$> vfs)), c') →
     none_truthy vfs = true →
     LazyEval._acp_eval h (S fuel) parent (ast.BoolOp ast.Or values) c
     = (Done (Ret (Some (VBool false, any_flag vfs))), c')).
Proof.
  repeat split; intros; rewrite boolop_eval_S.
  - by rewrite (and_loop_all_truthy _ _ _ _ _ vfs c').
  - by rewrite (and_loop_first_falsy _ _ _ _ _ _ _ vfs c1 v r c2).
  - by rewrite (or_loop_first_truthy _ _ _ _ _ _ _ vfs c1 v r c2).
  - by rewrite (or_loop_none_truthy _ _ _ _ _ vfs c').
Qed.




End BoolOpAndCall.

(** ** Reference resolution *)

Section Resolver.
Context `{Host} (h : heap).

Implicit Types (parent q : option sec_id) (c : cache) (fuel : nat).
Implicit Types (ev : option sec_id → ast.node → M (option (value * bool))).

Lemma resolve_loop_misses ev attrs k parent c q c1 n :
  misses h ev attrs k parent c q c1 →
  LazyEval.resolve_loop h ev (k + n) attrs parent c
  = LazyEval.resolve_loop h ev n attrs q c1.
Proof.
  induction 1 as [|k' p sec e' c0 c0' q' c2 Hsec Hpath He _ IH]; [done|].
  simpl. unfold try_except at 1. by rewrite Hpath, He, Hsec.
Qed.

Lemma resolve_loop_hit ev attrs n p c v c' :
  LazyEval.getattr_path h ev (VSection p) attrs c = (Done (Ret v), c') →
  LazyEval.resolve_loop h ev (S n) attrs (Some p) c = (Done (Ret v), c').
Proof. intros Hpath. simpl. unfold try_except. by rewrite Hpath. Qed.

Lemma resolve_loop_raise_inv ev attrs n parent c e c' :
  LazyEval.resolve_loop h ev n attrs parent c = (Done (Raise e), c') →
  key_or_attribute_error e = true →
  e = AttributeError ∧ ∃ k, misses h ev attrs k parent c None c'.
Proof.
  revert parent c. induction n as [|n IH]; intros [p|] c; simpl;
    try discriminate.
  - intros [= <- <-] _. split; [done|]. exists 0. constructor.
  - unfold try_except.
    destruct (LazyEval.getattr_path h ev (VSection p) attrs c)
      as [[[v|e0]| |] c1] eqn:Hpath; try discriminate.
    destruct (key_or_attribute_error e0) eqn:He0.
    + destruct (sections h !! p) as [sec|] eqn:Hsec; [|discriminate].
      intros Hrest He. destruct (IH _ _ Hrest He) as [-> [k Hk]].
      split; [done|]. exists (S k). by econstructor.
    + intros [= -> <-] He. congruence.
  - intros [= <- <-] _. split; [done|]. exists 0. constructor.
Qed.

Lemma resolve_loop_ret_inv ev attrs n parent c v c' :
  LazyEval.resolve_loop h ev n attrs parent c = (Done (Ret v), c') →
  ∃ k p c1, misses h ev attrs k parent c (Some p) c1
            ∧ LazyEval.getattr_path h ev (VSection p) attrs c1
              = (Done (Ret v), c').
Proof.
  revert parent c. induction n as [|n IH]; intros [p|] c; simpl;
    try discriminate.
  unfold try_except.
  destruct (LazyEval.getattr_path h ev (VSection p) attrs c)
    as [[[w|e0]| |] c1] eqn:Hpath; try discriminate.
  - intros [= -> ->]. exists 0, p, c. split; [constructor | done].
  - destruct (key_or_attribute_error e0) eqn:He0; [|discriminate].
    destruct (sections h !! p) as [sec|] eqn:Hsec; [|discriminate].
    intros (k & p' & c2 & Hk & Hp')%IH.
    exists (S k), p', c2. split; [by econstructor | done].
Qed.

(** C5 (amended): resolution commits to the nearest enclosing scope in
    which the complete dotted path resolves.  It moves outward whenever
    the path fails in the current scope with a [KeyError] or an
    [AttributeError], at the first segment or at a later one; the first
    scope in which the whole path resolves wins; and an [AttributeError]
    is all it raises itself, exactly when the path has failed in every
    scope up to the root. *)
Theorem resolve_nearest_complete_match fuel ref parent c :
  let ev := LazyEval._acp_eval h fuel in
  let attrs := str_split "." ref in
  (∀ k p c1 v c2,
     misses h ev attrs k parent c (Some p) c1 →
     LazyEval.getattr_path h ev (VSection p) attrs c1 = (Done (Ret v), c2) →
     k < fuel →
     LazyEval._acp_resolve_reference h fuel ref parent c = (Done (Ret v), c2))
  ∧ (∀ k c1,
     misses h ev attrs k parent c None c1 →
     k ≤ fuel →
     LazyEval._acp_resolve_reference h fuel ref parent c
     = (Done (Raise AttributeError), c1))
  ∧ (∀ v c2,
     LazyEval._acp_resolve_reference h fuel ref parent c = (Done (Ret v), c2) →
     ∃ k p c1, misses h ev attrs k parent c (Some p) c1
               ∧ LazyEval.getattr_path h ev (VSection p) attrs c1
                 = (Done (Ret v), c2))
  ∧ (∀ e c1,
     LazyEval._acp_resolve_reference h fuel ref parent c
     = (Done (Raise e), c1) →
     key_or_attribute_error e = true →
     e = AttributeError ∧ ∃ k, misses h ev attrs k parent c None c1).
Proof.
  intros ev attrs.
  unfold LazyEval._acp_resolve_reference, LazyEval.resolve_body.
  fold ev attrs. split; [|split; [|split]].
  - intros k p c1 v c2 Hmiss Hpath Hk.
    replace fuel with (k + S (fuel - S k)) at 1 by lia.
    rewrite (resolve_loop_misses _ _ _ _ _ _ _ _ Hmiss).
    by apply resolve_loop_hit.
  - intros k c1 Hmiss Hk.
    replace fuel with (k + (fuel - k)) at 1 by lia.
    rewrite (resolve_loop_misses _ _ _ _ _ _ _ _ Hmiss).
    by destruct (fuel - k).
  - intros v c2. apply resolve_loop_ret_inv.
  - intros e c1. apply resolve_loop_raise_inv.
Qed.

End Resolver.

(** ** Purity and the cache *)

Section Caching.
Context `{Host} (h : heap).

Implicit Types (parent : option sec_id) (c : cache) (fuel : nat).
Implicit Types (ev : option sec_id → ast.node → M (option (value * bool))).

Lemma eval_unpack_inv ev parent node c v f c' :
  LazyEval.eval_unpack ev parent node c = (Done (Ret (v, f)), c') →
  ev parent node c = (Done (Ret (Some (v, f))), c').
Proof.
  unfold LazyEval.eval_unpack. intros (r & c1 & Hr & Hu)%bind_inv.
  destruct r as [[v' f']|]; [|discriminate].
  by injection Hu as -> -> ->.
Qed.

Lemma eval_unpack_pure ev parent node c v f c' :
  pure_ev ev → has_reference node = false →
  LazyEval.eval_unpack ev parent node c = (Done (Ret (v, f)), c') →
  c' = c ∧ f = false.
Proof.
  intros Hev Hnode Hu%eval_unpack_inv.
  destruct (Hev _ _ _ _ _ Hnode Hu) as [-> Hf]. split; [done|]. by eapply Hf.
Qed.

Lemma eval_children_pure ev parent children vals c vals' f c' :
  pure_ev ev → existsb has_reference children = false →
  LazyEval.eval_children ev parent children vals false c
  = (Done (Ret (vals', f)), c') →
  c' = c ∧ f = false.
Proof.
  intros Hev. revert vals c.
  induction children as [|n rest IH]; intros vals c; simpl.
  - intros _ [= _ <- <-]. done.
  - intros [Hn Hrest]%orb_false_iff (r & c1 & Hr & Hk)%bind_inv.
    destruct (Hev _ _ _ _ _ Hn Hr) as [-> Hf].
    destruct r as [[v f0]|].
    + rewrite (Hf v f0 eq_refl) in Hk. by eapply IH.
    + by eapply IH.
Qed.

Lemma eval_args_pure ev parent arg_nodes args c args' f c' :
  pure_ev ev → existsb has_reference arg_nodes = false →
  LazyEval.eval_args ev parent arg_nodes args false c
  = (Done (Ret (args', f)), c') →
  c' = c ∧ f = false.
Proof.
  intros Hev. revert args c.
  induction arg_nodes as [|n rest IH]; intros args c; simpl.
  - intros _ [= _ <- <-]. done.
  - intros [Hn Hrest]%orb_false_iff ([v f0] & c1 & Hu & Hk)%bind_inv.
    destruct (eval_unpack_pure _ _ _ _ _ _ _ Hev Hn Hu) as [-> ->].
    by eapply IH.
Qed.

Lemma eval_keywords_pure ev parent keywords kwargs c kwargs' f c' :
  pure_ev ev →
  existsb (λ kw, let '(_, v) := kw in has_reference v) keywords = false →
  LazyEval.eval_keywords ev parent keywords kwargs false c
  = (Done (Ret (kwargs', f)), c') →
  c' = c ∧ f = false.
Proof.
  intros Hev. revert kwargs c.
  induction keywords as [|[name n] rest IH]; intros kwargs c; simpl.
  - intros _ [= _ <- <-]. done.
  - intros [Hn Hrest]%orb_false_iff ([v f0] & c1 & Hu & Hk)%bind_inv.
    destruct (eval_unpack_pure _ _ _ _ _ _ _ Hev Hn Hu) as [-> ->].
    by eapply IH.
Qed.

Lemma compare_loop_pure ev parent ops comparators lhs c r c' :
  pure_ev ev → existsb has_reference comparators = false →
  LazyEval.compare_loop ev parent ops comparators lhs false c
  = (Done (Ret r), c') →
  c' = c ∧ ∀ v f, r = Some (v, f) → f = false.
Proof.
  intros Hev. revert comparators lhs c.
  induction ops as [|op ops IH]; intros [|n rest] lhs c; simpl;
    try (intros _ [= <- <-]; split; [done|]; by intros ? ? [= _ <-]).
  intros [Hn Hrest]%orb_false_iff ([v f0] & c1 & Hu & Hk)%bind_inv.
  destruct (eval_unpack_pure _ _ _ _ _ _ _ Hev Hn Hu) as [-> ->].
  simpl in Hk. apply bind_inv in Hk as (holds & c2 & Hcmp & Hk).
  unfold lift in Hcmp. injection Hcmp as Hcmp <-.
  destruct holds.
  - by eapply IH.
  - injection Hk as <- <-. split; [done|]. by intros ? ? [= _ <-].
Qed.

Lemma and_loop_pure ev parent values c r c' :
  pure_ev ev → existsb has_reference values = false →
  LazyEval.and_loop ev parent values false c = (Done (Ret r), c') →
  c' = c ∧ ∀ v f, r = Some (v, f) → f = false.
Proof.
  intros Hev. revert c.
  induction values as [|n rest IH]; intros c; simpl.
  - intros _ [= <- <-]. split; [done|]. by intros ? ? [= _ <-].
  - intros [Hn Hrest]%orb_false_iff ([v f0] & c1 & Hu & Hk)%bind_inv.
    destruct (eval_unpack_pure _ _ _ _ _ _ _ Hev Hn Hu) as [-> ->].
    simpl in Hk. destruct (truthy v); simpl in Hk.
    + by eapply IH.
    + injection Hk as <- <-. split; [done|]. by intros ? ? [= _ <-].
Qed.

Lemma or_loop_pure ev parent values c r c' :
  pure_ev ev → existsb has_reference values = false →
  LazyEval.or_loop ev parent values false c = (Done (Ret r), c') →
  c' = c ∧ ∀ v f, r = Some (v, f) → f = false.
Proof.
  intros Hev. revert c.
  induction values as [|n rest IH]; intros c; simpl.
  - intros _ [= <- <-]. split; [done|]. by intros ? ? [= _ <-].
  - intros [Hn Hrest]%orb_false_iff ([v f0] & c1 & Hu & Hk)%bind_inv.
    destruct (eval_unpack_pure _ _ _ _ _ _ _ Hev Hn Hu) as [-> ->].
    simpl in Hk. destruct (truthy v); simpl in Hk.
    + injection Hk as <- <-. split; [done|]. by intros ? ? [= _ <-].
    + by eapply IH.
Qed.

Lemma eval_branches_pure ev walk : pure_ev ev →
  pure_ev (LazyEval.eval_branches h ev walk).
Proof.
  intros Hev parent node c r c' Hnode.
  destruct node; simpl in Hnode; try discriminate;
    unfold LazyEval.eval_branches.
  - (* BinOp *)
    apply orb_false_iff in Hnode as [Hl Hr].
    intros ([lhs lf] & c1 & Hu1 & Hk)%bind_inv.
    destruct (eval_unpack_pure _ _ _ _ _ _ _ Hev Hl Hu1) as [-> ->].
    apply bind_inv in Hk as ([rhs rf] & c2 & Hu2 & Hk).
    destruct (eval_unpack_pure _ _ _ _ _ _ _ Hev Hr Hu2) as [-> ->].
    destruct (in_ops op); [|discriminate].
    apply bind_inv in Hk as (v & c3 & Hop & Hk).
    unfold lift in Hop. injection Hop as _ <-. injection Hk as <- <-.
    split; [done|]. by intros ? ? [= _ <-].
  - (* BoolOp *)
    destruct op; [by apply and_loop_pure | by apply or_loop_pure].
  - (* Compare *)
    apply orb_false_iff in Hnode as [Hl Hr].
    intros ([lhs lf] & c1 & Hu1 & Hk)%bind_inv.
    destruct (eval_unpack_pure _ _ _ _ _ _ _ Hev Hl Hu1) as [-> ->].
    by eapply compare_loop_pure.
  - (* IfExp *)
    apply orb_false_iff in Hnode as [[Ht Hb]%orb_false_iff Ho].
    intros ([tv tf] & c1 & Hu1 & Hk)%bind_inv.
    destruct (eval_unpack_pure _ _ _ _ _ _ _ Hev Ht Hu1) as [-> ->].
    apply bind_inv in Hk as ([v f] & c2 & Hu2 & Hk).
    injection Hk as <- <-.
    destruct (truthy tv);
      [destruct (eval_unpack_pure _ _ _ _ _ _ _ Hev Hb Hu2) as [-> ->]
      |destruct (eval_unpack_pure _ _ _ _ _ _ _ Hev Ho Hu2) as [-> ->]];
      (split; [done|]; by intros ? ? [= _ <-]).
  - (* List *)
    intros ([vals f] & c1 & Hch & Hk)%bind_inv. injection Hk as <- <-.
    apply eval_children_pure in Hch as [-> ->]; [|done|].
    + split; [done|]. by intros ? ? [= _ <-].
    + simpl. by rewrite existsb_app, Hnode.
  - (* Tuple *)
    intros ([vals f] & c1 & Hch & Hk)%bind_inv. injection Hk as <- <-.
    apply eval_children_pure in Hch as [-> ->]; [|done|].
    + split; [done|]. by intros ? ? [= _ <-].
    + simpl. by rewrite existsb_app, Hnode.
  - (* Dict *)
    intros ([vals f] & c1 & Hch & Hk)%bind_inv. injection Hk as <- <-.
    apply eval_children_pure in Hch as [-> ->]; [|done|].
    + split; [done|]. by intros ? ? [= _ <-].
    + simpl. by rewrite existsb_app.
  - (* Call *)
    apply orb_false_iff in Hnode as [Ha Hkw].
    intros (id & c1 & Hid & Hk)%bind_inv.
    unfold lift in Hid. injection Hid as _ <-.
    destruct (in_whitelist id).
    + apply bind_inv in Hk as ([avals af] & c2 & Hargs & Hk).
      destruct (eval_args_pure _ _ _ _ _ _ _ _ Hev Ha Hargs) as [-> ->].
      apply bind_inv in Hk as ([kwargs kf] & c3 & Hkws & Hk).
      destruct (eval_keywords_pure _ _ _ _ _ _ _ _ Hev Hkw Hkws) as [-> ->].
      destruct (host_builtin id) as [f|]; [|discriminate].
      apply bind_inv in Hk as (v & c4 & Hf & Hk).
      unfold lift in Hf. injection Hf as _ <-. injection Hk as <- <-.
      split; [done|]. by intros ? ? [= _ <-].
    + injection Hk as <- <-. split; [done|]. discriminate.
  - (* Load *)
    intros [= <- <-]. split; [done|]. discriminate.
Qed.

Lemma eval_body_pure ev walk : pure_ev ev →
  pure_ev (LazyEval.eval_body h ev walk).
Proof.
  intros Hev parent node c r c' Hnode. unfold LazyEval.eval_body.
  destruct (ast.literal_eval node) as [v|e].
  - intros [= <- <-]. split; [done|]. by intros ? ? [= _ <-].
  - destruct e; try discriminate; by apply eval_branches_pure.
Qed.

Lemma _acp_eval_pure fuel : pure_ev (LazyEval._acp_eval h fuel).
Proof.
  induction fuel as [|fuel IH].
  - intros parent node c r c' _. discriminate.
  - intros parent node c r c'. rewrite _acp_eval_S. by apply eval_body_pure.
Qed.

Lemma reference_flag fuel parent node c v f c' :
  is_reference node = true →
  LazyEval._acp_eval h fuel parent node c = (Done (Ret (Some (v, f))), c') →
  f = true.
Proof.
  destruct fuel as [|fuel]; [discriminate|]. rewrite _acp_eval_S.
  destruct node; try discriminate; intros _;
    unfold LazyEval.eval_body; simpl;
    intros (ref & c1 & _ & (w & c2 & _ & Hk)%bind_inv)%bind_inv;
    by injection Hk as _ <- _.
Qed.

Lemma get_cached fuel instance c v :
  c !! instance = Some v →
  LazyEval.__get__ h fuel instance c = (Done (Ret v), c).
Proof.
  intros Hc. unfold LazyEval.__get__, LazyEval.get_body. by rewrite Hc.
Qed.

Lemma get_evaluates fuel instance c o node v f c' :
  c !! instance = None →
  options h !! instance = Some o →
  Opt._acp_ast_node o = Some node →
  LazyEval._acp_eval h fuel (Opt._acp_parent o) node c
  = (Done (Ret (Some (v, f))), c') →
  LazyEval.__get__ h fuel instance c
  = (Done (Ret v), if f then c' else <[instance := v]> c').
Proof.
  intros Hc Ho Hnode Hev. unfold LazyEval.__get__, LazyEval.get_body.
  rewrite Hc, Ho, Hnode.
  rewrite (bind_ret _ _ _ _ _ (eval_unpack_some _ _ _ _ _ _ _ Hev)).
  by destruct f.
Qed.

(** *** The flag and the References that are evaluated *)

Lemma after_ret {A} (m : M A) (k : A → cache → bool) c a c' :
  m c = (Done (Ret a), c') → after m k c = k a c'.
Proof. unfold after. by intros ->. Qed.

Lemma after_false {A} (m : M A) (k : A → cache → bool) c :
  (∀ a c', k a c' = false) → after m k c = false.
Proof. intros Hk. unfold after. by destruct (m c) as [[[a|e]| |] c']. Qed.

Lemma refs_unpack_eq ev rr parent node k c v f c1 :
  LazyEval.eval_unpack ev parent node c = (Done (Ret (v, f)), c1) →
  refs_unpack ev rr parent node k c = rr parent node c || k v c1.
Proof. intros Hu. unfold refs_unpack. by rewrite (after_ret _ _ _ _ _ Hu). Qed.

Lemma refs_unpack_false ev rr parent node k c :
  rr parent node c = false → (∀ v c', k v c' = false) →
  refs_unpack ev rr parent node k c = false.
Proof.
  intros Hr Hk. unfold refs_unpack. rewrite Hr. simpl.
  apply after_false. intros [v f] c'. apply Hk.
Qed.

Lemma eval_unpack_flags ev outside anywhere parent node c v f c' :
  flags_references ev outside anywhere →
  LazyEval.eval_unpack ev parent node c = (Done (Ret (v, f)), c') →
  (outside parent node c = true → f = true)
  ∧ (f = true → anywhere parent node c = true).
Proof. intros Hev Hu%eval_unpack_inv. by eapply Hev. Qed.

Lemma eval_args_flags ev outside anywhere parent nodes args f0 c args' f c'
    kf kt :
  flags_references ev outside anywhere →
  LazyEval.eval_args ev parent nodes args f0 c = (Done (Ret (args', f)), c') →
  (f0 = true → f = true)
  ∧ (refs_all ev outside parent nodes kf c = true → f = true ∨ kf c' = true)
  ∧ (f = true → f0 = true ∨ refs_all ev anywhere parent nodes kt c = true)
  ∧ (kt c' = true → refs_all ev anywhere parent nodes kt c = true).
Proof.
  intros Hev. revert args f0 c.
  induction nodes as [|n rest IH]; intros args f0 c; simpl.
  - intros [= _ <- <-]. repeat split; auto.
  - intros ([v tf] & c1 & Hu & Hk)%bind_inv.
    rewrite !(refs_unpack_eq _ _ _ _ _ _ _ _ _ Hu).
    destruct (eval_unpack_flags _ _ _ _ _ _ _ _ _ Hev Hu) as [Hout Hany].
    destruct (IH _ _ _ Hk) as (H1 & H2 & H3 & H4).
    repeat split.
    + intros ->. by apply H1.
    + intros [Hn|Hr]%orb_true_iff.
      * left. apply H1. rewrite (Hout Hn). apply orb_true_r.
      * by apply H2.
    + intros Hf. destruct (H3 Hf) as [ [-> | ->]%orb_true_iff | Hr ].
      * by left.
      * right. by rewrite Hany.
      * right. apply orb_true_iff. by right.
    + intros Hkt. apply orb_true_iff. right. by apply H4.
Qed.

Lemma eval_keywords_flags ev outside anywhere parent keywords kwargs f0 c
    kwargs' f c' kf kt :
  flags_references ev outside anywhere →
  LazyEval.eval_keywords ev parent keywords kwargs f0 c
  = (Done (Ret (kwargs', f)), c') →
  (f0 = true → f = true)
  ∧ (refs_all ev outside parent (keywords.*2) kf c = true →
     f = true ∨ kf c' = true)
  ∧ (f = true →
     f0 = true ∨ refs_all ev anywhere parent (keywords.*2) kt c = true)
  ∧ (kt c' = true → refs_all ev anywhere parent (keywords.*2) kt c = true).
Proof.
  intros Hev. revert kwargs f0 c.
  induction keywords as [|[name n] rest IH]; intros kwargs f0 c; simpl.
  - intros [= _ <- <-]. repeat split; auto.
  - intros ([v tf] & c1 & Hu & Hk)%bind_inv.
    rewrite !(refs_unpack_eq _ _ _ _ _ _ _ _ _ Hu).
    destruct (eval_unpack_flags _ _ _ _ _ _ _ _ _ Hev Hu) as [Hout Hany].
    destruct (IH _ _ _ Hk) as (H1 & H2 & H3 & H4).
    repeat split.
    + intros ->. by apply H1.
    + intros [Hn|Hr]%orb_true_iff.
      * left. apply H1. rewrite (Hout Hn). apply orb_true_r.
      * by apply H2.
    + intros Hf. destruct (H3 Hf) as [ [-> | ->]%orb_true_iff | Hr ].
      * by left.
      * right. by rewrite Hany.
      * right. apply orb_true_iff. by right.
    + intros Hkt. apply orb_true_iff. right. by apply H4.
Qed.

Lemma eval_children_flags ev outside anywhere parent nodes vals f0 c
    vals' f c' :
  flags_references ev outside anywhere →
  LazyEval.eval_children ev parent nodes vals f0 c
  = (Done (Ret (vals', f)), c') →
  f = true → f0 = true ∨ refs_children ev anywhere parent nodes c = true.
Proof.
  intros Hev. revert vals f0 c.
  induction nodes as [|n rest IH]; intros vals f0 c; simpl.
  - intros [= _ <- <-]. by left.
  - intros (r & c1 & Hr & Hk)%bind_inv Hf.
    rewrite (after_ret _ _ _ _ _ Hr).
    destruct r as [[v tf]|].
    + right. destruct (IH _ _ _ Hk Hf) as [->|Hrest].
      * by rewrite (proj2 (Hev _ _ _ _ _ _ Hr)).
      * rewrite Hrest. apply orb_true_r.
    + destruct (IH _ _ _ Hk Hf) as [->|Hrest]; [by left|].
      right. rewrite Hrest. apply orb_true_r.
Qed.

Lemma compare_loop_flags ev outside anywhere parent ops comparators lhs f0 c
    v f c' :
  flags_references ev outside anywhere →
  LazyEval.compare_loop ev parent ops comparators lhs f0 c
  = (Done (Ret (Some (v, f))), c') →
  (f0 = true → f = true)
  ∧ (refs_compare ev outside parent ops comparators lhs c = true → f = true)
  ∧ (f = true →
     f0 = true ∨ refs_compare ev anywhere parent ops comparators lhs c = true).
Proof.
  intros Hev. revert comparators lhs f0 c.
  induction ops as [|op ops IH]; intros [|n rest] lhs f0 c; simpl;
    try (intros [= _ <- <-]; repeat split; auto; discriminate).
  intros ([rhs tf] & c1 & Hu & Hk)%bind_inv.
  rewrite !(refs_unpack_eq _ _ _ _ _ _ _ _ _ Hu).
  destruct (eval_unpack_flags _ _ _ _ _ _ _ _ _ Hev Hu) as [Hout Hany].
  simpl in Hk. apply bind_inv in Hk as (holds & c2 & Hcmp & Hk).
  unfold lift in Hcmp. injection Hcmp as Hcmp <-. rewrite Hcmp.
  destruct holds.
  - destruct (IH _ _ _ _ Hk) as (H1 & H2 & H3). repeat split.
    + intros ->. by apply H1.
    + intros [Hn|Hr]%orb_true_iff.
      * apply H1. rewrite (Hout Hn). apply orb_true_r.
      * by apply H2.
    + intros Hf. destruct (H3 Hf) as [ [-> | ->]%orb_true_iff | Hr ].
      * by left.
      * right. by rewrite Hany.
      * right. rewrite Hr. apply orb_true_r.
  - injection Hk as _ <- _. repeat split.
    + by intros ->.
    + rewrite orb_false_r. intros Hn. rewrite (Hout Hn). apply orb_true_r.
    + intros [-> | ->]%orb_true_iff; [by left|]. right. by rewrite Hany.
Qed.

Lemma and_loop_flags ev outside anywhere parent values f0 c v f c' :
  flags_references ev outside anywhere →
  LazyEval.and_loop ev parent values f0 c = (Done (Ret (Some (v, f))), c') →
  (f0 = true → f = true)
  ∧ (refs_bool ev outside parent (λ v, negb (truthy v)) values c = true →
     f = true)
  ∧ (f = true →
     f0 = true
     ∨ refs_bool ev anywhere parent (λ v, negb (truthy v)) values c = true).
Proof.
  intros Hev. revert f0 c.
  induction values as [|n rest IH]; intros f0 c; simpl.
  - intros [= _ <- <-]. repeat split; auto; discriminate.
  - intros ([w tf] & c1 & Hu & Hk)%bind_inv.
    rewrite !(refs_unpack_eq _ _ _ _ _ _ _ _ _ Hu).
    destruct (eval_unpack_flags _ _ _ _ _ _ _ _ _ Hev Hu) as [Hout Hany].
    simpl in Hk. destruct (truthy w); simpl in Hk |- *.
    + destruct (IH _ _ Hk) as (H1 & H2 & H3). repeat split.
      * intros ->. by apply H1.
      * intros [Hn|Hr]%orb_true_iff.
        -- apply H1. rewrite (Hout Hn). apply orb_true_r.
        -- by apply H2.
      * intros Hf. destruct (H3 Hf) as [ [-> | ->]%orb_true_iff | Hr ].
        -- by left.
        -- right. by rewrite Hany.
        -- right. rewrite Hr. apply orb_true_r.
    + injection Hk as _ <- _. repeat split.
      * by intros ->.
      * rewrite orb_false_r. intros Hn. rewrite (Hout Hn). apply orb_true_r.
      * intros [-> | ->]%orb_true_iff; [by left|]. right. by rewrite Hany.
Qed.

Lemma or_loop_flags ev outside anywhere parent values f0 c v f c' :
  flags_references ev outside anywhere →
  LazyEval.or_loop ev parent values f0 c = (Done (Ret (Some (v, f))), c') →
  (f0 = true → f = true)
  ∧ (refs_bool ev outside parent truthy values c = true → f = true)
  ∧ (f = true →
     f0 = true ∨ refs_bool ev anywhere parent truthy values c = true).
Proof.
  intros Hev. revert f0 c.
  induction values as [|n rest IH]; intros f0 c; simpl.
  - intros [= _ <- <-]. repeat split; auto; discriminate.
  - intros ([w tf] & c1 & Hu & Hk)%bind_inv.
    rewrite !(refs_unpack_eq _ _ _ _ _ _ _ _ _ Hu).
    destruct (eval_unpack_flags _ _ _ _ _ _ _ _ _ Hev Hu) as [Hout Hany].
    simpl in Hk. destruct (truthy w); simpl in Hk |- *.
    + injection Hk as _ <- _. repeat split.
      * by intros ->.
      * rewrite orb_false_r. intros Hn. rewrite (Hout Hn). apply orb_true_r.
      * intros [-> | ->]%orb_true_iff; [by left|]. right. by rewrite Hany.
    + destruct (IH _ _ Hk) as (H1 & H2 & H3). repeat split.
      * intros ->. by apply H1.
      * intros [Hn|Hr]%orb_true_iff.
        -- apply H1. rewrite (Hout Hn). apply orb_true_r.
        -- by apply H2.
      * intros Hf. destruct (H3 Hf) as [ [-> | ->]%orb_true_iff | Hr ].
        -- by left.
        -- right. by rewrite Hany.
        -- right. rewrite Hr. apply orb_true_r.
Qed.

Lemma eval_branches_flags ev outside anywhere walk :
  flags_references ev outside anywhere →
  flags_references (LazyEval.eval_branches h ev walk)
    (refs_branches false ev outside) (refs_branches true ev anywhere).
Proof.
  intros Hev parent node c v f c'.
  destruct node as [z|s|k|id|base attr|op operand|l op r|op values
                   |l ops comparators|t b o|elts|elts|keys values
                   |func args keywords|];
    unfold LazyEval.eval_branches; try discriminate.
  - (* Name *)
    intros (ref & c1 & _ & (w & c2 & _ & Hk)%bind_inv)%bind_inv.
    by injection Hk as _ <- _.
  - (* Attribute *)
    intros (ref & c1 & _ & (w & c2 & _ & Hk)%bind_inv)%bind_inv.
    by injection Hk as _ <- _.
  - (* BinOp *)
    intros ([lhs lf] & c1 & Hu1 & Hk)%bind_inv.
    apply bind_inv in Hk as ([rhs rf] & c2 & Hu2 & Hk).
    destruct (in_ops op); [|discriminate].
    apply bind_inv in Hk as (w & c3 & _ & Hk). injection Hk as _ <- _.
    simpl. rewrite !(refs_unpack_eq _ _ _ _ _ _ _ _ _ Hu1).
    rewrite !(refs_unpack_eq _ _ _ _ _ _ _ _ _ Hu2). rewrite !orb_false_r.
    destruct (eval_unpack_flags _ _ _ _ _ _ _ _ _ Hev Hu1) as [Hout1 Hany1].
    destruct (eval_unpack_flags _ _ _ _ _ _ _ _ _ Hev Hu2) as [Hout2 Hany2].
    split.
    + intros [Hn|Hn]%orb_true_iff.
      * by rewrite (Hout1 Hn).
      * rewrite (Hout2 Hn). apply orb_true_r.
    + intros [-> | ->]%orb_true_iff.
      * by rewrite Hany1.
      * rewrite Hany2 by done. apply orb_true_r.
  - (* BoolOp *)
    destruct op; simpl.
    + intros Hl.
      destruct (and_loop_flags _ _ _ _ _ _ _ _ _ _ Hev Hl) as (_ & H2 & H3).
      split; [done|]. intros Hf. by destruct (H3 Hf).
    + intros Hl.
      destruct (or_loop_flags _ _ _ _ _ _ _ _ _ _ Hev Hl) as (_ & H2 & H3).
      split; [done|]. intros Hf. by destruct (H3 Hf).
  - (* Compare *)
    intros ([lhs lf] & c1 & Hu1 & Hk)%bind_inv. simpl.
    rewrite !(refs_unpack_eq _ _ _ _ _ _ _ _ _ Hu1).
    destruct (eval_unpack_flags _ _ _ _ _ _ _ _ _ Hev Hu1) as [Hout1 Hany1].
    destruct (compare_loop_flags _ _ _ _ _ _ _ _ _ _ _ _ Hev Hk)
      as (H1 & H2 & H3).
    split.
    + intros [Hn|Hn]%orb_true_iff; [apply H1; by apply Hout1 | by apply H2].
    + intros Hf. apply orb_true_iff.
      destruct (H3 Hf) as [-> | Hr]; [left; by apply Hany1 | by right].
  - (* IfExp *)
    intros ([tv tf] & c1 & Hu1 & Hk)%bind_inv.
    apply bind_inv in Hk as ([w bf] & c2 & Hu2 & Hk).
    injection Hk as _ <- _. simpl.
    rewrite !(refs_unpack_eq _ _ _ _ _ _ _ _ _ Hu1).
    destruct (eval_unpack_flags _ _ _ _ _ _ _ _ _ Hev Hu1) as [Hout1 Hany1].
    assert ((outside parent (if truthy tv then b else o) c1 = true → bf = true)
            ∧ (bf = true
               → anywhere parent (if truthy tv then b else o) c1 = true))
      as [Hout2 Hany2].
    { destruct (truthy tv);
        by apply (eval_unpack_flags _ _ _ _ _ _ _ _ _ Hev Hu2). }
    split.
    + intros [Hn|Hn]%orb_true_iff.
      * rewrite (Hout1 Hn). apply orb_true_r.
      * by rewrite (Hout2 Hn).
    + intros [-> | ->]%orb_true_iff.
      * rewrite Hany2 by done. apply orb_true_r.
      * by rewrite Hany1.
  - (* List *)
    intros ([vals cf] & c1 & Hch & Hk)%bind_inv. injection Hk as _ <- _.
    split; [discriminate|]. intros Hf.
    by destruct (eval_children_flags _ _ _ _ _ _ _ _ _ _ _ Hev Hch Hf).
  - (* Tuple *)
    intros ([vals cf] & c1 & Hch & Hk)%bind_inv. injection Hk as _ <- _.
    split; [discriminate|]. intros Hf.
    by destruct (eval_children_flags _ _ _ _ _ _ _ _ _ _ _ Hev Hch Hf).
  - (* Dict *)
    intros ([vals cf] & c1 & Hch & Hk)%bind_inv. injection Hk as _ <- _.
    split; [discriminate|]. intros Hf.
    by destruct (eval_children_flags _ _ _ _ _ _ _ _ _ _ _ Hev Hch Hf).
  - (* Call *)
    intros (fname & c1 & Hid & Hk)%bind_inv.
    destruct func; try discriminate.
    unfold lift in Hid. injection Hid as <- <-. simpl.
    match goal with
    | |- context [in_whitelist ?x] => destruct (in_whitelist x)
    end; [|discriminate]. simpl.
    apply bind_inv in Hk as ([avals af] & c2 & Hargs & Hk).
    apply bind_inv in Hk as ([kwargs kf] & c3 & Hkws & Hk).
    match type of Hk with
    | context [host_builtin ?x] => destruct (host_builtin x) as [fn|]
    end; [|discriminate].
    apply bind_inv in Hk as (w & c4 & _ & Hk). injection Hk as _ <- _.
    destruct (eval_args_flags _ _ _ _ _ _ _ _ _ _ _
                (refs_all ev outside parent (keywords.*2) (λ _, false))
                (refs_all ev anywhere parent (keywords.*2) (λ _, false))
                Hev Hargs) as (A1 & A2 & A3 & A4).
    destruct (eval_keywords_flags _ _ _ _ _ _ _ _ _ _ _
                (λ _, false) (λ _, false) Hev Hkws) as (K1 & K2 & K3 & K4).
    split.
    + intros Hr. destruct (A2 Hr) as [-> | Hk]; [by apply K1|].
      by destruct (K2 Hk).
    + intros Hf. destruct (K3 Hf) as [-> | Hk].
      * by destruct (A3 eq_refl).
      * by apply A4.
Qed.

Lemma eval_body_flags ev outside anywhere walk :
  flags_references ev outside anywhere →
  flags_references (LazyEval.eval_body h ev walk)
    (refs_body false ev outside) (refs_body true ev anywhere).
Proof.
  intros Hev parent node c v f c'. unfold LazyEval.eval_body, refs_body.
  destruct (ast.literal_eval node) as [w|e].
  - by intros [= _ <- _].
  - destruct e; try discriminate; by apply eval_branches_flags.
Qed.

Lemma _acp_eval_flags fuel :
  flags_references (LazyEval._acp_eval h fuel)
    (evaluates_reference h false fuel) (evaluates_reference h true fuel).
Proof.
  induction fuel as [|fuel IH].
  - intros parent node c v f c'. discriminate.
  - intros parent node c v f c'. rewrite _acp_eval_S. simpl.
    by apply eval_body_flags.
Qed.

(** *** Without a Reference node, none is evaluated *)

Lemma refs_all_free ev rr parent nodes k c :
  reference_free rr → existsb has_reference nodes = false →
  (∀ c', k c' = false) →
  refs_all ev rr parent nodes k c = false.
Proof.
  intros Hrr Hnodes Hk. revert c.
  induction nodes as [|n rest IH]; intros c; simpl; [apply Hk|].
  apply orb_false_iff in Hnodes as [Hn Hrest].
  apply refs_unpack_false; [by apply Hrr|]. intros _ c'. by apply IH.
Qed.

Lemma refs_children_free ev rr parent nodes c :
  reference_free rr → existsb has_reference nodes = false →
  refs_children ev rr parent nodes c = false.
Proof.
  intros Hrr Hnodes. revert c.
  induction nodes as [|n rest IH]; intros c; simpl; [done|].
  apply orb_false_iff in Hnodes as [Hn Hrest].
  rewrite (Hrr _ _ _ Hn). simpl. apply after_false. intros _ c'. by apply IH.
Qed.

Lemma refs_compare_free ev rr parent ops comparators lhs c :
  reference_free rr → existsb has_reference comparators = false →
  refs_compare ev rr parent ops comparators lhs c = false.
Proof.
  intros Hrr. revert comparators lhs c.
  induction ops as [|op ops IH]; intros [|n rest] lhs c Hnodes; simpl;
    try done.
  apply orb_false_iff in Hnodes as [Hn Hrest].
  apply refs_unpack_false; [by apply Hrr|]. intros rhs c'.
  destruct (host_compare op lhs rhs) as [[|]|]; try done. by apply IH.
Qed.

Lemma refs_bool_free ev rr parent decides values c :
  reference_free rr → existsb has_reference values = false →
  refs_bool ev rr parent decides values c = false.
Proof.
  intros Hrr Hnodes. revert c.
  induction values as [|n rest IH]; intros c; simpl; [done|].
  apply orb_false_iff in Hnodes as [Hn Hrest].
  apply refs_unpack_false; [by apply Hrr|]. intros v c'.
  destruct (decides v); [done|]. by apply IH.
Qed.

Lemma keywords_free (keywords : list (string * ast.node)) :
  existsb (λ kw, let '(_, v) := kw in has_reference v) keywords = false →
  existsb has_reference (keywords.*2) = false.
Proof.
  induction keywords as [|[name n] rest IH]; simpl; [done|].
  intros [-> Hrest]%orb_false_iff. by apply IH.
Qed.

Lemma refs_branches_free displays ev rr :
  reference_free rr → reference_free (refs_branches displays ev rr).
Proof.
  intros Hrr parent node c Hnode.
  destruct node as [z|s|k|id|base attr|op operand|l op r|op values
                   |l ops comparators|t b o|elts|elts|keys values
                   |func args keywords|];
    simpl in Hnode |- *; try done.
  - apply orb_false_iff in Hnode as [Hl Hr].
    apply refs_unpack_false; [by apply Hrr|]. intros _ c'.
    apply refs_unpack_false; [by apply Hrr | done].
  - destruct op; by apply refs_bool_free.
  - apply orb_false_iff in Hnode as [Hl Hr].
    apply refs_unpack_false; [by apply Hrr|]. intros lhs c'.
    by apply refs_compare_free.
  - apply orb_false_iff in Hnode as [[Ht Hb]%orb_false_iff Ho].
    apply refs_unpack_false; [by apply Hrr|]. intros tv c'.
    destruct (truthy tv); by apply Hrr.
  - rewrite refs_children_free; [apply andb_false_r | done |].
    by rewrite existsb_app, Hnode.
  - rewrite refs_children_free; [apply andb_false_r | done |].
    by rewrite existsb_app, Hnode.
  - rewrite refs_children_free; [apply andb_false_r | done |].
    by rewrite existsb_app.
  - destruct func; try done.
    apply orb_false_iff in Hnode as [Ha Hkw].
    rewrite refs_all_free; [apply andb_false_r | done | done |].
    intros c'. apply refs_all_free; [done | by apply keywords_free | done].
Qed.

Lemma evaluates_reference_free displays fuel :
  reference_free (evaluates_reference h displays fuel).
Proof.
  induction fuel as [|fuel IH]; intros parent node c Hnode; [done|].
  simpl. unfold refs_body.
  destruct (ast.literal_eval node) as [w|e]; [done|].
  destruct e; try done; by apply refs_branches_free.
Qed.

(** C1 (amended).  A read of a cached Option returns the cached value
    without running the evaluator (it needs no fuel).  An Option whose
    evaluation evaluates no Reference node is stored by its first
    successful read, so every later read is such a cached read; this is the
    case of every expression without a Reference node, whose evaluation
    also leaves the cache alone, and of an expression whose References all
    sit in parts that are not evaluated.  An Option whose evaluation
    evaluates a Reference node outside the list, tuple and dict displays is
    evaluated by the read in the current state and nothing is stored for
    it, so the next read evaluates again.  The flag the evaluator reports
    is set by every Reference evaluated outside a display and by nothing
    but an evaluated Reference; evaluating a Reference node itself always
    sets it, and its value is what the resolver finds for the dotted path
    in the current state. *)
Theorem purity_gated_caching :
  (∀ fuel instance c v,
     c !! instance = Some v →
     LazyEval.__get__ h fuel instance c = (Done (Ret v), c))
  ∧ (∀ fuel instance c o node v f c',
     c !! instance = None →
     options h !! instance = Some o →
     Opt._acp_ast_node o = Some node →
     LazyEval._acp_eval h fuel (Opt._acp_parent o) node c
     = (Done (Ret (Some (v, f))), c') →
     evaluates_reference h true fuel (Opt._acp_parent o) node c = false →
     LazyEval.__get__ h fuel instance c
     = (Done (Ret v), <[instance := v]> c')
     ∧ ∀ fuel', LazyEval.__get__ h fuel' instance (<[instance := v]> c')
                = (Done (Ret v), <[instance := v]> c'))
  ∧ (∀ fuel instance c o node v f c',
     c !! instance = None →
     options h !! instance = Some o →
     Opt._acp_ast_node o = Some node →
     LazyEval._acp_eval h fuel (Opt._acp_parent o) node c
     = (Done (Ret (Some (v, f))), c') →
     evaluates_reference h false fuel (Opt._acp_parent o) node c = true →
     LazyEval.__get__ h fuel instance c = (Done (Ret v), c'))
  ∧ (∀ fuel parent node c,
     has_reference node = false →
     evaluates_reference h true fuel parent node c = false)
  ∧ (∀ fuel parent node c v f c',
     has_reference node = false →
     LazyEval._acp_eval h fuel parent node c
     = (Done (Ret (Some (v, f))), c') →
     f = false ∧ c' = c)
  ∧ (∀ fuel parent node c v f c',
     LazyEval._acp_eval h fuel parent node c
     = (Done (Ret (Some (v, f))), c') →
     (evaluates_reference h false fuel parent node c = true → f = true)
     ∧ (f = true → evaluates_reference h true fuel parent node c = true)
     ∧ (is_reference node = true → f = true))
  ∧ (∀ fuel parent node ref c,
     is_reference node = true →
     LazyEval.dotted_ref node "" = Ret ref →
     LazyEval._acp_eval h (S fuel) parent node c
     = (let* v := LazyEval._acp_resolve_reference h fuel ref parent in
        ret (Some (v, true))) c).
Proof.
  split; [|split; [|split; [|split; [|split; [|split]]]]].
  - apply get_cached.
  - intros fuel instance c o node v f c' Hc Ho Hnode Hev Hrefs.
    destruct (_acp_eval_flags fuel _ _ _ _ _ _ Hev) as [_ Hany].
    destruct f; [by rewrite Hany in Hrefs|]. split.
    + by rewrite (get_evaluates _ _ _ _ _ _ _ _ Hc Ho Hnode Hev).
    + intros fuel'. apply get_cached. apply lookup_insert_eq.
  - intros fuel instance c o node v f c' Hc Ho Hnode Hev Hrefs.
    destruct (_acp_eval_flags fuel _ _ _ _ _ _ Hev) as [Hout _].
    rewrite (Hout Hrefs) in Hev.
    by rewrite (get_evaluates _ _ _ _ _ _ _ _ Hc Ho Hnode Hev).
  - intros fuel parent node c. apply evaluates_reference_free.
  - intros fuel parent node c v f c' Hnode Hev.
    destruct (_acp_eval_pure fuel _ _ _ _ _ Hnode Hev) as [-> Hf].
    split; [by eapply Hf | done].
  - intros fuel parent node c v f c' Hev.
    destruct (_acp_eval_flags fuel _ _ _ _ _ _ Hev) as [Hout Hany].
    split; [done|]. split; [done|].
    intros Href. by eapply reference_flag.
  - intros fuel parent node ref c Href Hdot. rewrite _acp_eval_S.
    destruct node; try discriminate;
      unfold LazyEval.eval_body, LazyEval.eval_branches,
        LazyEval._acp_resolve_reference;
      simpl ast.literal_eval; cbv iota;
      unfold bind at 1, lift; by rewrite Hdot.
Qed.

End Caching.

(** * Scenarios on the [demo] configuration, with the small host *)

Section Scenarios.
Import SmallHost.

(** C1: [lazy = 1 if True else nowhere] contains a reference node, yet its
    first read stores the value: the reference sits in the branch that is
    not evaluated, so no external reference is reported, and the second
    read is served from the cache (it succeeds without any fuel for the
    evaluator). *)
Lemma cached_despite_reference_node :
  (∃ o node, options demo !! 6 = Some o
             ∧ Opt._acp_ast_node o = Some node
             ∧ has_reference node = true)
  ∧ LazyEval.__get__ demo 3 6 ∅ = (Done (Ret (VInt 1)), <[6 := VInt 1]> ∅)
  ∧ LazyEval.__get__ demo 0 6 (<[6 := VInt 1]> ∅)
    = (Done (Ret (VInt 1)), <[6 := VInt 1]> ∅)
  ∧ LazyEval.__get__ demo 0 6 ∅ = (OutOfFuel, ∅).
Proof.
  split; [|split; [|split]].
  - eexists _, _. split; [reflexivity|]. split; reflexivity.
  - vm_compute. reflexivity.
  - vm_compute. reflexivity.
  - vm_compute. reflexivity.
Qed.

Lemma purity_gated_caching_witness :
  (* [pi = 3]: evaluated once, then cached *)
  (LazyEval.__get__ demo 1 0 ∅ = (Done (Ret (VInt 3)), <[0 := VInt 3]> ∅)
   ∧ ∀ fuel', LazyEval.__get__ demo fuel' 0 (<[0 := VInt 3]> ∅)
              = (Done (Ret (VInt 3)), <[0 := VInt 3]> ∅))
  (* [lazy = 1 if True else nowhere]: the reference is not evaluated *)
  ∧ (LazyEval.__get__ demo 3 6 ∅ = (Done (Ret (VInt 1)), <[6 := VInt 1]> ∅)
     ∧ ∀ fuel', LazyEval.__get__ demo fuel' 6 (<[6 := VInt 1]> ∅)
                = (Done (Ret (VInt 1)), <[6 := VInt 1]> ∅))
  (* [tau = 2 * pi]: evaluated, not cached, and evaluated again once [pi]
     has been given the value 5 *)
  ∧ LazyEval.__get__ demo 4 3 (<[0 := VInt 3]> ∅)
    = (Done (Ret (VInt 6)), <[0 := VInt 3]> ∅)
  ∧ LazyEval.__get__ demo 4 3 (<[0 := VInt 5]> (<[0 := VInt 3]> ∅))
    = (Done (Ret (VInt 10)), <[0 := VInt 5]> (<[0 := VInt 3]> ∅)).
Proof.
  destruct (purity_gated_caching demo) as (_ & Hpure & Hrefs & _).
  split; [|split; [|split]].
  - eapply Hpure; reflexivity.
  - eapply Hpure; reflexivity.
  - eapply Hrefs; reflexivity.
  - eapply Hrefs; reflexivity.
Defined.

(** the References in [foo = [pi, 1]] are inside a display: one is
    evaluated, none outside the displays *)
Example references_inside_a_display :
  evaluates_reference demo true 5 (Some 2)
    (ast.List [ast.Name "pi"; ast.Num 1]) ∅ = true
  ∧ evaluates_reference demo false 5 (Some 2)
      (ast.List [ast.Name "pi"; ast.Num 1]) ∅ = false
  ∧ evaluates_reference demo false 5 (Some 2)
      (ast.BinOp (ast.Num 2) ast.Mult (ast.Name "pi")) ∅ = true
  ∧ evaluates_reference demo true 5 (Some 2)
      (ast.IfExp (ast.NameConstant ast.PyTrue) (ast.Num 1)
         (ast.Name "nowhere")) ∅ = false.
Proof. repeat split; reflexivity. Qed.

(** the example of the specification, on integers: after [pi] is
    reassigned, the next read of [tau] follows *)
Example tau_follows_pi :
  let c1 := (LazyEval.__get__ demo 4 3 ∅).2 in
  let '(h2, c2) := LazyEval.__set__ demo c1 0 (LazyEval.Static (VInt 5)) in
  (LazyEval.__get__ demo 4 3 ∅).1 = Done (Ret (VInt 6))
  ∧ (LazyEval.__get__ h2 4 3 c2).1 = Done (Ret (VInt 10)).
Proof. vm_compute. split; reflexivity. Qed.

(** C2 at [foo = [pi, 1]]: the first element reports an external
    reference, the list as a whole does not. *)
Lemma container_flag_is_last_child_flag_witness :
  LazyEval._acp_eval demo 3 (Some 2) (ast.Name "pi") ∅
  = (Done (Ret (Some (VInt 3, true))), <[0 := VInt 3]> ∅)
  ∧ ∃ v, LazyEval._acp_eval demo 4 (Some 2)
           (ast.List [ast.Name "pi"; ast.Num 1]) ∅
         = (Done (Ret (Some (v, false))), <[0 := VInt 3]> ∅).
Proof.
  split; [reflexivity|].
  apply (container_flag_is_last_child_flag demo 3 (Some 2)
           (ast.List [ast.Name "pi"; ast.Num 1]) ∅
           [Some (VInt 3, true); Some (VInt 1, false); None]);
    reflexivity.
Defined.

(** the consequence for the cache: [foo] is stored although it depends
    on [pi], and keeps its old value when [pi] changes *)
Example foo_goes_stale :
  let c1 := (LazyEval.__get__ demo 5 4 ∅).2 in
  let '(h2, c2) := LazyEval.__set__ demo c1 0 (LazyEval.Static (VInt 5)) in
  (LazyEval.__get__ demo 5 4 ∅).1 = Done (Ret (VList [VInt 3; VInt 1]))
  ∧ (LazyEval.__get__ h2 5 4 c2).1 = Done (Ret (VList [VInt 3; VInt 1]))
  ∧ (LazyEval.__get__ h2 5 0 c2).1 = Done (Ret (VInt 5)).
Proof. vm_compute. repeat split; reflexivity. Qed.

(** C3 at [d = {1: pi}]: the value is the list [[1, 3]]. *)
Lemma dict_evaluates_to_flat_list_witness :
  LazyEval._acp_eval demo 4 (Some 2) (ast.Dict [ast.Num 1] [ast.Name "pi"]) ∅
  = (Done (Ret (Some (VList [VInt 1; VInt 3], true))), <[0 := VInt 3]> ∅).
Proof.
  apply (dict_evaluates_to_flat_list demo 3 (Some 2)
           [ast.Num 1] [ast.Name "pi"] ∅
           [Some (VInt 1, false)] [Some (VInt 3, true)] ∅);
    reflexivity.
Defined.

(** a dict of literals is folded by [ast.literal_eval] and is a dict; an
    unhashable literal key is a [TypeError] *)
Example dict_of_literals :
  LazyEval._acp_eval demo 1 (Some 2)
    (ast.Dict [ast.Num 1; ast.Num 3] [ast.Num 2; ast.Num 4]) ∅
  = (Done (Ret (Some (VDict [(VInt 1, VInt 2); (VInt 3, VInt 4)], false))), ∅)
  ∧ LazyEval._acp_eval demo 1 (Some 2)
      (ast.Dict [ast.List []] [ast.Num 2]) ∅
    = (Done (Raise TypeError), ∅)
  ∧ LazyEval._acp_eval demo 5 (Some 2)
      (ast.Dict [ast.List [ast.Name "pi"]] [ast.Num 2]) ∅
    = (Done (Ret (Some (VList [VList [VInt 3]; VInt 2], false))),
       <[0 := VInt 3]> ∅).
Proof. repeat split; reflexivity. Qed.

(** C4: [1 and 2] is [True], not [2]; [0 or 5] is [True], not [5];
    [0 or None] is [False], not [None]. *)
Lemma boolop_result_is_not_an_operand :
  LazyEval._acp_eval demo 2 None (ast.BoolOp ast.And [ast.Num 1; ast.Num 2]) ∅
  = (Done (Ret (Some (VBool true, false))), ∅)
  ∧ LazyEval._acp_eval demo 2 None (ast.BoolOp ast.Or [ast.Num 0; ast.Num 5]) ∅
    = (Done (Ret (Some (VBool true, false))), ∅)
  ∧ LazyEval._acp_eval demo 2 None
      (ast.BoolOp ast.Or [ast.Num 0; ast.NameConstant ast.PyNone]) ∅
    = (Done (Ret (Some (VBool false, false))), ∅)
  ∧ VBool true ≠ VInt 2 ∧ VBool true ≠ VInt 5 ∧ VBool false ≠ VNone.
Proof. repeat split; (reflexivity || discriminate). Qed.

Lemma boolop_returns_bool_witness :
  LazyEval._acp_eval demo 2 None (ast.BoolOp ast.And [ast.Num 1; ast.Num 2]) ∅
  = (Done (Ret (Some (VBool true, false))), ∅)
  ∧ LazyEval._acp_eval demo 2 None
      (ast.BoolOp ast.Or ([ast.Num 0] ++ ast.Num 5 :: [ast.Name "nowhere"])) ∅
    = (Done (Ret (Some (VBool true, false))), ∅).
Proof.
  destruct (boolop_returns_bool demo 1 None) as (Hand & _ & Hor & _).
  split.
  - apply (Hand _ _ [(VInt 1, false); (VInt 2, false)]); reflexivity.
  - apply (Hor _ _ _ _ [(VInt 0, false)] ∅ (VInt 5) false); reflexivity.
Defined.

(** C5: the starting scope [In] has a child [S], the first segment of
    [S.x]; the path does not resolve there, and resolution moves on to the
    root and answers from the root's [S]. *)
Lemma resolve_moves_past_first_segment_match :
  (∃ sec, sections demo !! 2 = Some sec
          ∧ Sec.children sec !! "S" = Some (ChildSection 3))
  ∧ LazyEval.getattr_path demo (LazyEval._acp_eval demo 3) (VSection 2)
      ["S"; "x"] ∅
    = (Done (Raise AttributeError), ∅)
  ∧ LazyEval._acp_resolve_reference demo 3 "S.x" (Some 2) ∅
    = (Done (Ret (VInt 1)), <[1 := VInt 1]> ∅).
Proof.
  split; [|split].
  - eexists. split; reflexivity.
  - reflexivity.
  - reflexivity.
Qed.

Lemma resolve_nearest_complete_match_witness :
  LazyEval._acp_resolve_reference demo 3 "S.x" (Some 2) ∅
  = (Done (Ret (VInt 1)), <[1 := VInt 1]> ∅)
  ∧ LazyEval._acp_resolve_reference demo 3 "nowhere" (Some 2) ∅
    = (Done (Raise AttributeError), ∅).
Proof.
  split.
  - destruct (resolve_nearest_complete_match demo 3 "S.x" (Some 2) ∅)
      as (Hhit & _).
    apply (Hhit 1 0 ∅).
    + eapply misses_step; [reflexivity | reflexivity | reflexivity |].
      apply misses_done.
    + reflexivity.
    + lia.
  - destruct (resolve_nearest_complete_match demo 3 "nowhere" (Some 2) ∅)
      as (_ & Hnone & _).
    apply (Hnone 2).
    + eapply misses_step; [reflexivity | reflexivity | reflexivity |].
      eapply misses_step; [reflexivity | reflexivity | reflexivity |].
      apply misses_done.
    + lia.
Defined.

(** the shadowing example of the specification: the nearest definition
    wins when the whole path resolves there *)
Example shadowing_nearest_wins :
  LazyEval._acp_resolve_reference demo 3 "S" (Some 2) ∅
  = (Done (Ret (VSection 3)), ∅).
Proof. reflexivity. Qed.

(** C6 at [1 if True else nowhere]: the unselected branch would raise. *)
Lemma ifexp_selected_branch_only_witness :
  LazyEval._acp_eval demo 3 (Some 2) (ast.Name "nowhere") ∅
  = (Done (Raise AttributeError), ∅)
  ∧ LazyEval._acp_eval demo 4 (Some 2)
      (ast.IfExp (ast.NameConstant ast.PyTrue) (ast.Num 1)
                 (ast.Name "nowhere")) ∅
    = (Done (Ret (Some (VInt 1, false || false))), ∅).
Proof.
  split; [reflexivity|].
  apply (ifexp_selected_branch_only demo 3 (Some 2) _ _ _ ∅
           (VBool true) false ∅); reflexivity.
Defined.

Example ifexp_flag_ignores_unselected_reference :
  LazyEval._acp_eval demo 4 (Some 2)
    (ast.IfExp (ast.NameConstant ast.PyFalse) (ast.Name "pi") (ast.Num 1)) ∅
  = (Done (Ret (Some (VInt 1, false))), ∅)
  ∧ LazyEval._acp_eval demo 4 (Some 2)
      (ast.IfExp (ast.Name "pi") (ast.Num 1) (ast.Name "nowhere")) ∅
    = (Done (Ret (Some (VInt 1, true))), <[0 := VInt 3]> ∅).
Proof. split; reflexivity. Qed.

(** C7 at [eval('1')] *)
Lemma call_outside_whitelist_returns_None_witness :
  LazyEval._acp_eval demo 1 (Some 2)
    (ast.Call (ast.Name "eval") [ast.Str "1"] []) ∅
  = (Done (Ret None), ∅).
Proof.
  apply (call_outside_whitelist_returns_None demo 0 (Some 2) "eval").
  reflexivity.
Defined.

(** what becomes of the [None]: reading the Option fails with the
    [TypeError] of unpacking it, and inside a list the call vanishes *)
Example call_outside_whitelist_consequences :
  LazyEval.__get__ demo 1 7 ∅ = (Done (Raise TypeError), ∅)
  ∧ LazyEval._acp_eval demo 2 (Some 2)
      (ast.List [ast.Call (ast.Name "eval") [ast.Str "1"] []; ast.Num 2]) ∅
    = (Done (Ret (Some (VList [VInt 2], false))), ∅).
Proof. split; reflexivity. Qed.

Example call_abs :
  LazyEval._acp_eval demo 5 (Some 2)
    (ast.Call (ast.Name "abs")
       [ast.BinOp (ast.Num 1) ast.Sub (ast.Name "pi")] []) ∅
  = (Done (Ret (Some (VInt 2, true))), <[0 := VInt 3]> ∅).
Proof. reflexivity. Qed.

(** C8: [pi] evaluates to 3 with an external reference, but [-pi] is an
    unhandled node, and so are [not True] and [~5]. *)
Lemma unaryop_is_unhandled :
  LazyEval._acp_eval demo 3 (Some 2) (ast.Name "pi") ∅
  = (Done (Ret (Some (VInt 3, true))), <[0 := VInt 3]> ∅)
  ∧ LazyEval._acp_eval demo 4 (Some 2)
      (ast.UnaryOp ast.USub (ast.Name "pi")) ∅
    = (Done (Raise RuntimeError), ∅)
  ∧ LazyEval._acp_eval demo 4 (Some 2)
      (ast.UnaryOp ast.Not (ast.NameConstant ast.PyTrue)) ∅
    = (Done (Raise RuntimeError), ∅)
  ∧ LazyEval._acp_eval demo 4 (Some 2) (ast.UnaryOp ast.Invert (ast.Num 5)) ∅
    = (Done (Raise RuntimeError), ∅).
Proof. repeat split; reflexivity. Qed.

(** C10 on [tau = 2 * pi]: after [tau] is given the static value 7, a
    read yields 7 and the raw value is still the text of [2 * pi]. *)
Example static_write_tau :
  let '(h', c') := LazyEval.__set__ demo ∅ 3 (LazyEval.Static (VInt 7)) in
  LazyEval.__get__ h' 0 3 c' = (Done (Ret (VInt 7)), c')
  ∧ _acp_get_raw_option h' 2 "tau" (LazyEval._acp_eval h' 0) c'
    = (Done (Ret (VStr "(2 * pi)")), c')
  ∧ _acp_get_raw_option demo 2 "tau" (LazyEval._acp_eval demo 0) ∅
    = (Done (Ret (VStr "(2 * pi)")), ∅).
Proof. repeat split; reflexivity. Qed.

(** a new expression replaces the node and empties the cache slot *)
Example expression_write_tau :
  let '(h', c') :=
    LazyEval.__set__ demo (<[3 := VInt 7]> ∅) 3
      (LazyEval.AstNode (ast.BinOp (ast.Name "pi") ast.Add (ast.Num 1))) in
  c' !! 3 = None
  ∧ LazyEval.__get__ h' 4 3 c' = (Done (Ret (VInt 4)), <[0 := VInt 3]> ∅)
  ∧ _acp_get_raw_option h' 2 "tau" (LazyEval._acp_eval h' 0) c'
    = (Done (Ret (VStr "(pi + 1)")), c').
Proof. repeat split; reflexivity. Qed.

End Scenarios.

(** * Further properties of the evaluator *)

Section BinOpAndCompare.
Context `{Host} (h : heap).

Implicit Types (parent : option sec_id) (c : cache) (fuel : nat).
Implicit Types (ev : option sec_id → ast.node → M (option (value * bool))).
Implicit Types (vfs : list (value * bool)).





Lemma compare_loop_passes ev parent ops comparators lhs has_refs c vfs c' :
  length ops = length comparators →
  eval_seq (ev parent) comparators c = (Done (Ret (Some <$> vfs)), c') →
  chain_passes ops lhs (vfs.*1) = true →
  LazyEval.compare_loop ev parent ops comparators lhs has_refs c
  = (Done (Ret (Some (VBool true, has_refs || any_flag vfs))), c').
Proof.
  revert ops lhs has_refs c vfs.
  induction comparators as [|n rest IH]; intros [|op ops] lhs has_refs c vfs;
    try discriminate.
  - simpl. intros _ [= Hvfs <-] _. destruct vfs; [|discriminate].
    simpl. by rewrite orb_false_r.
  - intros [= Hlen]
      (v & r & vfs' & c1 & -> & Hn & Hrest)%eval_seq_some_cons_inv.
    simpl. destruct (host_compare op lhs v) as [[|]|] eqn:Hcmp;
      try discriminate.
    intros Hchain.
    rewrite (bind_ret _ _ _ _ _ (eval_unpack_some _ _ _ _ _ _ _ Hn)).
    unfold bind at 1, lift at 1. rewrite Hcmp.
    rewrite (IH _ _ _ _ _ Hlen Hrest Hchain). by rewrite orb_assoc.
Qed.

Lemma default_last_cons (w d : value) (l : list value) :
  default d (last (w :: l)) = default w (last l).
Proof.
  revert w d. induction l as [|x l IH]; intros w d; [done|].
  by rewrite last_cons_cons, (IH x d), (IH x w).
Qed.

Lemma compare_loop_stops ev parent ops_pre op ops_post pre n post lhs
    has_refs c vfs c1 v r c2 :
  length ops_pre = length pre →
  eval_seq (ev parent) pre c = (Done (Ret (Some <$> vfs)), c1) →
  chain_passes ops_pre lhs (vfs.*1) = true →
  ev parent n c1 = (Done (Ret (Some (v, r))), c2) →
  host_compare op (default lhs (last (vfs.*1))) v = Ret false →
  LazyEval.compare_loop ev parent (ops_pre ++ op :: ops_post)
    (pre ++ n :: post) lhs has_refs c
  = (Done (Ret (Some (VBool false, has_refs || any_flag vfs || r))), c2).
Proof.
  revert ops_pre lhs has_refs c vfs.
  induction pre as [|m pre IH]; intros [|op0 ops_pre] lhs has_refs c vfs;
    try discriminate.
  - simpl. intros _ [= Hvfs <-] _ Hn Hcmp. destruct vfs; [|discriminate].
    simpl in Hcmp.
    rewrite (bind_ret _ _ _ _ _ (eval_unpack_some _ _ _ _ _ _ _ Hn)).
    unfold bind, lift. rewrite Hcmp. simpl. by rewrite orb_false_r.
  - intros [= Hlen]
      (w & f & vfs' & c0 & -> & Hm & Hrest)%eval_seq_some_cons_inv.
    simpl. destruct (host_compare op0 lhs w) as [[|]|] eqn:Hcmp0;
      try discriminate.
    intros Hchain Hn Hcmp.
    rewrite (bind_ret _ _ _ _ _ (eval_unpack_some _ _ _ _ _ _ _ Hm)).
    unfold bind at 1, lift at 1. rewrite Hcmp0.
    change (default lhs (last (w :: vfs'.*1)))
      with (default lhs (last (w :: vfs'.*1))) in Hcmp.
    rewrite default_last_cons in Hcmp.
    rewrite (IH _ _ _ _ _ Hlen Hrest Hchain Hn Hcmp). by rewrite !orb_assoc.
Qed.

(** X2.  A chained comparison evaluates the first operand, then the
    comparators left to right, comparing each with the operand before it.
    It is [True] when every step holds; at the first step that does not
    hold it is [False] and the remaining comparators are not evaluated.
    The flag is the OR of the flags of the operands that were evaluated. *)
Theorem compare_chain fuel parent l c lhs lf c0 :
  LazyEval._acp_eval h fuel parent l c = (Done (Ret (Some (lhs, lf))), c0) →
  (∀ ops comparators vfs c',
     length ops = length comparators →
     eval_seq (LazyEval._acp_eval h fuel parent) comparators c0
     = (Done (Ret (Some <$> vfs)), c') →
     chain_passes ops lhs (vfs.*1) = true →
     LazyEval._acp_eval h (S fuel) parent (ast.Compare l ops comparators) c
     = (Done (Ret (Some (VBool true, lf || any_flag vfs))), c'))
  ∧ (∀ ops_pre op ops_post pre n post vfs c1 v r c2,
     length ops_pre = length pre →
     eval_seq (LazyEval._acp_eval h fuel parent) pre c0
     = (Done (Ret (Some <$> vfs)), c1) →
     chain_passes ops_pre lhs (vfs.*1) = true →
     LazyEval._acp_eval h fuel parent n c1 = (Done (Ret (Some (v, r))), c2) →
     host_compare op (default lhs (last (vfs.*1))) v = Ret false →
     LazyEval._acp_eval h (S fuel) parent
       (ast.Compare l (ops_pre ++ op :: ops_post) (pre ++ n :: post)) c
     = (Done (Ret (Some (VBool false, lf || any_flag vfs || r))), c2)).
Proof.
  intros Hl. split.
  - intros ops comparators vfs c' Hlen Hseq Hchain. rewrite _acp_eval_S.
    unfold LazyEval.eval_body. simpl.
    rewrite (bind_ret _ _ _ _ _ (eval_unpack_some _ _ _ _ _ _ _ Hl)).
    by apply compare_loop_passes.
  - intros ops_pre op ops_post pre n post vfs c1 v r c2 Hlen Hseq Hchain Hn
      Hcmp.
    rewrite _acp_eval_S. unfold LazyEval.eval_body. simpl.
    rewrite (bind_ret _ _ _ _ _ (eval_unpack_some _ _ _ _ _ _ _ Hl)).
    by eapply compare_loop_stops.
Qed.

End BinOpAndCompare.

(** ** The cache only grows *)

Section CacheGrows.
Context `{Host} (h : heap).

Implicit Types (parent : option sec_id) (c : cache) (fuel : nat).
Implicit Types (ev : option sec_id → ast.node → M (option (value * bool))).

Lemma keeps_cache_ret {A} (a : A) : keeps_cache (ret a).
Proof. by intros c o c' [= _ <-]. Qed.

Lemma keeps_cache_raise {A} e : keeps_cache (@raise A e).
Proof. by intros c o c' [= _ <-]. Qed.

Lemma keeps_cache_lift {A} (r : result A) : keeps_cache (lift r).
Proof. by intros c o c' [= _ <-]. Qed.

Lemma keeps_cache_out_of_fuel {A} : keeps_cache (@out_of_fuel A).
Proof. by intros c o c' [= _ <-]. Qed.

Lemma keeps_cache_dangling {A} : keeps_cache (@dangling A).
Proof. by intros c o c' [= _ <-]. Qed.

Lemma keeps_cache_unpack {A} (x : option A) : keeps_cache (unpack x).
Proof. destruct x; [apply keeps_cache_ret | apply keeps_cache_raise]. Qed.

Lemma keeps_cache_bind {A B} (m : M A) (k : A → M B) :
  keeps_cache m → (∀ a, keeps_cache (k a)) → keeps_cache (bind m k).
Proof.
  intros Hm Hk c o c'. unfold bind.
  destruct (m c) as [[[a|e]| |] c1] eqn:Hmc; specialize (Hm _ _ _ Hmc).
  - intros Hka. etrans; [done|]. by eapply Hk.
  - by intros [= _ <-].
  - by intros [= _ <-].
  - by intros [= _ <-].
Qed.

Lemma keeps_cache_try_except {A} (m : M A) catches (handler : M A) :
  keeps_cache m → keeps_cache handler →
  keeps_cache (try_except m catches handler).
Proof.
  intros Hm Hh c o c'. unfold try_except.
  destruct (m c) as [[[a|e]| |] c1] eqn:Hmc; specialize (Hm _ _ _ Hmc);
    try by intros [= _ <-].
  destruct (catches e).
  - intros Hhc. etrans; [done|]. by eapply Hh.
  - by intros [= _ <-].
Qed.

Ltac keeps_cache_step :=
  first
    [ apply keeps_cache_ret | apply keeps_cache_raise | apply keeps_cache_lift
    | apply keeps_cache_out_of_fuel | apply keeps_cache_dangling
    | apply keeps_cache_unpack
    | assumption
    | apply keeps_cache_bind; [|intros ?]
    | match goal with
      | |- keeps_cache (match ?x with _ => _ end) => destruct x
      | |- keeps_cache (if ?x then _ else _) => destruct x
      end ].

Lemma eval_unpack_keeps ev parent node :
  ev_keeps_cache ev → keeps_cache (LazyEval.eval_unpack ev parent node).
Proof.
  intros Hev. unfold LazyEval.eval_unpack.
  apply keeps_cache_bind; [apply Hev | intros; apply keeps_cache_unpack].
Qed.

Lemma get_body_keeps ev instance :
  ev_keeps_cache ev → keeps_cache (LazyEval.get_body h ev instance).
Proof.
  intros Hev c o c'. unfold LazyEval.get_body.
  destruct (c !! instance) as [v|] eqn:Hc; [by intros [= _ <-]|].
  destruct (options h !! instance) as [opt|]; [|by intros [= _ <-]].
  unfold bind.
  destruct (match Opt._acp_ast_node opt with
            | Some node => LazyEval.eval_unpack ev (Opt._acp_parent opt) node
            | None => raise RuntimeError
            end c) as [[[[val has_refs]|e]| |] c1] eqn:Hm.
  - assert (c ⊆ c1) as Hsub.
    { destruct (Opt._acp_ast_node opt).
      - by eapply eval_unpack_keeps.
      - by injection Hm as _ <-. }
    destruct has_refs; simpl.
    + by intros [= _ <-].
    + intros [= _ <-]. by apply insert_subseteq_r.
  - destruct (Opt._acp_ast_node opt).
    + intros [= _ <-]. by eapply eval_unpack_keeps.
    + injection Hm as _ <-. by intros [= _ <-].
  - destruct (Opt._acp_ast_node opt); [|discriminate].
    intros [= _ <-]. by eapply eval_unpack_keeps.
  - destruct (Opt._acp_ast_node opt); [|discriminate].
    intros [= _ <-]. by eapply eval_unpack_keeps.
Qed.

Lemma Section_getattribute_keeps ev self attr :
  ev_keeps_cache ev → keeps_cache (LazyEval.Section_getattribute h ev self attr).
Proof.
  intros Hev. unfold LazyEval.Section_getattribute.
  destruct (sections h !! self) as [sec|]; [|apply keeps_cache_dangling].
  destruct (LazyEval.object_getattribute sec attr) as [[[s|o]|v]|e].
  - apply keeps_cache_ret.
  - by apply get_body_keeps.
  - apply keeps_cache_ret.
  - apply keeps_cache_raise.
Qed.

Lemma getattr_path_keeps ev obj attrs :
  ev_keeps_cache ev → keeps_cache (LazyEval.getattr_path h ev obj attrs).
Proof.
  intros Hev. revert obj. induction attrs as [|attr rest IH]; intros obj; simpl.
  - apply keeps_cache_ret.
  - apply keeps_cache_bind; [|done].
    destruct obj; try apply keeps_cache_lift.
    by apply Section_getattribute_keeps.
Qed.

Lemma resolve_loop_keeps ev n attrs parent :
  ev_keeps_cache ev → keeps_cache (LazyEval.resolve_loop h ev n attrs parent).
Proof.
  intros Hev. revert parent.
  induction n as [|n IH]; intros [p|]; simpl;
    try apply keeps_cache_raise; try apply keeps_cache_out_of_fuel.
  apply keeps_cache_try_except; [by apply getattr_path_keeps|].
  destruct (sections h !! p); [apply IH | apply keeps_cache_dangling].
Qed.

Lemma eval_children_keeps ev parent children vals has_refs :
  ev_keeps_cache ev →
  keeps_cache (LazyEval.eval_children ev parent children vals has_refs).
Proof.
  intros Hev. revert vals has_refs.
  induction children as [|n rest IH]; intros vals has_refs; simpl.
  - apply keeps_cache_ret.
  - apply keeps_cache_bind; [apply Hev|]. intros [[v r]|]; apply IH.
Qed.

Lemma eval_args_keeps ev parent arg_nodes args has_refs :
  ev_keeps_cache ev →
  keeps_cache (LazyEval.eval_args ev parent arg_nodes args has_refs).
Proof.
  intros Hev. revert args has_refs.
  induction arg_nodes as [|n rest IH]; intros args has_refs; simpl.
  - apply keeps_cache_ret.
  - apply keeps_cache_bind; [by apply eval_unpack_keeps|].
    intros [v r]. apply IH.
Qed.

Lemma eval_keywords_keeps ev parent keywords kwargs has_refs :
  ev_keeps_cache ev →
  keeps_cache (LazyEval.eval_keywords ev parent keywords kwargs has_refs).
Proof.
  intros Hev. revert kwargs has_refs.
  induction keywords as [|[name n] rest IH]; intros kwargs has_refs; simpl.
  - apply keeps_cache_ret.
  - apply keeps_cache_bind; [by apply eval_unpack_keeps|].
    intros [v r]. apply IH.
Qed.

Lemma compare_loop_keeps ev parent ops comparators lhs has_refs :
  ev_keeps_cache ev →
  keeps_cache (LazyEval.compare_loop ev parent ops comparators lhs has_refs).
Proof.
  intros Hev. revert comparators lhs has_refs.
  induction ops as [|op ops IH]; intros [|n rest] lhs has_refs; simpl;
    try apply keeps_cache_ret.
  apply keeps_cache_bind; [by apply eval_unpack_keeps|].
  intros [v r]. apply keeps_cache_bind; [apply keeps_cache_lift|].
  intros [|]; [apply IH | apply keeps_cache_ret].
Qed.

Lemma and_loop_keeps ev parent values has_refs :
  ev_keeps_cache ev →
  keeps_cache (LazyEval.and_loop ev parent values has_refs).
Proof.
  intros Hev. revert has_refs.
  induction values as [|n rest IH]; intros has_refs; simpl.
  - apply keeps_cache_ret.
  - apply keeps_cache_bind; [by apply eval_unpack_keeps|].
    intros [v r]. destruct (negb (truthy v)); [apply keeps_cache_ret | apply IH].
Qed.

Lemma or_loop_keeps ev parent values has_refs :
  ev_keeps_cache ev →
  keeps_cache (LazyEval.or_loop ev parent values has_refs).
Proof.
  intros Hev. revert has_refs.
  induction values as [|n rest IH]; intros has_refs; simpl.
  - apply keeps_cache_ret.
  - apply keeps_cache_bind; [by apply eval_unpack_keeps|].
    intros [v r]. destruct (truthy v); [apply keeps_cache_ret | apply IH].
Qed.

Lemma eval_body_keeps ev walk :
  ev_keeps_cache ev → ev_keeps_cache (LazyEval.eval_body h ev walk).
Proof.
  intros Hev parent node. unfold LazyEval.eval_body.
  destruct (ast.literal_eval node) as [v|e]; [apply keeps_cache_ret|].
  assert (keeps_cache (LazyEval.eval_branches h ev walk parent node)) as Hbr.
  { pose proof (eval_unpack_keeps ev) as Hu.
    destruct node; unfold LazyEval.eval_branches;
      try apply keeps_cache_raise; try apply keeps_cache_ret.
    - (* Name *)
      apply keeps_cache_bind; [apply keeps_cache_lift|]. intros ref.
      apply keeps_cache_bind; [by apply resolve_loop_keeps|].
      intros; apply keeps_cache_ret.
    - (* Attribute *)
      apply keeps_cache_bind; [apply keeps_cache_lift|]. intros ref.
      apply keeps_cache_bind; [by apply resolve_loop_keeps|].
      intros; apply keeps_cache_ret.
    - (* BinOp *)
      apply keeps_cache_bind; [by apply Hu|]. intros [lhs lf].
      apply keeps_cache_bind; [by apply Hu|]. intros [rhs rf].
      repeat keeps_cache_step.
    - (* BoolOp *)
      destruct op; [by apply and_loop_keeps | by apply or_loop_keeps].
    - (* Compare *)
      apply keeps_cache_bind; [by apply Hu|]. intros [lhs lf].
      by apply compare_loop_keeps.
    - (* IfExp *)
      apply keeps_cache_bind; [by apply Hu|]. intros [tv tf].
      apply keeps_cache_bind; [destruct (truthy tv); by apply Hu|].
      intros [v f]. apply keeps_cache_ret.
    - (* List *)
      apply keeps_cache_bind; [by apply eval_children_keeps|].
      intros [vals f]. apply keeps_cache_ret.
    - (* Tuple *)
      apply keeps_cache_bind; [by apply eval_children_keeps|].
      intros [vals f]. apply keeps_cache_ret.
    - (* Dict *)
      apply keeps_cache_bind; [by apply eval_children_keeps|].
      intros [vals f]. apply keeps_cache_ret.
    - (* Call *)
      apply keeps_cache_bind; [apply keeps_cache_lift|]. intros id.
      destruct (in_whitelist id); [|apply keeps_cache_ret].
      apply keeps_cache_bind; [by apply eval_args_keeps|]. intros [avals af].
      apply keeps_cache_bind; [by apply eval_keywords_keeps|].
      intros [kwargs kf]. repeat keeps_cache_step. }
  destruct e; try apply keeps_cache_raise; exact Hbr.
Qed.

Lemma _acp_eval_keeps fuel : ev_keeps_cache (LazyEval._acp_eval h fuel).
Proof.
  induction fuel as [|fuel IH].
  - intros parent node. apply keeps_cache_out_of_fuel.
  - intros parent node. rewrite _acp_eval_S. by apply eval_body_keeps.
Qed.

(** X4.  Whatever a read, an evaluation or a resolution does (return, raise,
    run out of fuel), it only adds entries to the cache: an Option that was
    cached before is cached with the same value afterwards. *)
Theorem evaluation_keeps_cache fuel c j v :
  c !! j = Some v →
  (∀ instance o c',
     LazyEval.__get__ h fuel instance c = (o, c') → c' !! j = Some v)
  ∧ (∀ parent node o c',
     LazyEval._acp_eval h fuel parent node c = (o, c') → c' !! j = Some v)
  ∧ (∀ ref parent o c',
     LazyEval._acp_resolve_reference h fuel ref parent c = (o, c') →
     c' !! j = Some v).
Proof.
  intros Hj. split; [|split].
  - intros instance o c' Hget. eapply lookup_weaken; [done|].
    eapply get_body_keeps; [apply _acp_eval_keeps | done].
  - intros parent node o c' Hev. eapply lookup_weaken; [done|].
    by eapply _acp_eval_keeps.
  - intros ref parent o c' Hres. eapply lookup_weaken; [done|].
    eapply resolve_loop_keeps; [apply _acp_eval_keeps | done].
Qed.

End CacheGrows.

(** ** Writing to an Option *)

Section Writes.
Context `{Host}.

Implicit Types (h : heap) (c : cache) (fuel : nat).

(** X5.  Assigning a new expression to an Option empties its cache slot and
    replaces its node, whatever was cached before; the raw value is then
    the text of the new node, and the next read evaluates the new node in
    the Option's unchanged scope, caching it under the usual rule. *)
Theorem expression_write_resets h c instance o node :
  options h !! instance = Some o →
  let h' := (LazyEval.__set__ h c instance (LazyEval.AstNode node)).1 in
  let c' := (LazyEval.__set__ h c instance (LazyEval.AstNode node)).2 in
  c' !! instance = None
  ∧ sections h' = sections h
  ∧ (∃ o', options h' !! instance = Some o'
           ∧ Opt._acp_ast_node o' = Some node
           ∧ Opt._acp_parent o' = Opt._acp_parent o
           ∧ Opt._acp_name o' = Opt._acp_name o
           ∧ _acp_get_raw_value o' = ast_to_src node)
  ∧ (∀ fuel v f c2,
       LazyEval._acp_eval h' fuel (Opt._acp_parent o) node c'
       = (Done (Ret (Some (v, f))), c2) →
       LazyEval.__get__ h' fuel instance c'
       = (Done (Ret v), if f then c2 else <[instance := v]> c2)).
Proof.
  intros Ho. simpl.
  assert (alter (LazyEval.set_ast_node node) instance (options h) !! instance
          = Some (LazyEval.set_ast_node node o)) as Ho'.
  { by rewrite lookup_alter_eq, Ho. }
  split; [apply lookup_delete_eq|]. split; [done|]. split.
  - eexists. split; [exact Ho'|]. done.
  - intros fuel v f c2 Hev.
    eapply get_evaluates; [apply lookup_delete_eq | exact Ho' | done | done].
Qed.

(** X6.  A write to one Option, static or expression, touches no other Option:
    neither its cache slot nor its object, and no section. *)
Theorem write_frame h c instance w j :
  j ≠ instance →
  (LazyEval.__set__ h c instance w).2 !! j = c !! j
  ∧ options (LazyEval.__set__ h c instance w).1 !! j = options h !! j
  ∧ sections (LazyEval.__set__ h c instance w).1 = sections h.
Proof.
  intros Hj. destruct w as [node|v]; simpl.
  - split; [by apply lookup_delete_ne|]. split; [|done].
    by apply lookup_alter_ne.
  - split; [by apply lookup_insert_ne|]. done.
Qed.

End Writes.

(** ** Dotted names *)

Section DottedNames.

Lemma str_app_cons x (a b : string) : String x a +:+ b = String x (a +:+ b).
Proof. reflexivity. Qed.

Lemma str_app_assoc (a b c : string) : (a +:+ b) +:+ c = a +:+ b +:+ c.
Proof.
  induction a as [|x a IH]; [done|]. by rewrite !str_app_cons, IH.
Qed.

Lemma str_app_nil_r (a : string) : a +:+ "" = a.
Proof. induction a as [|x a IH]; [done|]. by rewrite str_app_cons, IH. Qed.

(** the text after the first name of a dotted name *)
Lemma dotted_ref_chain attrs base acc :
  LazyEval.dotted_ref (fold_left ast.Attribute attrs base) acc
  = LazyEval.dotted_ref base
      (fold_right (λ a r, "." +:+ a +:+ r) acc attrs).
Proof.
  revert base acc. induction attrs as [|a rest IH]; intros base acc; [done|].
  simpl. by rewrite IH.
Qed.

Lemma str_split_no_dot w :
  no_dot w = true → str_split "." w = [w].
Proof.
  unfold no_dot. induction w as [|x w IH]; simpl; [done|].
  rewrite negb_orb. intros [Hx Hw]%andb_true_iff.
  apply negb_true_iff in Hx. rewrite Hx. by rewrite (IH Hw).
Qed.

Lemma str_split_no_dot_app w rest :
  no_dot w = true →
  str_split "." (w +:+ String "." rest) = w :: str_split "." rest.
Proof.
  unfold no_dot. induction w as [|x w IH]; [done|].
  rewrite str_app_cons. simpl.
  rewrite negb_orb. intros [Hx Hw]%andb_true_iff.
  apply negb_true_iff in Hx. rewrite Hx. by rewrite (IH Hw).
Qed.

Lemma str_split_dotted id attrs :
  no_dot id = true → forallb no_dot attrs = true →
  str_split "." (id +:+ fold_right (λ a r, "." +:+ a +:+ r) "" attrs)
  = id :: attrs.
Proof.
  revert id. induction attrs as [|a rest IH]; intros id Hid; simpl.
  - intros _. rewrite str_app_nil_r. by apply str_split_no_dot.
  - intros [Ha Hrest]%andb_true_iff.
    change ("." +:+ a +:+ ?r) with (String "." (a +:+ r)).
    rewrite (str_split_no_dot_app _ _ Hid). by rewrite (IH _ Ha Hrest).
Qed.

(** X7.  The reference string the evaluator builds from a [Name]/[Attribute]
    chain and then splits at the dots gives back the names of the chain, in
    order, as long as no name contains a dot. *)
Theorem dotted_name_round_trip id attrs :
  no_dot id = true → forallb no_dot attrs = true →
  ∃ ref, LazyEval.dotted_ref (attribute_chain id attrs) "" = Ret ref
         ∧ str_split "." ref = id :: attrs.
Proof.
  intros Hid Hattrs. eexists. split.
  - unfold attribute_chain. rewrite dotted_ref_chain. reflexivity.
  - by apply str_split_dotted.
Qed.

Lemma dotted_ref_src node acc ref :
  LazyEval.dotted_ref node acc = Ret ref →
  ∃ s, ast_to_src node = Ret s ∧ ref = s +:+ acc.
Proof.
  revert acc. induction node; intros acc; simpl; try discriminate.
  - intros [= <-]. by eexists.
  - intros (s & Hs & ->)%IHnode. rewrite Hs. simpl. eexists. split; [done|].
    by rewrite !str_app_assoc.
Qed.

(** X8.  The serializer and the evaluator agree on references: the text
    [ast_to_src] writes for a [Name]/[Attribute] chain is exactly the
    dotted path the evaluator hands to the resolver. *)
Theorem reference_source_is_resolved_path node ref :
  LazyEval.dotted_ref node "" = Ret ref → ast_to_src node = Ret ref.
Proof.
  intros (s & Hs & ->)%dotted_ref_src. by rewrite str_app_nil_r.
Qed.

End DottedNames.

(** ** Attribute lookup on a Section *)

Section AttributeLookup.
Context `{Host} (h : heap).

Implicit Types (c : cache).
Implicit Types (ev : option sec_id → ast.node → M (option (value * bool))).

Lemma object_getattribute_child sec attr ch :
  data_descriptor attr = false →
  Sec.children sec !! attr = Some ch →
  LazyEval.object_getattribute sec attr = Ret (inl ch).
Proof. unfold LazyEval.object_getattribute. by intros -> ->. Qed.

Lemma object_getattribute_descriptor sec attr :
  data_descriptor attr = true →
  LazyEval.object_getattribute sec attr
  = match host_class_attr attr with
    | Some v => Ret (inr v)
    | None => Raise AttributeError
    end.
Proof. unfold LazyEval.object_getattribute. by intros ->. Qed.

Lemma Section_getattribute_option ev self sec attr o :
  sections h !! self = Some sec →
  data_descriptor attr = false →
  Sec.children sec !! attr = Some (ChildOption o) →
  LazyEval.Section_getattribute h ev self attr = LazyEval.get_body h ev o.
Proof.
  intros Hsec Hattr Hchild. unfold LazyEval.Section_getattribute.
  by rewrite Hsec, (object_getattribute_child _ _ _ Hattr Hchild).
Qed.

Lemma Section_getattribute_section ev self sec attr s :
  sections h !! self = Some sec →
  data_descriptor attr = false →
  Sec.children sec !! attr = Some (ChildSection s) →
  LazyEval.Section_getattribute h ev self attr = ret (VSection s).
Proof.
  intros Hsec Hattr Hchild. unfold LazyEval.Section_getattribute.
  by rewrite Hsec, (object_getattribute_child _ _ _ Hattr Hchild).
Qed.

Lemma Section_getattribute_descriptor ev self sec attr c :
  sections h !! self = Some sec →
  data_descriptor attr = true →
  LazyEval.Section_getattribute h ev self attr c
  = (Done (match host_class_attr attr with
           | Some v => Ret v
           | None => Raise AttributeError
           end), c).
Proof.
  intros Hsec Hattr. unfold LazyEval.Section_getattribute.
  rewrite Hsec, (object_getattribute_descriptor _ _ Hattr).
  by destruct (host_class_attr attr).
Qed.

End AttributeLookup.

(** ** Errors inside a referenced Option *)

Section MaskedErrors.
Context `{Host} (h : heap).

Implicit Types (c : cache) (fuel : nat).

(** X9.  The resolver's [try] also covers the evaluation of the Option a path
    leads to.  When the first segment of the path is the name of an Option
    of the current scope (a name other than [__class__], [__dict__] and
    [__weakref__], under which attribute access never reaches the Option)
    and reading that Option raises a [KeyError] or an [AttributeError] (its
    own unresolved reference, say), the resolver takes the scope for a miss
    and goes on with the parent scope, whatever the rest of the path; from
    the root the caller gets the resolver's own [AttributeError]. *)
Theorem resolver_masks_option_errors fuel p sec ref name rest o c e c1 :
  sections h !! p = Some sec →
  str_split "." ref = name :: rest →
  data_descriptor name = false →
  Sec.children sec !! name = Some (ChildOption o) →
  LazyEval.__get__ h fuel o c = (Done (Raise e), c1) →
  key_or_attribute_error e = true →
  (∀ n, LazyEval.resolve_loop h (LazyEval._acp_eval h fuel) (S n)
          (name :: rest) (Some p) c
        = LazyEval.resolve_loop h (LazyEval._acp_eval h fuel) n
            (name :: rest) (Sec._acp_parent sec) c1)
  ∧ (Sec._acp_parent sec = None → 0 < fuel →
     LazyEval._acp_resolve_reference h fuel ref (Some p) c
     = (Done (Raise AttributeError), c1)).
Proof.
  intros Hsec Hsplit Hname Hchild Hget He.
  assert (∀ n, LazyEval.resolve_loop h (LazyEval._acp_eval h fuel) (S n)
                 (name :: rest) (Some p) c
               = LazyEval.resolve_loop h (LazyEval._acp_eval h fuel) n
                   (name :: rest) (Sec._acp_parent sec) c1) as Hstep.
  { intros n. simpl. unfold try_except, bind.
    rewrite (Section_getattribute_option h _ _ _ _ _ Hsec Hname Hchild).
    unfold LazyEval.__get__ in Hget. by rewrite Hget, He, Hsec. }
  split; [done|].
  intros Hroot Hfuel. unfold LazyEval._acp_resolve_reference,
    LazyEval.resolve_body. rewrite Hsplit.
  destruct fuel as [|n]; [lia|]. rewrite Hstep, Hroot.
  by destruct n.
Qed.

End MaskedErrors.

(** ** When the serializer fails *)

Section Renderable.

Lemma is_ret_rbind {A B} (m : result A) (k : A → result B) :
  is_ret (rbind m k) = match m with
                       | Ret a => is_ret (k a)
                       | Raise _ => false
                       end.
Proof. by destruct m. Qed.

Lemma is_ret_mapR {A B} (f : A → result B) (g : A → bool) (l : list A) :
  Forall (λ x, is_ret (f x) = g x) l →
  is_ret (mapR f l) = forallb g l.
Proof.
  induction 1 as [|x l Hx _ IH]; [done|]. simpl.
  rewrite <- Hx, <- IH. destruct (f x); [|done]. simpl.
  by destruct (mapR f l).
Qed.

Lemma mapR_length {A B} (f : A → result B) (l : list A) ys :
  mapR f l = Ret ys → length ys = length l.
Proof.
  revert ys. induction l as [|x l IH]; intros ys; simpl.
  - by intros [= <-].
  - destruct (f x); [|discriminate]. simpl.
    destruct (mapR f l) as [ys'|]; [|discriminate]. simpl.
    intros [= <-]. simpl. by rewrite (IH ys').
Qed.

Lemma is_ret_quote_str s :
  is_ret (quote_str s)
  = negb (re_search_unescaped apostrophe false s
          && re_search_unescaped double_quote false s).
Proof.
  unfold quote_str.
  by destruct (re_search_unescaped apostrophe false s),
    (re_search_unescaped double_quote false s).
Qed.

Lemma is_ret_ast_to_src n : is_ret (ast_to_src n) = renderable n.
Proof.
  revert n. fix IH 1. intros n.
  assert (∀ l, Forall (λ x, is_ret (ast_to_src x) = renderable x) l) as IHl.
  { intros l. induction l as [|x l IHl]; constructor; [apply IH | exact IHl]. }
  destruct n as [z|s|k|id|v attr|op operand|l op r|op values
                |l ops comparators|t b o|elts|elts|keys values
                |func args keywords|]; simpl.
  - done.
  - apply is_ret_quote_str.
  - done.
  - done.
  - rewrite is_ret_rbind, <- (IH v). by destruct (ast_to_src v).
  - rewrite is_ret_rbind, <- (IH operand). by destruct (ast_to_src operand).
  - rewrite <- (IH l), <- (IH r).
    destruct (ast_to_src l); [|done]. simpl.
    destruct (ast_to_src r); [|done]. simpl. by destruct op.
  - rewrite is_ret_rbind, <- (is_ret_mapR _ _ _ (IHl values)).
    destruct (mapR ast_to_src values); [|done]. by destruct op.
  - rewrite <- (IH l). destruct (ast_to_src l) as [s|]; [|done]. simpl.
    rewrite is_ret_rbind.
    match goal with
    | |- match ?go ops comparators s with _ => _ end = ?go' ops comparators =>
        assert (is_ret (go ops comparators s) = go' ops comparators) as Hgo
    end.
    { revert ops s. induction comparators as [|x rest IHc]; intros ops s.
      - by destruct ops.
      - destruct ops as [|o ops']; [done|].
        rewrite is_ret_rbind, <- (IH x).
        destruct (ast_to_src x); [|done]. simpl. apply IHc. }
    rewrite <- Hgo.
    match goal with |- match ?x with _ => _ end = _ => by destruct x end.
  - rewrite <- (IH b), <- (IH t), <- (IH o).
    destruct (ast_to_src b); [|done]. simpl.
    destruct (ast_to_src t); [|done]. simpl.
    by destruct (ast_to_src o).
  - rewrite is_ret_rbind, <- (is_ret_mapR _ _ _ (IHl elts)).
    by destruct (mapR ast_to_src elts).
  - destruct elts as [|e [|e2 rest]].
    + done.
    + simpl. rewrite andb_true_r, is_ret_rbind, <- (IH e).
      by destruct (ast_to_src e).
    + rewrite is_ret_rbind, <- (is_ret_mapR _ _ _ (IHl (e :: e2 :: rest))).
      by destruct (mapR ast_to_src (e :: e2 :: rest)).
  - rewrite <- (is_ret_mapR _ _ _ (IHl keys)),
      <- (is_ret_mapR _ _ _ (IHl values)).
    destruct (mapR ast_to_src keys) as [ks|] eqn:Hks; [|done]. simpl.
    destruct (mapR ast_to_src values) as [vs|] eqn:Hvs; [|done]. simpl.
    rewrite (mapR_length _ _ _ Hks), (mapR_length _ _ _ Hvs).
    destruct (length keys =? length values)%nat; simpl; [|done].
    by destruct (length keys =? 0)%nat.
  - rewrite <- (is_ret_mapR _ _ _ (IHl args)), <- (IH func).
    destruct (mapR ast_to_src args); [|done]. simpl.
    assert (Forall (λ kw : string * ast.node,
              is_ret (let '(arg, value) := kw in
                      let+ v := ast_to_src value in
                      Ret (arg +:+ "=" +:+ v))
              = (let '(_, v) := kw in renderable v)) keywords) as Hkw.
    { induction keywords as [|[arg value] rest IHk]; constructor; [|exact IHk].
      rewrite is_ret_rbind, <- (IH value). by destruct (ast_to_src value). }
    rewrite <- (is_ret_mapR _ _ _ Hkw).
    match goal with
    | |- is_ret (let+ _ := ?m in _) = _ => destruct m; [|done]
    end.
    simpl. by destruct (ast_to_src func).
  - done.
Qed.

(** X10.  On the expressions of the model that stay within the
    interpreter's limits (nested less than 100 deep, integer literals of at
    most 4300 digits), [ast_to_src] returns text exactly for the renderable
    nodes: it fails if and only if what it has to render contains a string
    with both kinds of quote unescaped, the operator [@], a dict with
    unequal numbers of keys and values, or a node that is no expression. *)
Theorem ast_to_src_succeeds_iff_renderable n :
  within_limits 100 n = true →
  (∃ s, ast_to_src n = Ret s) ↔ renderable n = true.
Proof.
  intros _.
  rewrite <- is_ret_ast_to_src. destruct (ast_to_src n) as [s|e]; simpl.
  - split; [done | by exists s].
  - split; [by intros [s Hs] | done].
Qed.

End Renderable.

(** ** The text of a dict *)

Section DictText.

Lemma str_length_app (a b : string) :
  String.length (a +:+ b) = String.length a + String.length b.
Proof.
  induction a as [|x a IH]; [done|]. rewrite str_app_cons. simpl.
  by rewrite IH.
Qed.

Lemma substring_app_l (a b : string) :
  String.substring 0 (String.length a) (a +:+ b) = a.
Proof.
  induction a as [|x a IH].
  - simpl. by destruct b.
  - rewrite str_app_cons. simpl. by rewrite IH.
Qed.

Lemma drop_last2_app (a : string) : drop_last2 (a +:+ ", ") = a.
Proof.
  unfold drop_last2. rewrite str_length_app. simpl.
  replace (String.length a + 2 - 2) with (String.length a) by lia.
  apply substring_app_l.
Qed.

Lemma dict_fold_concat (p : string * string) (pairs : list (string * string))
    (acc : string) :
  fold_left (λ s kv, s +:+ kv.1 +:+ ": " +:+ kv.2 +:+ ", ") (p :: pairs) acc
  = (acc +:+ String.concat ", "
               (map (λ kv, kv.1 +:+ ": " +:+ kv.2) (p :: pairs)))
    +:+ ", ".
Proof.
  revert p acc. induction pairs as [|q rest IH]; intros p acc.
  - simpl. by rewrite !str_app_assoc.
  - change (fold_left ?f (p :: q :: rest) acc)
      with (fold_left f (q :: rest) (f acc p)).
    rewrite IH.
    change (String.concat ", " (map ?g (p :: q :: rest)))
      with (g p +:+ ", " +:+ String.concat ", " (map g (q :: rest))).
    simpl. by rewrite !str_app_assoc.
Qed.

Lemma dict_text_nonempty (p : string * string)
    (pairs : list (string * string)) :
  drop_last2
    (fold_left (λ s kv, s +:+ kv.1 +:+ ": " +:+ kv.2 +:+ ", ")
       (p :: pairs) "{ ") +:+ " }"
  = "{ " +:+ String.concat ", "
               (map (λ kv, kv.1 +:+ ": " +:+ kv.2) (p :: pairs)) +:+ " }".
Proof.
  rewrite dict_fold_concat, drop_last2_app. by rewrite str_app_assoc.
Qed.

(** X11.  A dict with at least one item is written as its items [key: value],
    separated by a comma and a space, between [{ ] and [ }]: the text has
    no trailing comma.  An empty dict is written [{}]. *)
Theorem dict_source_text keys values ks vs :
  mapR ast_to_src keys = Ret ks →
  mapR ast_to_src values = Ret vs →
  length ks = length vs →
  ast_to_src (ast.Dict keys values)
  = Ret (match zip_pairs ks vs with
         | [] => "{}"
         | items =>
             "{ " +:+ String.concat ", "
                        (map (λ kv, kv.1 +:+ ": " +:+ kv.2) items)
             +:+ " }"
         end).
Proof.
  intros Hks Hvs Hlen.
  match goal with |- _ = ?rhs => set (text := rhs) end.
  simpl. rewrite Hks, Hvs. simpl. rewrite Hlen, Nat.eqb_refl. simpl.
  subst text.
  destruct ks as [|k ks'], vs as [|v vs']; try discriminate; [done|].
  replace (length (v :: vs') =? 0)%nat with false by reflexivity.
  f_equal. apply (dict_text_nonempty (k, v)).
Qed.

End DictText.

(** ** Adding a child to a section *)

Section AddChild.
Context `{Host}.

Implicit Types (h : heap) (c : cache).

Lemma child_name_relabel h self level ch :
  child_name (relabel_child h self level ch) ch = child_name h ch.
Proof.
  destruct ch as [s|o]; simpl.
  - rewrite lookup_alter_eq. by destruct (sections h !! s).
  - rewrite lookup_alter_eq. by destruct (options h !! o).
Qed.

Lemma relabel_child_self h self sec level ch :
  sections h !! self = Some sec →
  ∃ sec1, sections (relabel_child h self level ch) !! self = Some sec1
          ∧ Sec.children sec1 = Sec.children sec
          ∧ Sec._acp_order sec1 = Sec._acp_order sec
          ∧ Sec._acp_name sec1 = Sec._acp_name sec.
Proof.
  intros Hsec. destruct ch as [s|o]; simpl.
  - destruct (decide (s = self)) as [->|Hne].
    + rewrite lookup_alter_eq, Hsec. by eexists.
    + rewrite lookup_alter_ne by done. by eexists.
  - by eexists.
Qed.

Lemma in_dict_children sec sec1 name :
  Sec.children sec1 = Sec.children sec → in_dict sec1 name = in_dict sec name.
Proof. unfold in_dict. by intros ->. Qed.

(** X12.  Adding a child under a name the section does not have yet succeeds;
    afterwards the name leads to the child in the section's [__dict__], the
    other names lead where they did, and the name is last in the section's
    order.  A sub-section added this way is what attribute access and the
    resolver find under that name, unless the name is [__class__],
    [__dict__] or [__weakref__]: such a child is accepted as well, but
    attribute access keeps answering from the class and never reaches it. *)
Theorem add_child_then_lookup h self sec ch name :
  sections h !! self = Some sec →
  child_name h ch = Some name →
  in_dict sec name = false →
  ∃ h' sec',
    _acp_add_child h self ch = Some (Ret tt, h')
    ∧ sections h' !! self = Some sec'
    ∧ Sec.children sec' !! name = Some ch
    ∧ (∀ other, other ≠ name →
         Sec.children sec' !! other = Sec.children sec !! other)
    ∧ Sec._acp_order sec' = Sec._acp_order sec ++ [name]
    ∧ (∀ s ev c, ch = ChildSection s → data_descriptor name = false →
         LazyEval.Section_getattribute h' ev self name c
         = (Done (Ret (VSection s)), c))
    ∧ (∀ s fuel c, ch = ChildSection s → data_descriptor name = false →
         no_dot name = true →
         LazyEval._acp_resolve_reference h' (S fuel) name (Some self) c
         = (Done (Ret (VSection s)), c))
    ∧ (∀ ev c, data_descriptor name = true →
         LazyEval.Section_getattribute h' ev self name c
         = (Done (match host_class_attr name with
                  | Some v => Ret v
                  | None => Raise AttributeError
                  end), c)).
Proof.
  intros Hsec Hname Hfree. unfold _acp_add_child.
  rewrite Hsec, Hname. simpl. rewrite child_name_relabel, Hname. simpl.
  destruct (relabel_child_self h self sec
              (Sec._acp_nesting_level sec + 1) ch Hsec)
    as (sec1 & Hsec1 & Hch1 & Hord1 & Hname1).
  rewrite Hsec1. simpl. rewrite (in_dict_children _ _ _ Hch1), Hfree.
  set (h' := {| sections := <[self:=sec_insert_child name ch sec1]>
                              (sections (relabel_child h self
                                 (Sec._acp_nesting_level sec + 1) ch));
                options := options (relabel_child h self
                                 (Sec._acp_nesting_level sec + 1) ch) |}).
  assert (sections h' !! self = Some (sec_insert_child name ch sec1))
    as Hsec' by apply lookup_insert_eq.
  assert (Sec.children (sec_insert_child name ch sec1) !! name = Some ch)
    as Hch' by apply lookup_insert_eq.
  exists h', (sec_insert_child name ch sec1).
  split; [reflexivity|]. split; [exact Hsec'|]. split; [exact Hch'|].
  split; [intros other Hother; simpl; by rewrite lookup_insert_ne, Hch1|].
  split; [simpl; by rewrite Hord1|].
  assert (∀ s ev c, ch = ChildSection s → data_descriptor name = false →
            LazyEval.Section_getattribute h' ev self name c
            = (Done (Ret (VSection s)), c)) as Hattr.
  { intros s ev c Hs Hdd.
    assert (Sec.children (sec_insert_child name ch sec1) !! name
            = Some (ChildSection s)) as Hch'' by (by rewrite Hch', Hs).
    by rewrite (Section_getattribute_section h' ev _ _ _ _ Hsec' Hdd Hch''). }
  split; [exact Hattr|]. split.
  - intros s fuel c Hs Hdd Hdot.
    unfold LazyEval._acp_resolve_reference, LazyEval.resolve_body.
    rewrite (str_split_no_dot _ Hdot). simpl.
    unfold try_except, bind. by rewrite (Hattr s _ c Hs Hdd).
  - intros ev c Hdd.
    apply (Section_getattribute_descriptor h' ev _ _ _ c Hsec' Hdd).
Qed.

(** X13.  A child whose name the section already has (another child, or one of
    the four bookkeeping attributes) is refused with a [SyntaxError], and
    the section keeps its children and its order.  The child itself has
    been relabelled by then: the refusal comes after the assignments. *)
Theorem add_child_duplicate h self sec ch name :
  sections h !! self = Some sec →
  child_name h ch = Some name →
  in_dict sec name = true →
  ∃ h' sec',
    _acp_add_child h self ch = Some (Raise SyntaxError, h')
    ∧ h' = relabel_child h self (Sec._acp_nesting_level sec + 1) ch
    ∧ sections h' !! self = Some sec'
    ∧ Sec.children sec' = Sec.children sec
    ∧ Sec._acp_order sec' = Sec._acp_order sec.
Proof.
  intros Hsec Hname Hdup. unfold _acp_add_child.
  rewrite Hsec, Hname. simpl. rewrite child_name_relabel, Hname. simpl.
  destruct (relabel_child_self h self sec
              (Sec._acp_nesting_level sec + 1) ch Hsec)
    as (sec1 & Hsec1 & Hch1 & Hord1 & Hname1).
  rewrite Hsec1. simpl. rewrite (in_dict_children _ _ _ Hch1), Hdup.
  by eexists _, _.
Qed.

(** X14.  Whether the child is accepted or refused, an Option handed to
    [_acp_add_child] gets the section's nesting level plus one, and gets the
    section as its parent only if it had no parent: an Option that already
    belongs to a section keeps resolving its references from there. *)
Theorem add_child_relabels_option h self sec o opt r h' :
  sections h !! self = Some sec →
  options h !! o = Some opt →
  _acp_add_child h self (ChildOption o) = Some (r, h') →
  ∃ opt', options h' !! o = Some opt'
          ∧ Opt._acp_nesting_level opt' = (Sec._acp_nesting_level sec + 1)%Z
          ∧ Opt._acp_parent opt'
            = Some (default self (Opt._acp_parent opt))
          ∧ Opt._acp_ast_node opt' = Opt._acp_ast_node opt
          ∧ Opt._acp_name opt' = Opt._acp_name opt.
Proof.
  intros Hsec Hopt. unfold _acp_add_child. rewrite Hsec. simpl.
  rewrite Hopt. simpl. rewrite lookup_alter_eq, Hopt. simpl. rewrite Hsec.
  simpl.
  assert (alter (opt_relabel (Sec._acp_nesting_level sec + 1) self) o
            (options h) !! o
          = Some (opt_relabel (Sec._acp_nesting_level sec + 1) self opt))
    as Ho'.
  { by rewrite lookup_alter_eq, Hopt. }
  destruct (in_dict sec (Opt._acp_name opt)); intros [= _ <-]; simpl;
    (eexists; split; [exact Ho'|]); simpl;
    by destruct (Opt._acp_parent opt).
Qed.

End AddChild.

(** ** Printing a section *)

Section Printing.
Context `{Host} (h : heap).

Implicit Types (c : cache) (fuel : nat).
Implicit Types (ev : option sec_id → ast.node → M (option (value * bool))).

Lemma pretty_print_S fuel self sec indent do_indent :
  sections h !! self = Some sec →
  pretty_print h (S fuel) self indent do_indent
  = pretty_print_entries h (LazyEval._acp_eval h fuel)
      (λ t i, pretty_print h fuel t i true) self
      (body_indent sec indent do_indent) (Sec._acp_order sec)
      (start_text sec indent).
Proof. intros Hsec. simpl. by rewrite Hsec. Qed.

Lemma bind_assoc_at {A B C} (m : M A) (k : A → M B) (k' : B → M C) c :
  bind (bind m k) k' c = bind m (λ a, bind (k a) k') c.
Proof. unfold bind. by destruct (m c) as [[[a|e]| |] c1]. Qed.

Lemma pretty_print_entries_cons ev pp_rec self indent x rest s c :
  pretty_print_entries h ev pp_rec self indent (x :: rest) s c
  = bind (print_entry h ev pp_rec self indent x s)
         (pretty_print_entries h ev pp_rec self indent rest) c.
Proof.
  unfold print_entry. simpl.
  destruct (String.eqb x newline_str); [done|].
  destruct (String.prefix "#" (str_strip x)); [done|].
  unfold bind.
  destruct (LazyEval.Section_getattribute h ev self x c)
    as [[[child|e]| |] c1]; try done.
  destruct child as [ |b|n|str|l|l|items|t|repr truth];
    try (destruct (raw_option h ev self x c1) as [[[raw|e]| |] c2]; try done;
         destruct (format_value h raw c2) as [[[txt|e]| |] c3]; done).
  destruct (print_child h ev pp_rec indent t c1) as [[[txt|e]| |] c2];
    try done.
  by destruct (str_iadd s txt c2) as [[[s'|e]| |] c3].
Qed.

Lemma pretty_print_entries_app ev pp_rec self indent l1 l2 s c :
  pretty_print_entries h ev pp_rec self indent (l1 ++ l2) s c
  = bind (pretty_print_entries h ev pp_rec self indent l1 s)
         (pretty_print_entries h ev pp_rec self indent l2) c.
Proof.
  revert s c. induction l1 as [|x l1 IH]; intros s c; [done|].
  rewrite <- app_comm_cons, pretty_print_entries_cons.
  unfold bind at 2. rewrite pretty_print_entries_cons. unfold bind.
  by destruct (print_entry h ev pp_rec self indent x s c)
    as [[[s1|e]| |] c1].
Qed.

Lemma print_entry_child ev pp_rec self indent name s c :
  is_child_entry name = true →
  print_entry h ev pp_rec self indent name s c
  = bind (LazyEval.Section_getattribute h ev self name)
      (λ child,
         match child with
         | VSection t =>
             let* txt := print_child h ev pp_rec indent t in
             str_iadd s txt
         | _ =>
             let* child_raw := raw_option h ev self name in
             let* option_raw := format_value h child_raw in
             ret (s +:+ str_times " " indent +:+ name +:+ " = "
                    +:+ option_raw +:+ newline_str)
         end) c.
Proof.
  unfold is_child_entry. intros [Hnl Hcomment]%andb_true_iff.
  apply negb_true_iff in Hnl, Hcomment. unfold print_entry. simpl.
  rewrite Hnl, Hcomment. unfold bind.
  destruct (LazyEval.Section_getattribute h ev self name c)
    as [[[child|e]| |] c1]; try done.
  destruct child as [ |b|n|str|l|l|items|t|repr truth];
    try (destruct (raw_option h ev self name c1) as [[[raw|e]| |] c2];
         try done;
         destruct (format_value h raw c2) as [[[txt|e]| |] c3]; done).
  destruct (print_child h ev pp_rec indent t c1) as [[[txt|e]| |] c2];
    try done.
  by destruct (str_iadd s txt c2) as [[[s'|e]| |] c3].
Qed.

(** the entry at [name], after the entries before it have been printed *)
Lemma pretty_print_at fuel self sec indent do_indent pre name post c s1 c1 :
  sections h !! self = Some sec →
  Sec._acp_order sec = pre ++ name :: post →
  pretty_print_entries h (LazyEval._acp_eval h fuel)
    (λ t i, pretty_print h fuel t i true) self
    (body_indent sec indent do_indent) pre (start_text sec indent) c
  = (Done (Ret s1), c1) →
  pretty_print h (S fuel) self indent do_indent c
  = bind (print_entry h (LazyEval._acp_eval h fuel)
            (λ t i, pretty_print h fuel t i true) self
            (body_indent sec indent do_indent) name s1)
      (pretty_print_entries h (LazyEval._acp_eval h fuel)
         (λ t i, pretty_print h fuel t i true) self
         (body_indent sec indent do_indent) post) c1.
Proof.
  intros Hsec Horder Hpre.
  rewrite (pretty_print_S _ _ _ _ _ Hsec), Horder.
  rewrite pretty_print_entries_app, (bind_ret _ _ _ _ _ Hpre).
  apply pretty_print_entries_cons.
Qed.

Lemma Section_method_found ev self sec name c :
  sections h !! self = Some sec →
  Sec.children sec !! name = None →
  Section_method h ev self name c = (Done (Ret None), c).
Proof. intros Hsec Hname. unfold Section_method. by rewrite Hsec, Hname. Qed.

Lemma Section_method_shadowed ev self sec name t c :
  sections h !! self = Some sec →
  data_descriptor name = false →
  Sec.children sec !! name = Some (ChildSection t) →
  Section_method h ev self name c = (Done (Ret (Some (VSection t))), c).
Proof.
  intros Hsec Hdd Hname. unfold Section_method. rewrite Hsec, Hname.
  by rewrite (Section_getattribute_section h ev _ _ _ _ Hsec Hdd Hname).
Qed.

(** X15.  [dump] and [pretty_print] give the same text for the root section
    when the lookup of [pretty_print] reaches the method: the flag
    [do_indent] is only looked at below a header, which the root does not
    have, and the sub-sections are printed with the default flag.  The
    same holds of the calls [config.dump()] and [config.pretty_print()]
    when the root has no child named [dump] either.  A sub-section named
    [pretty_print] is found in place of the method: [dump] then raises a
    [TypeError] and prints nothing. *)
Theorem dump_root_is_pretty_print fuel self sec :
  sections h !! self = Some sec →
  Sec._acp_name sec = "<global>" →
  (Sec.children sec !! "pretty_print" = None →
   dump h fuel self
   = (let* txt := pretty_print h fuel self 0 true in ret (VStr txt))
   ∧ (Sec.children sec !! "dump" = None →
      call_dump h fuel self = call_pretty_print h fuel self))
  ∧ (∀ t c, Sec.children sec !! "pretty_print" = Some (ChildSection t) →
       dump h fuel self c = (Done (Raise TypeError), c)).
Proof.
  intros Hsec Hname.
  assert (pretty_print h fuel self 0 false = pretty_print h fuel self 0 true)
    as Hflag.
  { destruct fuel as [|fuel]; [done|].
    rewrite !(pretty_print_S _ _ _ _ _ Hsec).
    unfold body_indent, is_named. by rewrite Hname. }
  split.
  - intros Hpp.
    assert (dump h fuel self
            = (let* txt := pretty_print h fuel self 0 true in ret (VStr txt)))
      as Hdump.
    { unfold dump, Section_method. by rewrite Hsec, Hpp, Hflag. }
    split; [exact Hdump|].
    intros Hd. unfold call_dump, call_pretty_print, Section_method.
    by rewrite Hsec, Hd, Hpp, Hdump.
  - intros t c Hpp. unfold dump.
    by rewrite (bind_ret _ _ _ _ _
                  (Section_method_shadowed _ _ _ "pretty_print" _ c Hsec
                     eq_refl Hpp)).
Qed.

Lemma print_entry_prefix ev pp_rec self indent x s c out c' :
  print_entry h ev pp_rec self indent x s c = (Done (Ret out), c') →
  ∃ t, out = s +:+ t.
Proof.
  unfold print_entry. simpl.
  destruct (String.eqb x newline_str).
  { intros [= <- _]. by eexists. }
  destruct (String.prefix "#" (str_strip x)).
  { intros [= <- _]. by eexists. }
  intros (child & c1 & _ & Hk)%bind_inv.
  destruct child;
    try (apply bind_inv in Hk as (raw & c2 & _ & Hk);
         apply bind_inv in Hk as (txt & c3 & _ & Hk);
         injection Hk as <- _; by eexists).
  apply bind_inv in Hk as (txt & c2 & _ & Hk).
  apply bind_inv in Hk as (s' & c3 & Hadd & Hk). injection Hk as <- _.
  destruct txt; try discriminate. injection Hadd as <- _. by eexists.
Qed.

Lemma pretty_print_entries_prefix ev pp_rec self indent order s c out c' :
  pretty_print_entries h ev pp_rec self indent order s c
  = (Done (Ret out), c') →
  ∃ t, out = s +:+ t.
Proof.
  revert s c. induction order as [|x rest IH]; intros s c.
  - intros [= <- _]. exists ""%string. by rewrite str_app_nil_r.
  - rewrite pretty_print_entries_cons.
    intros (s1 & c1 & [t1 ->]%print_entry_prefix & [t ->]%IH)%bind_inv.
    eexists. by rewrite str_app_assoc.
Qed.

(** X16.  The text of a section other than the root starts with its header
    line: the indentation, the name between as many brackets as the
    section's nesting level, and a newline. *)
Theorem pretty_print_starts_with_header fuel self sec indent do_indent c
    out c' :
  sections h !! self = Some sec →
  Sec._acp_name sec ≠ "<global>" →
  pretty_print h fuel self indent do_indent c = (Done (Ret out), c') →
  ∃ body,
    out = (str_times " " indent
           +:+ str_times "[" (Sec._acp_nesting_level sec)
           +:+ Sec._acp_name sec
           +:+ str_times "]" (Sec._acp_nesting_level sec)
           +:+ newline_str) +:+ body.
Proof.
  intros Hsec Hname. destruct fuel as [|fuel]; [discriminate|].
  rewrite (pretty_print_S _ _ _ _ _ Hsec).
  intros [t ->]%pretty_print_entries_prefix. exists t.
  unfold start_text, is_named.
  apply String.eqb_neq in Hname. by rewrite Hname.
Qed.

Lemma raw_option_of_option ev self sec name o opt src c :
  sections h !! self = Some sec →
  data_descriptor name = false →
  Sec.children sec !! name = Some (ChildOption o) →
  Sec.children sec !! "_acp_get_raw_option" = None →
  Sec.children sec !! "__getattribute__" = None →
  options h !! o = Some opt →
  _acp_get_raw_value opt = Ret src →
  raw_option h ev self name c = (Done (Ret (VStr src)), c).
Proof.
  intros Hsec Hdd Hchild Hraw Hget Hopt Hsrc.
  unfold raw_option, _acp_get_raw_option.
  rewrite (bind_ret _ _ _ _ _ (Section_method_found _ _ _ _ c Hsec Hraw)).
  rewrite (bind_ret _ _ _ _ _ (Section_method_found _ _ _ _ c Hsec Hget)).
  rewrite Hsec, (object_getattribute_child _ _ _ Hdd Hchild), Hopt.
  unfold lift. by rewrite Hsrc.
Qed.

(** X17.  What an Option listed in a section contributes to the text, the
    name being none of [__class__], [__dict__] and [__weakref__].
    [pretty_print] first reads the Option's value.  If the value is not a
    Section, and the section has no child under the names of the methods
    [_acp_get_raw_option] and [__getattribute__], the line is [name = raw],
    indented, where [raw] is the text of the Option's expression.  If the
    value is a Section (the Option's expression is a reference to a
    section) that has no child named [pretty_print], that section is
    printed in place of the line.  A child under the name of a method is
    found in place of the method: with a sub-section named
    [_acp_get_raw_option] the line is a [TypeError]. *)
Theorem pretty_print_option_entry fuel self sec indent do_indent
    pre name post o c s1 c1 v c2 :
  sections h !! self = Some sec →
  Sec._acp_order sec = pre ++ name :: post →
  is_child_entry name = true →
  data_descriptor name = false →
  Sec.children sec !! name = Some (ChildOption o) →
  let ev := LazyEval._acp_eval h fuel in
  let pp_rec := λ t i, pretty_print h fuel t i true in
  let indent' := body_indent sec indent do_indent in
  pretty_print_entries h ev pp_rec self indent' pre (start_text sec indent) c
  = (Done (Ret s1), c1) →
  LazyEval.__get__ h fuel o c1 = (Done (Ret v), c2) →
  (∀ opt src,
     is_section_value v = false →
     Sec.children sec !! "_acp_get_raw_option" = None →
     Sec.children sec !! "__getattribute__" = None →
     options h !! o = Some opt →
     _acp_get_raw_value opt = Ret src →
     pretty_print h (S fuel) self indent do_indent c
     = pretty_print_entries h ev pp_rec self indent' post
         (s1 +:+ str_times " " indent' +:+ name +:+ " = " +:+ src
             +:+ newline_str) c2)
  ∧ (∀ t tsec txt c3,
     v = VSection t →
     sections h !! t = Some tsec →
     Sec.children tsec !! "pretty_print" = None →
     pretty_print h fuel t indent' true c2 = (Done (Ret txt), c3) →
     pretty_print h (S fuel) self indent do_indent c
     = pretty_print_entries h ev pp_rec self indent' post (s1 +:+ txt) c3)
  ∧ (∀ t,
     is_section_value v = false →
     Sec.children sec !! "_acp_get_raw_option" = Some (ChildSection t) →
     pretty_print h (S fuel) self indent do_indent c
     = (Done (Raise TypeError), c2)).
Proof.
  intros Hsec Horder Hentry Hdd Hchild ev pp_rec indent' Hpre Hget.
  assert (LazyEval.Section_getattribute h ev self name c1
          = (Done (Ret v), c2)) as Hattr.
  { by rewrite (Section_getattribute_option h _ _ _ _ _ Hsec Hdd Hchild). }
  rewrite (pretty_print_at _ _ _ _ _ _ _ _ _ _ _ Hsec Horder Hpre).
  fold ev pp_rec indent'. split; [|split].
  - intros opt src Hv Hraw Hgetattr Hopt Hsrc.
    pose proof (raw_option_of_option ev self sec name o opt src c2
                  Hsec Hdd Hchild Hraw Hgetattr Hopt Hsrc) as Hr.
    apply bind_ret.
    rewrite (print_entry_child _ _ _ _ _ _ _ Hentry).
    rewrite (bind_ret _ _ _ _ _ Hattr).
    destruct v; try discriminate; by rewrite (bind_ret _ _ _ _ _ Hr).
  - intros t tsec txt c3 -> Htsec Hpp Htxt.
    assert (print_child h ev pp_rec indent' t c2 = (Done (Ret (VStr txt)), c3))
      as Hprint.
    { unfold print_child.
      rewrite (bind_ret _ _ _ _ _
                 (Section_method_found _ _ _ _ c2 Htsec Hpp)).
      by rewrite (bind_ret _ _ _ _ _ Htxt). }
    apply bind_ret.
    rewrite (print_entry_child _ _ _ _ _ _ _ Hentry).
    rewrite (bind_ret _ _ _ _ _ Hattr).
    by rewrite (bind_ret _ _ _ _ _ Hprint).
  - intros t Hv Hraw.
    assert (raw_option h ev self name c2 = (Done (Raise TypeError), c2))
      as Hr.
    { unfold raw_option.
      by rewrite (bind_ret _ _ _ _ _
                    (Section_method_shadowed _ _ _ "_acp_get_raw_option" _
                       c2 Hsec eq_refl Hraw)). }
    apply bind_raise.
    rewrite (print_entry_child _ _ _ _ _ _ _ Hentry).
    rewrite (bind_ret _ _ _ _ _ Hattr).
    destruct v; try discriminate; by apply bind_raise.
Qed.

(** X18.  Printing reads every Option it lists under a name other than
    [__class__], [__dict__] and [__weakref__], so an Option whose read
    raises makes [pretty_print] (and [dump]) raise the same exception,
    although the text to be written is the raw expression and needs no
    value.  An entry under one of those three names is not read: attribute
    access answers from the class, and the line fails with whatever the
    lookup of [_acp_raw_value] on that answer raises. *)
Theorem pretty_print_raises_with_option fuel self sec indent do_indent
    pre name post c s1 c1 :
  sections h !! self = Some sec →
  Sec._acp_order sec = pre ++ name :: post →
  is_child_entry name = true →
  pretty_print_entries h (LazyEval._acp_eval h fuel)
    (λ t i, pretty_print h fuel t i true) self
    (body_indent sec indent do_indent) pre (start_text sec indent) c
  = (Done (Ret s1), c1) →
  (∀ o e c2,
     data_descriptor name = false →
     Sec.children sec !! name = Some (ChildOption o) →
     LazyEval.__get__ h fuel o c1 = (Done (Raise e), c2) →
     pretty_print h (S fuel) self indent do_indent c = (Done (Raise e), c2))
  ∧ (∀ v e,
     data_descriptor name = true →
     host_class_attr name = Some v →
     is_section_value v = false →
     Sec.children sec !! "_acp_get_raw_option" = None →
     Sec.children sec !! "__getattribute__" = None →
     host_getattr v "_acp_raw_value" = Raise e →
     pretty_print h (S fuel) self indent do_indent c = (Done (Raise e), c1)).
Proof.
  intros Hsec Horder Hentry Hpre.
  rewrite (pretty_print_at _ _ _ _ _ _ _ _ _ _ _ Hsec Horder Hpre).
  set (ev := LazyEval._acp_eval h fuel).
  split.
  - intros o e c2 Hdd Hchild Hget. apply bind_raise.
    rewrite (print_entry_child _ _ _ _ _ _ _ Hentry). apply bind_raise.
    by rewrite (Section_getattribute_option h _ _ _ _ _ Hsec Hdd Hchild).
  - intros v e Hdd Hclass Hv Hraw Hgetattr Herr.
    assert (LazyEval.Section_getattribute h ev self name c1
            = (Done (Ret v), c1)) as Hattr.
    { rewrite (Section_getattribute_descriptor h ev _ _ _ c1 Hsec Hdd).
      by rewrite Hclass. }
    assert (raw_option h ev self name c1 = (Done (Raise e), c1)) as Hr.
    { unfold raw_option, _acp_get_raw_option.
      rewrite (bind_ret _ _ _ _ _ (Section_method_found _ _ _ _ c1 Hsec Hraw)).
      rewrite (bind_ret _ _ _ _ _
                 (Section_method_found _ _ _ _ c1 Hsec Hgetattr)).
      rewrite Hsec, (object_getattribute_descriptor _ _ Hdd), Hclass.
      destruct v; try discriminate; unfold LazyEval.getattr, lift;
        by rewrite Herr. }
    apply bind_raise.
    rewrite (print_entry_child _ _ _ _ _ _ _ Hentry).
    rewrite (bind_ret _ _ _ _ _ Hattr).
    destruct v; try discriminate; by apply bind_raise.
Qed.

Lemma call_value_keeps f args kwargs : keeps_cache (call_value f args kwargs).
Proof.
  destruct f; try apply keeps_cache_raise. apply keeps_cache_lift.
Qed.

Lemma getattr_keeps ev obj attr :
  ev_keeps_cache ev → keeps_cache (LazyEval.getattr h ev obj attr).
Proof.
  intros Hev. destruct obj; try apply keeps_cache_lift.
  by apply Section_getattribute_keeps.
Qed.

Lemma Section_method_keeps ev self name :
  ev_keeps_cache ev → keeps_cache (Section_method h ev self name).
Proof.
  intros Hev. unfold Section_method.
  destruct (sections h !! self) as [sec|]; [|apply keeps_cache_dangling].
  destruct (Sec.children sec !! name); [|apply keeps_cache_ret].
  apply keeps_cache_bind; [by apply Section_getattribute_keeps|].
  intros v. apply keeps_cache_ret.
Qed.

Lemma _acp_get_raw_option_keeps ev self name :
  ev_keeps_cache ev → keeps_cache (_acp_get_raw_option h self name ev).
Proof.
  intros Hev. unfold _acp_get_raw_option.
  apply keeps_cache_bind; [by apply Section_method_keeps|].
  intros [f|].
  - apply keeps_cache_bind; [apply call_value_keeps|].
    intros obj. by apply getattr_keeps.
  - destruct (sections h !! self) as [sec|]; [|apply keeps_cache_dangling].
    destruct (LazyEval.object_getattribute sec name) as [[[s|o]|v]|e].
    + by apply getattr_keeps.
    + destruct (options h !! o);
        [apply keeps_cache_lift | apply keeps_cache_dangling].
    + by apply getattr_keeps.
    + apply keeps_cache_raise.
Qed.

Lemma raw_option_keeps ev self name :
  ev_keeps_cache ev → keeps_cache (raw_option h ev self name).
Proof.
  intros Hev. unfold raw_option.
  apply keeps_cache_bind; [by apply Section_method_keeps|].
  intros [f|]; [apply call_value_keeps | by apply _acp_get_raw_option_keeps].
Qed.

Lemma print_child_keeps ev pp_rec indent t :
  ev_keeps_cache ev → (∀ t i, keeps_cache (pp_rec t i)) →
  keeps_cache (print_child h ev pp_rec indent t).
Proof.
  intros Hev Hrec. unfold print_child.
  apply keeps_cache_bind; [by apply Section_method_keeps|].
  intros [f|]; [apply call_value_keeps|].
  apply keeps_cache_bind; [apply Hrec | intros; apply keeps_cache_ret].
Qed.

Lemma format_value_keeps v : keeps_cache (format_value h v).
Proof.
  destruct v; try apply keeps_cache_lift.
  simpl. destruct (sections h !! s);
    [apply keeps_cache_ret | apply keeps_cache_dangling].
Qed.

Lemma str_iadd_keeps s r : keeps_cache (str_iadd s r).
Proof. destruct r; try apply keeps_cache_raise. apply keeps_cache_ret. Qed.

Lemma pretty_print_entries_keeps ev pp_rec self indent order s :
  ev_keeps_cache ev → (∀ t i, keeps_cache (pp_rec t i)) →
  keeps_cache (pretty_print_entries h ev pp_rec self indent order s).
Proof.
  intros Hev Hrec. revert s. induction order as [|x rest IH]; intros s; simpl.
  - apply keeps_cache_ret.
  - destruct (String.eqb x newline_str); [apply IH|].
    destruct (String.prefix "#" (str_strip x)); [apply IH|].
    apply keeps_cache_bind; [by apply Section_getattribute_keeps|].
    intros child.
    destruct child;
      try (apply keeps_cache_bind; [by apply raw_option_keeps|];
           intros raw;
           apply keeps_cache_bind; [apply format_value_keeps|];
           intros; apply IH).
    apply keeps_cache_bind; [by apply print_child_keeps|]. intros txt.
    apply keeps_cache_bind; [apply str_iadd_keeps | intros; apply IH].
Qed.

Lemma pretty_print_keeps fuel self indent do_indent :
  keeps_cache (pretty_print h fuel self indent do_indent).
Proof.
  revert self indent do_indent.
  induction fuel as [|fuel IH]; intros self indent do_indent; simpl.
  - apply keeps_cache_out_of_fuel.
  - destruct (sections h !! self); [|apply keeps_cache_dangling].
    apply pretty_print_entries_keeps; [apply _acp_eval_keeps|].
    intros sub i. apply IH.
Qed.

(** X19.  Printing changes the cache only by adding to it: an Option cached
    before [pretty_print] or [dump] is cached with the same value after,
    whether the printing succeeds or not. *)
Theorem printing_keeps_cache fuel self indent do_indent c j v o c' :
  c !! j = Some v →
  pretty_print h fuel self indent do_indent c = (o, c') →
  c' !! j = Some v.
Proof.
  intros Hj Hpp. eapply lookup_weaken; [done|].
  by eapply pretty_print_keeps.
Qed.

End Printing.

(** ** Calls of whitelisted names *)

Section WhitelistedCalls.
Context `{Host} (h : heap).


End WhitelistedCalls.

(** * More scenarios *)

Section MoreScenarios.
Import SmallHost.


(** [1 < pi < 2 < nowhere] is [False] and never looks at [nowhere];
    [1 < pi < 4] is [True] *)
Lemma compare_chain_witness :
  LazyEval._acp_eval demo 4 (Some 2)
    (ast.Compare (ast.Num 1) ([ast.Lt] ++ ast.Lt :: [ast.Lt])
       ([ast.Name "pi"] ++ ast.Num 2 :: [ast.Name "nowhere"])) ∅
  = (Done (Ret (Some (VBool false, false || true || false))),
     <[0 := VInt 3]> ∅)
  ∧ LazyEval._acp_eval demo 4 (Some 2)
      (ast.Compare (ast.Num 1) [ast.Lt; ast.Lt] [ast.Name "pi"; ast.Num 4]) ∅
    = (Done (Ret (Some (VBool true, false || true))), <[0 := VInt 3]> ∅).
Proof.
  assert (LazyEval._acp_eval demo 3 (Some 2) (ast.Num 1) ∅
          = (Done (Ret (Some (VInt 1, false))), ∅)) as Hl by reflexivity.
  destruct (compare_chain demo 3 (Some 2) (ast.Num 1) ∅ (VInt 1) false ∅ Hl)
    as [Hpass Hstop].
  split.
  - apply (Hstop [ast.Lt] ast.Lt [ast.Lt] [ast.Name "pi"] (ast.Num 2)
             [ast.Name "nowhere"] [(VInt 3, true)] (<[0 := VInt 3]> ∅)
             (VInt 2) false); reflexivity.
  - apply (Hpass [ast.Lt; ast.Lt] [ast.Name "pi"; ast.Num 4]
             [(VInt 3, true); (VInt 4, false)]); reflexivity.
Defined.

(** reading [tau] with [foo] already cached *)
Lemma evaluation_keeps_cache_witness :
  (LazyEval.__get__ demo 4 3 (<[4 := VList [VInt 3; VInt 1]]> ∅)).2 !! 4
  = Some (VList [VInt 3; VInt 1])
  ∧ (LazyEval.__get__ demo 4 3 (<[4 := VList [VInt 3; VInt 1]]> ∅)).2 !! 0
    = Some (VInt 3).
Proof.
  split; [|reflexivity].
  assert ((<[4 := VList [VInt 3; VInt 1]]> ∅ : cache) !! 4
          = Some (VList [VInt 3; VInt 1])) as Hj by reflexivity.
  eapply (proj1 (evaluation_keeps_cache demo 4 _ 4 _ Hj) 3).
  apply surjective_pairing.
Defined.

(** [tau] is given the expression [pi + 1] while 7 is cached for it *)
Lemma expression_write_resets_witness :
  let h' := (LazyEval.__set__ demo (<[3 := VInt 7]> ∅) 3
               (LazyEval.AstNode
                  (ast.BinOp (ast.Name "pi") ast.Add (ast.Num 1)))).1 in
  let c' := (LazyEval.__set__ demo (<[3 := VInt 7]> ∅) 3
               (LazyEval.AstNode
                  (ast.BinOp (ast.Name "pi") ast.Add (ast.Num 1)))).2 in
  c' !! 3 = None
  ∧ LazyEval.__get__ h' 4 3 c' = (Done (Ret (VInt 4)), <[0 := VInt 3]> ∅).
Proof.
  assert (options demo !! 3
          = Some (new_option "tau" 2 2
                    (ast.BinOp (ast.Num 2) ast.Mult (ast.Name "pi"))))
    as Hopt by reflexivity.
  destruct (expression_write_resets demo (<[3 := VInt 7]> ∅) 3 _
              (ast.BinOp (ast.Name "pi") ast.Add (ast.Num 1)) Hopt)
    as (Hslot & _ & _ & Hread).
  split; [exact Hslot|].
  apply (Hread 4 (VInt 4) true (<[0 := VInt 3]> ∅)). reflexivity.
Defined.

Lemma write_frame_witness :
  (LazyEval.__set__ demo (<[0 := VInt 3]> ∅) 3 (LazyEval.Static (VInt 7))).2
    !! 0 = Some (VInt 3)
  ∧ options (LazyEval.__set__ demo ∅ 3 (LazyEval.AstNode (ast.Num 0))).1 !! 0
    = options demo !! 0.
Proof.
  split.
  - destruct (write_frame demo (<[0 := VInt 3]> ∅) 3
                (LazyEval.Static (VInt 7)) 0) as (Hslot & _); [lia|].
    etrans; [exact Hslot | reflexivity].
  - destruct (write_frame demo ∅ 3 (LazyEval.AstNode (ast.Num 0)) 0)
      as (_ & Hopt & _); [lia|].
    exact Hopt.
Defined.

Lemma dotted_name_round_trip_witness :
  ∃ ref, LazyEval.dotted_ref
           (attribute_chain "Section_1" ["Sub_Section_1"; "tau"]) ""
         = Ret ref
         ∧ str_split "." ref = ["Section_1"; "Sub_Section_1"; "tau"].
Proof.
  apply (dotted_name_round_trip "Section_1" ["Sub_Section_1"; "tau"]);
    reflexivity.
Defined.

Lemma reference_source_is_resolved_path_witness :
  ast_to_src (ast.Attribute (ast.Name "S") "x") = Ret "S.x".
Proof. apply reference_source_is_resolved_path. reflexivity. Defined.

(** [1 if pi < 2 else [pi]] has a text; a string with both kinds of
    quote has none *)
Lemma ast_to_src_succeeds_iff_renderable_witness :
  (∃ s, ast_to_src
          (ast.IfExp (ast.Compare (ast.Name "pi") [ast.Lt] [ast.Num 2])
             (ast.Num 1) (ast.List [ast.Name "pi"])) = Ret s)
  ∧ ¬ (∃ s, ast_to_src (ast.Str both_quotes) = Ret s).
Proof.
  split.
  - apply ast_to_src_succeeds_iff_renderable; reflexivity.
  - intros Htext.
    apply ast_to_src_succeeds_iff_renderable in Htext; [discriminate|].
    reflexivity.
Defined.

Example ast_to_src_failures :
  renderable (ast.Str both_quotes) = false
  ∧ renderable (ast.BinOp (ast.Num 1) ast.MatMult (ast.Num 2)) = false
  ∧ renderable (ast.Dict [ast.Num 1] []) = false
  ∧ renderable (ast.List [ast.Load]) = false
  ∧ renderable (ast.UnaryOp ast.Not (ast.Name "x")) = true
  ∧ ast_to_src (ast.UnaryOp ast.Not (ast.Name "x")) = Ret "!x".
Proof. repeat split; reflexivity. Qed.

Lemma dict_source_text_witness :
  ast_to_src (ast.Dict [ast.Num 1; ast.Str "k"] [ast.Name "pi"; ast.Num 2])
  = Ret "{ 1: pi, 'k': 2 }".
Proof.
  apply (dict_source_text [ast.Num 1; ast.Str "k"] [ast.Name "pi"; ast.Num 2]
           ["1"; "'k'"] ["pi"; "2"]); reflexivity.
Defined.

(** the section [T] is added to the root of [orphans_demo] and is found
    there; the section [__class__] is added to the root of [dunder_demo],
    where the name keeps leading to the class *)
Lemma add_child_then_lookup_witness :
  (∃ h', _acp_add_child orphans_demo 0 (ChildSection 4) = Some (Ret tt, h')
         ∧ LazyEval._acp_resolve_reference h' 1 "T" (Some 0) ∅
           = (Done (Ret (VSection 4)), ∅))
  ∧ (∃ h' sec', _acp_add_child dunder_demo 0 (ChildSection 5)
                = Some (Ret tt, h')
         ∧ sections h' !! 0 = Some sec'
         ∧ Sec.children sec' !! "__class__" = Some (ChildSection 5)
         ∧ LazyEval.Section_getattribute h' (LazyEval._acp_eval h' 0) 0
             "__class__" ∅
           = (Done (Ret (VObject "<class 'AdvancedConfigParser.Section'>"
                           true)), ∅)).
Proof.
  assert (sections orphans_demo !! 0
          = Some (new_section "<global>" None 0 ["pi"; "S"; "In"]
                    [("pi", ChildOption 0); ("S", ChildSection 1);
                     ("In", ChildSection 2)])) as Hroot by reflexivity.
  split.
  - assert (child_name orphans_demo (ChildSection 4) = Some "T")
      as Hname by reflexivity.
    destruct (add_child_then_lookup orphans_demo 0 _ (ChildSection 4) "T"
                Hroot Hname)
      as (h' & sec' & Hadd & _ & _ & _ & _ & _ & Hres & _); [reflexivity|].
    exists h'. split; [exact Hadd|].
    apply (Hres 4 0 ∅); reflexivity.
  - assert (sections dunder_demo !! 0
            = Some (new_section "<global>" None 0 ["pi"; "S"; "In"]
                      [("pi", ChildOption 0); ("S", ChildSection 1);
                       ("In", ChildSection 2)])) as Hroot' by reflexivity.
    assert (child_name dunder_demo (ChildSection 5) = Some "__class__")
      as Hname by reflexivity.
    destruct (add_child_then_lookup dunder_demo 0 _ (ChildSection 5)
                "__class__" Hroot' Hname)
      as (h' & sec' & Hadd & Hsec' & Hch & _ & _ & _ & _ & Hclass);
      [reflexivity|].
    exists h', sec'. split; [exact Hadd|]. split; [exact Hsec'|].
    split; [exact Hch|].
    apply (Hclass (LazyEval._acp_eval h' 0) ∅). reflexivity.
Defined.

(** a second [pi] is refused by the root, and has been given the root as
    its parent all the same *)
Lemma add_child_duplicate_witness :
  ∃ h', _acp_add_child orphans_demo 0 (ChildOption 8)
        = Some (Raise SyntaxError, h')
        ∧ Opt._acp_parent <$> options h' !! 8 = Some (Some 0)
        ∧ Opt._acp_parent <$> options orphans_demo !! 8 = Some None.
Proof.
  assert (sections orphans_demo !! 0
          = Some (new_section "<global>" None 0 ["pi"; "S"; "In"]
                    [("pi", ChildOption 0); ("S", ChildSection 1);
                     ("In", ChildSection 2)])) as Hroot by reflexivity.
  assert (child_name orphans_demo (ChildOption 8) = Some "pi")
    as Hname by reflexivity.
  destruct (add_child_duplicate orphans_demo 0 _ (ChildOption 8) "pi"
              Hroot Hname)
    as (h' & sec' & Hadd & -> & _); [reflexivity|].
  eexists. split; [exact Hadd|]. split; reflexivity.
Defined.

(** [z], whose parent is [S], is added to [In]: it is a child of [In] and
    still resolves [x] from [S] *)
Lemma add_child_relabels_option_witness :
  ∃ h' opt',
    _acp_add_child orphans_demo 2 (ChildOption 9) = Some (Ret tt, h')
    ∧ options h' !! 9 = Some opt'
    ∧ Opt._acp_parent opt' = Some 1
    ∧ Opt._acp_nesting_level opt' = 2%Z
    ∧ LazyEval.__get__ h' 3 9 ∅ = (Done (Ret (VInt 1)), <[1 := VInt 1]> ∅).
Proof.
  destruct (_acp_add_child orphans_demo 2 (ChildOption 9))
    as [[r h']|] eqn:Hadd; [|discriminate].
  assert (sections orphans_demo !! 2
          = Some (new_section "In" (Some 0) 1
                    ["y"; "tau"; "foo"; "d"; "lazy"; "bad"; "S"]
                    [("y", ChildOption 2); ("tau", ChildOption 3);
                     ("foo", ChildOption 4); ("d", ChildOption 5);
                     ("lazy", ChildOption 6); ("bad", ChildOption 7);
                     ("S", ChildSection 3)])) as Hin by reflexivity.
  assert (options orphans_demo !! 9
          = Some (new_option "z" 1 0 (ast.Name "x"))) as Hz by reflexivity.
  destruct (add_child_relabels_option orphans_demo 2 _ 9 _ r h' Hin Hz Hadd)
    as (opt' & Hopt' & Hlevel & Hparent & _).
  vm_compute in Hadd. injection Hadd as <- <-.
  eexists _, opt'. split; [reflexivity|]. split; [exact Hopt'|].
  split; [exact Hparent|]. split; [exact Hlevel|]. reflexivity.
Defined.

(** the tests [test_comment] and [test_empty_line] *)
Example pretty_print_lines :
  (pretty_print lines_demo 2 0 0 true ∅).1
  = Done (Ret (String.concat newline_str
                 ["# leading comment"; "a = 3"; ""; "b = 5"; ""])).
Proof. reflexivity. Qed.

Lemma dump_root_is_pretty_print_witness :
  call_dump lines_demo 2 0 = call_pretty_print lines_demo 2 0
  ∧ dump shadow_demo 2 0 ∅ = (Done (Raise TypeError), ∅).
Proof.
  split.
  - destruct (dump_root_is_pretty_print lines_demo 2 0
                (new_section "<global>" None 0
                   ["# leading comment"; "a"; newline_str; "b"]
                   [("a", ChildOption 0); ("b", ChildOption 1)]))
      as [Hsame _]; [reflexivity..|].
    destruct Hsame as [_ Hcalls]; [reflexivity|].
    apply Hcalls. reflexivity.
  - destruct (dump_root_is_pretty_print shadow_demo 2 0
                (new_section "<global>" None 0 ["pretty_print"; "A"]
                   [("pretty_print", ChildSection 1); ("A", ChildSection 2)]))
      as [_ Hshadow]; [reflexivity..|].
    apply (Hshadow 1 ∅). reflexivity.
Defined.

Lemma pretty_print_starts_with_header_witness :
  ∃ body,
    String.concat newline_str [" [A]"; "  x = 1"; ""]
    = (str_times " " 1 +:+ str_times "[" 1 +:+ "A" +:+ str_times "]" 1
       +:+ newline_str) +:+ body.
Proof.
  apply (pretty_print_starts_with_header alias_demo 2 1
           (new_section "A" (Some 0) 1 ["x"] [("x", ChildOption 0)])
           1 true ∅ _ (<[0 := VInt 1]> ∅)).
  - reflexivity.
  - discriminate.
  - reflexivity.
Defined.

(** [alias = A] in section [B] is printed as section [A] *)
Lemma pretty_print_option_entry_witness :
  pretty_print alias_demo 4 2 0 true ∅
  = (Done (Ret (String.concat newline_str ["[B]"; " [A]"; "  x = 1"; ""])),
     <[0 := VInt 1]> ∅)
  ∧ pretty_print alias_demo 3 1 0 true ∅
    = (Done (Ret (String.concat newline_str ["[A]"; " x = 1"; ""])),
       <[0 := VInt 1]> ∅).
Proof.
  split.
  - destruct (pretty_print_option_entry alias_demo 3 2
                (new_section "B" (Some 0) 1 ["alias"]
                   [("alias", ChildOption 1)])
                0 true [] "alias" [] 1 ∅ (String.concat newline_str ["[B]"; ""])
                ∅ (VSection 1) ∅) as (_ & Hsection & _); [reflexivity..|].
    rewrite (Hsection 1
               (new_section "A" (Some 0) 1 ["x"] [("x", ChildOption 0)])
               (String.concat newline_str [" [A]"; "  x = 1"; ""])
               (<[0 := VInt 1]> ∅)) by reflexivity.
    reflexivity.
  - destruct (pretty_print_option_entry alias_demo 2 1
                (new_section "A" (Some 0) 1 ["x"] [("x", ChildOption 0)])
                0 true [] "x" [] 0 ∅ (String.concat newline_str ["[A]"; ""])
                ∅ (VInt 1) (<[0 := VInt 1]> ∅)) as (Hline & _);
      [reflexivity..|].
    rewrite (Hline (new_option "x" 1 2 (ast.Num 1)) "1") by reflexivity.
    reflexivity.
Defined.

(** section [In] of [demo] cannot be printed: [bad] cannot be read.
    Section [A] of [shadow_demo] cannot be printed either, but its option
    [__class__ = 1 // 0] is never read: the failure is the
    [AttributeError] of looking for the raw value on the class. *)
Lemma pretty_print_raises_with_option_witness :
  (pretty_print demo 6 2 0 true ∅).1 = Done (Raise TypeError)
  ∧ pretty_print shadow_demo 3 2 0 true ∅ = (Done (Raise AttributeError), ∅)
  ∧ LazyEval.__get__ shadow_demo 3 1 ∅ = (Done (Raise ZeroDivisionError), ∅).
Proof.
  split; [|split; [|reflexivity]].
  - set (c1 := (pretty_print_entries demo (LazyEval._acp_eval demo 5)
                  (λ t i, pretty_print demo 5 t i true) 2 1
                  ["y"; "tau"; "foo"; "d"; "lazy"]
                  (String.concat newline_str ["[In]"; ""]) ∅).2).
    destruct (pretty_print_raises_with_option demo 5 2
                (new_section "In" (Some 0) 1
                   ["y"; "tau"; "foo"; "d"; "lazy"; "bad"; "S"]
                   [("y", ChildOption 2); ("tau", ChildOption 3);
                    ("foo", ChildOption 4); ("d", ChildOption 5);
                    ("lazy", ChildOption 6); ("bad", ChildOption 7);
                    ("S", ChildSection 3)])
                0 true ["y"; "tau"; "foo"; "d"; "lazy"] "bad" ["S"] ∅
                (String.concat newline_str
                   ["[In]"; " y = S.x"; " tau = (2 * pi)"; " foo = [pi, 1]";
                    " d = { 1: pi }"; " lazy = 1 if True else nowhere"; ""])
                c1) as [Hread _]; [reflexivity..|].
    rewrite (Hread 7 TypeError c1) by reflexivity.
    reflexivity.
  - destruct (pretty_print_raises_with_option shadow_demo 2 2
                (new_section "A" (Some 0) 1 ["__class__"; "y"]
                   [("__class__", ChildOption 1); ("y", ChildOption 2)])
                0 true [] "__class__" ["y"] ∅
                (String.concat newline_str ["[A]"; ""]) ∅)
      as [_ Hclass]; [reflexivity..|].
    apply (Hclass (VObject "<class 'AdvancedConfigParser.Section'>" true)
             AttributeError); reflexivity.
Defined.

Lemma printing_keeps_cache_witness :
  (pretty_print demo 6 2 0 true (<[3 := VInt 7]> ∅)).2 !! 3 = Some (VInt 7).
Proof.
  eapply (printing_keeps_cache demo 6 2 0 true (<[3 := VInt 7]> ∅) 3 (VInt 7)).
  - reflexivity.
  - apply surjective_pairing.
Defined.


(** [y = x] in section [A] of [masked_demo]: [A.x] fails with an
    [AttributeError], so [y] is the root's [x], and [x.real] from [A] is the
    [real] of the root's [x] *)
Lemma resolver_masks_option_errors_witness :
  LazyEval.__get__ masked_demo 3 1 ∅ = (Done (Raise AttributeError), ∅)
  ∧ LazyEval._acp_resolve_reference masked_demo 3 "x" (Some 1) ∅
    = (Done (Ret (VInt 1)), <[0 := VInt 1]> ∅)
  ∧ LazyEval._acp_resolve_reference masked_demo 3 "x.real" (Some 1) ∅
    = (Done (Ret (VInt 1)), <[0 := VInt 1]> ∅).
Proof.
  split; [reflexivity|]. split.
  - destruct (resolver_masks_option_errors masked_demo 3 1
                (new_section "A" (Some 0) 1 ["x"; "y"]
                   [("x", ChildOption 1); ("y", ChildOption 2)])
                "x" "x" [] 1 ∅ AttributeError ∅) as [Hstep _];
      [reflexivity..|].
    etrans; [exact (Hstep 2) | reflexivity].
  - destruct (resolver_masks_option_errors masked_demo 3 1
                (new_section "A" (Some 0) 1 ["x"; "y"]
                   [("x", ChildOption 1); ("y", ChildOption 2)])
                "x.real" "x" ["real"] 1 ∅ AttributeError ∅) as [Hstep _];
      [reflexivity..|].
    etrans; [exact (Hstep 2) | reflexivity].
Defined.

End MoreScenarios.
